(** * ParlaPlate: candidate retrieval and conversational gating

    A shallow embedding of [parlaplate/utils.py], [parlaplate/match.py] and
    [parlaplate/agent.py], and the properties of the extractor, the ranker,
    the embedding cache and the gating agent that follow from the code.

    Conventions.
    - A Python [str] is the list of its code points ([pystr]); literals are
      written as Rocq strings and decoded from UTF-8 by [u].
    - Library behaviour that rests on Unicode tables or on binary floating
      point ([str.lower], [str.isalnum], decimal digits, printable code
      points, [repr] of a float) is a field of the class [PyRuntime]; every
      general theorem holds for every instance.  [ascii_runtime] agrees with
      CPython on ASCII text and is used to run the code on concrete inputs.
    - A score is a rational number: NaN and rounding are outside the model.
    - The hosted services (chat completion, embedding), the cache directory
      and the clock are explicit arguments and explicit state. *)

From Stdlib Require Import List String Ascii NArith ZArith QArith Lia Bool.
From Stdlib Require Import Sorting.Sorted Permutation.
From stdpp Require Import base gmap list.

Set Warnings "-register-all".

Open Scope N_scope.

(** ** Python strings *)

Definition pystr := list N.

Fixpoint bytes_of (s : string) : list N :=
  match s with
  | EmptyString => []
  | String a r => N_of_ascii a :: bytes_of r
  end.

(** UTF-8 decoding of a literal of this file. *)
Fixpoint utf8 (bs : list N) : pystr :=
  match bs with
  | [] => []
  | b0 :: r0 =>
    if b0 <? 128 then b0 :: utf8 r0
    else
      match r0 with
      | [] => []
      | b1 :: r1 =>
        if b0 <? 224 then ((b0 - 192) * 64 + (b1 - 128)) :: utf8 r1
        else
          match r1 with
          | [] => []
          | b2 :: r2 =>
            if b0 <? 240
            then ((b0 - 224) * 4096 + (b1 - 128) * 64 + (b2 - 128)) :: utf8 r2
            else
              match r2 with
              | [] => []
              | b3 :: r3 =>
                ((b0 - 240) * 262144 + (b1 - 128) * 4096
                 + (b2 - 128) * 64 + (b3 - 128)) :: utf8 r3
              end
          end
      end
  end.

Definition u (s : string) : pystr := utf8 (bytes_of s).

(** [uq] reads a literal in which a backquote stands for the double quote. *)
Definition uq (s : string) : pystr :=
  map (fun c => if c =? 96 then 34 else c) (u s).

Arguments u : simpl never.
Arguments uq : simpl never.

Definition pystr_eqb (a b : pystr) : bool := bool_decide (a = b).

(** [str.isspace] of one code point; also the class [\s] of [re]. *)
Definition py_isspace (c : N) : bool :=
  ((9 <=? c) && (c <=? 13)) || ((28 <=? c) && (c <=? 32))
  || (c =? 133) || (c =? 160) || (c =? 5760)
  || ((8192 <=? c) && (c <=? 8202))
  || (c =? 8232) || (c =? 8233) || (c =? 8239) || (c =? 8287) || (c =? 12288).

Fixpoint lstrip (s : pystr) : pystr :=
  match s with
  | c :: r => if py_isspace c then lstrip r else s
  | [] => []
  end.

Definition rstrip (s : pystr) : pystr := rev (lstrip (rev s)).

Definition strip (s : pystr) : pystr := rstrip (lstrip s).

Fixpoint startswith (s p : pystr) : bool :=
  match p, s with
  | [], _ => true
  | _ :: _, [] => false
  | a :: p', b :: s' => (a =? b) && startswith s' p'
  end.

Definition endswith (s p : pystr) : bool := startswith (rev s) (rev p).

(** [needle in s] for strings. *)
Fixpoint contains (s needle : pystr) : bool :=
  startswith s needle ||
  match s with
  | [] => false
  | _ :: r => contains r needle
  end.

(** [sep.join(parts)]. *)
Fixpoint join (sep : pystr) (parts : list pystr) : pystr :=
  match parts with
  | [] => []
  | [p] => p
  | p :: rest => p ++ sep ++ join sep rest
  end.

(** [s[a:b]] for [0 <= a]. *)
Definition slice (s : pystr) (a b : nat) : pystr := take (b - a) (drop a s).

(** [any(p(x) for x in l)]. *)
Definition any {A} (p : A -> bool) (l : list A) : bool := existsb p l.

(** Lexicographic order on code points: [a < b] on [str]. *)
Fixpoint pystr_ltb (a b : pystr) : bool :=
  match a, b with
  | _, [] => false
  | [], _ :: _ => true
  | x :: a', y :: b' => (x <? y) || ((x =? y) && pystr_ltb a' b')
  end.

Fixpoint nat_digits (fuel : nat) (n : N) (acc : pystr) : pystr :=
  match fuel with
  | O => acc
  | S f =>
    let acc' := (48 + n mod 10) :: acc in
    if n <? 10 then acc' else nat_digits f (n / 10) acc'
  end.

(** [str(n)] of a non-negative integer. *)
Definition N_to_pystr (n : N) : pystr := nat_digits (S (N.to_nat (N.log2 n))) n [].

(** [str(z)] of an integer. *)
Definition Z_to_pystr (z : Z) : pystr :=
  match z with
  | Zneg p => 45 :: N_to_pystr (Npos p)
  | _ => N_to_pystr (Z.to_N z)
  end.

Definition hex_digit (n : N) : N := if n <? 10 then 48 + n else 87 + n.

(** [n] as [k] lower-case hexadecimal digits. *)
Fixpoint hex_fixed (k : nat) (n : N) (acc : pystr) : pystr :=
  match k with
  | O => acc
  | S k' => hex_fixed k' (n / 16) (hex_digit (n mod 16) :: acc)
  end.

(** Library tables the code relies on. *)
Class PyRuntime := {
  (** [str.lower] *)
  lower : pystr -> pystr;
  (** [str.isalnum] of one code point *)
  py_isalnum : N -> bool;
  (** the value of a code point of category Nd: [\d] of [re], [float] *)
  py_decimal : N -> option N;
  (** [str.isprintable] of one code point above U+007F *)
  py_isprintable : N -> bool;
  (** [repr(float(lexeme))] for a JSON number lexeme *)
  float_repr : pystr -> pystr
}.

Definition ascii_lower_cp (c : N) : N :=
  if (65 <=? c) && (c <=? 90) then c + 32 else c.

Definition ascii_decimal (c : N) : option N :=
  if (48 <=? c) && (c <=? 57) then Some (c - 48) else None.

Definition ascii_isalnum (c : N) : bool :=
  ((48 <=? c) && (c <=? 57)) || ((65 <=? c) && (c <=? 90))
  || ((97 <=? c) && (c <=? 122)).

(** CPython on ASCII text; floats print as written. *)
Definition ascii_runtime : PyRuntime := {|
  lower := map ascii_lower_cp;
  py_isalnum := ascii_isalnum;
  py_decimal := ascii_decimal;
  py_isprintable := fun _ => true;
  float_repr := fun s => s
|}.

(** ** JSON values, [json.loads], [json.dumps] and [repr] *)

(** A value [json.loads] returns.  A float keeps the lexeme it was read
    from; a dict keeps its keys in insertion order. *)
Inductive json :=
| JNull
| JBool (b : bool)
| JInt (z : Z)
| JFloat (lexeme : pystr)
| JStr (s : pystr)
| JList (l : list json)
| JDict (d : list (pystr * json)).

Definition is_list (j : json) : bool :=
  match j with JList _ => true | _ => false end.

Definition is_dict (j : json) : bool :=
  match j with JDict _ => true | _ => false end.

(** [d[k] = v]: an existing key keeps its place. *)
Fixpoint dict_set (d : list (pystr * json)) (k : pystr) (v : json) :=
  match d with
  | [] => [(k, v)]
  | (k', v') :: r =>
    if pystr_eqb k' k then (k', v) :: r else (k', v') :: dict_set r k v
  end.

Fixpoint dict_lookup (d : list (pystr * json)) (k : pystr) : option json :=
  match d with
  | [] => None
  | (k', v') :: r => if pystr_eqb k' k then Some v' else dict_lookup r k
  end.

(** [d.get(k, default)]. *)
Definition dict_get (d : list (pystr * json)) (k : pystr) (default : json) :=
  match dict_lookup d k with Some v => v | None => default end.

Module JsonDecoder.

(** The whitespace of the scanner: space, tab, newline, carriage return. *)
Definition is_ws (c : N) : bool :=
  (c =? 32) || (c =? 9) || (c =? 10) || (c =? 13).

Fixpoint skip_ws (s : pystr) : pystr :=
  match s with
  | c :: r => if is_ws c then skip_ws r else s
  | [] => []
  end.

Definition is_digit (c : N) : bool := (48 <=? c) && (c <=? 57).

Definition hex_val (c : N) : option N :=
  if is_digit c then Some (c - 48)
  else if (97 <=? c) && (c <=? 102) then Some (c - 87)
  else if (65 <=? c) && (c <=? 70) then Some (c - 55)
  else None.

Definition hex4 (a b c d : N) : option N :=
  match hex_val a, hex_val b, hex_val c, hex_val d with
  | Some x, Some y, Some z, Some w => Some (((x * 16 + y) * 16 + z) * 16 + w)
  | _, _, _, _ => None
  end.

Definition simple_escape (c : N) : option N :=
  if c =? 34 then Some 34          (* quote *)
  else if c =? 92 then Some 92     (* backslash *)
  else if c =? 47 then Some 47     (* slash *)
  else if c =? 98 then Some 8      (* b *)
  else if c =? 102 then Some 12    (* f *)
  else if c =? 110 then Some 10    (* n *)
  else if c =? 114 then Some 13    (* r *)
  else if c =? 116 then Some 9     (* t *)
  else None.

Definition is_high_surrogate (c : N) : bool := (55296 <=? c) && (c <=? 56319).
Definition is_low_surrogate (c : N) : bool := (56320 <=? c) && (c <=? 57343).

(** [scanstring] in strict mode, entered after the opening quote.  A high
    surrogate escape directly followed by a low surrogate escape is joined;
    a control character below U+0020 is refused. *)
Fixpoint scanstring (s : pystr) (acc : pystr) : option (pystr * pystr) :=
  match s with
  | [] => None
  | c :: r =>
    if c =? 34 then Some (rev acc, r)
    else if c =? 92 then
      match r with
      | [] => None
      | e :: r' =>
        if e =? 117 then
          match r' with
          | h1 :: h2 :: h3 :: h4 :: r4 =>
            match hex4 h1 h2 h3 h4 with
            | None => None
            | Some c1 =>
              match r4 with
              | b :: v :: g1 :: g2 :: g3 :: g4 :: r10 =>
                if is_high_surrogate c1 && (b =? 92) && (v =? 117) then
                  match hex4 g1 g2 g3 g4 with
                  | None => None
                  | Some c2 =>
                    if is_low_surrogate c2
                    then scanstring r10
                           ((65536 + (c1 - 55296) * 1024 + (c2 - 56320)) :: acc)
                    else scanstring r4 (c1 :: acc)
                  end
                else scanstring r4 (c1 :: acc)
              | _ => scanstring r4 (c1 :: acc)
              end
            end
          | _ => None
          end
        else
          match simple_escape e with
          | Some x => scanstring r' (x :: acc)
          | None => None
          end
      end
    else if c <=? 31 then None
    else scanstring r (c :: acc)
  end.

Fixpoint span_digits (s : pystr) : pystr * pystr :=
  match s with
  | c :: r =>
    if is_digit c then let (ds, r') := span_digits r in (c :: ds, r')
    else ([], s)
  | [] => ([], [])
  end.

Definition digits_value (ds : pystr) : N :=
  fold_left (fun acc c => acc * 10 + (c - 48)) ds 0.

(** The number matcher of the scanner: an integer part without a leading
    zero, then a fraction only when a digit follows the dot, then an
    exponent only when it holds a digit. *)
Definition match_number (s : pystr) : option (json * pystr) :=
  let '(neg, s1) :=
    match s with
    | c :: r => if c =? 45 then (true, r) else (false, s)
    | [] => (false, s)
    end in
  match s1 with
  | [] => None
  | d :: r =>
    let int_part :=
      if (49 <=? d) && (d <=? 57)
      then let (ds, r') := span_digits r in Some (d :: ds, r')
      else if d =? 48 then Some ([d], r)
      else None in
    match int_part with
    | None => None
    | Some (ids, r1) =>
      let '(fds, r2) :=
        match r1 with
        | p :: f :: _ =>
          if (p =? 46) && is_digit f
          then let (ds, r') := span_digits (drop 1 r1) in (p :: ds, r')
          else ([], r1)
        | _ => ([], r1)
        end in
      let '(eds, r3) :=
        match r2 with
        | e :: r' =>
          if (e =? 101) || (e =? 69) then
            let '(sgn, r'') :=
              match r' with
              | g :: t => if (g =? 45) || (g =? 43) then ([g], t) else ([], r')
              | [] => ([], r')
              end in
            let (ds, r''') := span_digits r'' in
            match ds with
            | [] => ([], r2)
            | _ => (e :: sgn ++ ds, r''')
            end
          else ([], r2)
        | [] => ([], r2)
        end in
      let sign := if neg then [45] else [] in
      match fds, eds with
      | [], [] =>
        let v := Z.of_N (digits_value ids) in
        Some (JInt (if neg then Z.opp v else v), r3)
      | _, _ => Some (JFloat (sign ++ ids ++ fds ++ eds), r3)
      end
    end
  end.

(** The element loop of an array, entered at the first element. *)
Fixpoint parse_array_items (n : nat) (scan : pystr -> option (json * pystr))
    (s : pystr) (acc : list json) : option (list json * pystr) :=
  match n with
  | O => None
  | S n' =>
    match scan s with
    | None => None
    | Some (v, r) =>
      match skip_ws r with
      | c :: r' =>
        if c =? 93 then Some (rev (v :: acc), r')
        else if c =? 44 then parse_array_items n' scan (skip_ws r') (v :: acc)
        else None
      | [] => None
      end
    end
  end.

(** The member loop of an object, entered at the first key. *)
Fixpoint parse_object_items (n : nat) (scan : pystr -> option (json * pystr))
    (s : pystr) (acc : list (pystr * json))
    : option (list (pystr * json) * pystr) :=
  match n with
  | O => None
  | S n' =>
    match s with
    | q :: r0 =>
      if q =? 34 then
        match scanstring r0 [] with
        | None => None
        | Some (k, r1) =>
          match skip_ws r1 with
          | c :: r2 =>
            if c =? 58 then
              match scan (skip_ws r2) with
              | None => None
              | Some (v, r3) =>
                let acc' := dict_set acc k v in
                match skip_ws r3 with
                | c' :: r4 =>
                  if c' =? 125 then Some (acc', r4)
                  else if c' =? 44
                  then parse_object_items n' scan (skip_ws r4) acc'
                  else None
                | [] => None
                end
              end
            else None
          | [] => None
          end
        end
      else None
    | [] => None
    end
  end.

(** [scan_once]: one value at the head of [s].  [fuel] bounds the nesting
    depth.  The limits of the interpreter (the recursion depth, the number
    of digits of an integer) are not modelled. *)
Fixpoint scan_once (fuel : nat) (s : pystr) : option (json * pystr) :=
  match fuel with
  | O => None
  | S f =>
    match s with
    | [] => None
    | c :: r =>
      if c =? 34 then
        match scanstring r [] with
        | Some (v, r') => Some (JStr v, r')
        | None => None
        end
      else if c =? 123 then
        match skip_ws r with
        | x :: r2 =>
          if x =? 125 then Some (JDict [], r2)
          else
            match parse_object_items (length r) (scan_once f) (skip_ws r) [] with
            | Some (d, r') => Some (JDict d, r')
            | None => None
            end
        | [] => None
        end
      else if c =? 91 then
        match skip_ws r with
        | x :: r2 =>
          if x =? 93 then Some (JList [], r2)
          else
            match parse_array_items (length r) (scan_once f) (skip_ws r) [] with
            | Some (l, r') => Some (JList l, r')
            | None => None
            end
        | [] => None
        end
      else if startswith s (u "null") then Some (JNull, drop 4 s)
      else if startswith s (u "true") then Some (JBool true, drop 4 s)
      else if startswith s (u "false") then Some (JBool false, drop 5 s)
      else if startswith s (u "NaN") then Some (JFloat (u "NaN"), drop 3 s)
      else if startswith s (u "Infinity")
      then Some (JFloat (u "Infinity"), drop 8 s)
      else if startswith s (u "-Infinity")
      then Some (JFloat (u "-Infinity"), drop 9 s)
      else match_number s
    end
  end.

(** [json.loads(s)]: [None] stands for [JSONDecodeError]. *)
Definition loads (s : pystr) : option json :=
  match scan_once (S (length s)) (skip_ws s) with
  | Some (v, r) => match skip_ws r with [] => Some v | _ => None end
  | None => None
  end.

End JsonDecoder.

(** The test [json.loads(s)] succeeds. *)
Definition json_valid (s : pystr) : bool :=
  match JsonDecoder.loads s with Some _ => true | None => false end.

Section Printing.
Context {rt : PyRuntime}.

(** One character of [repr(str)] with the quote [q] around the string. *)
Definition repr_char (q c : N) : pystr :=
  if (c =? q) || (c =? 92) then [92; c]
  else if c =? 9 then [92; 116]
  else if c =? 10 then [92; 110]
  else if c =? 13 then [92; 114]
  else if (c <? 32) || (c =? 127) then [92; 120] ++ hex_fixed 2 c []
  else if c <? 127 then [c]
  else if py_isprintable c then [c]
  else if c <=? 255 then [92; 120] ++ hex_fixed 2 c []
  else if c <=? 65535 then [92; 117] ++ hex_fixed 4 c []
  else [92; 85] ++ hex_fixed 8 c [].

(** [repr(s)] of a string: single quotes, unless the string holds a single
    quote and no double quote. *)
Definition repr_str (s : pystr) : pystr :=
  let q := if existsb (N.eqb 39) s && negb (existsb (N.eqb 34) s)
           then 34 else 39 in
  [q] ++ flat_map (repr_char q) s ++ [q].

(** [repr(v)]; [str(v)] of a list or a dict is the same text. *)
Fixpoint py_repr (j : json) : pystr :=
  match j with
  | JNull => u "None"
  | JBool true => u "True"
  | JBool false => u "False"
  | JInt z => Z_to_pystr z
  | JFloat l => float_repr l
  | JStr s => repr_str s
  | JList l => [91] ++ join (u ", ") (List.map py_repr l) ++ [93]
  | JDict d =>
    [123]
    ++ join (u ", ")
         (List.map (fun kv => repr_str (fst kv) ++ u ": " ++ py_repr (snd kv)) d)
    ++ [125]
  end.

(** One character of a string in [json.dumps]. *)
Definition dumps_char (ensure_ascii : bool) (c : N) : pystr :=
  if c =? 34 then [92; 34]
  else if c =? 92 then [92; 92]
  else if c =? 10 then [92; 110]
  else if c =? 13 then [92; 114]
  else if c =? 9 then [92; 116]
  else if c =? 8 then [92; 98]
  else if c =? 12 then [92; 102]
  else if c <? 32 then [92; 117] ++ hex_fixed 4 c []
  else if negb ensure_ascii then [c]
  else if c <? 127 then [c]
  else if c <? 65536 then [92; 117] ++ hex_fixed 4 c []
  else
    let v := c - 65536 in
    [92; 117] ++ hex_fixed 4 (55296 + v / 1024) []
    ++ [92; 117] ++ hex_fixed 4 (56320 + v mod 1024) [].

Definition dumps_str (ensure_ascii : bool) (s : pystr) : pystr :=
  [34] ++ flat_map (dumps_char ensure_ascii) s ++ [34].

(** [sorted(d.items())] for [sort_keys=True], on the rendered members. *)
Fixpoint insert_key {A} (kv : pystr * A) (d : list (pystr * A)) :=
  match d with
  | [] => [kv]
  | kv' :: r =>
    if pystr_ltb (fst kv) (fst kv') then kv :: d else kv' :: insert_key kv r
  end.

Definition sort_items {A} (d : list (pystr * A)) : list (pystr * A) :=
  fold_right insert_key [] d.

Definition newline_indent (indent level : nat) : pystr :=
  10 :: repeat 32 (indent * level).

(** [json.dumps(j, ensure_ascii=.., sort_keys=.., indent=..)] at nesting
    depth [level].  Without [indent] an item is followed by a comma and a
    space; with it every element starts a line and only a comma follows an
    item.  A key is followed by a colon and a space. *)
Fixpoint dumps_at (ensure_ascii sort_keys : bool) (indent : option nat)
    (level : nat) (j : json) : pystr :=
  let opening :=
    match indent with
    | Some n => newline_indent n (S level)
    | None => []
    end in
  let closing :=
    match indent with
    | Some n => newline_indent n level
    | None => []
    end in
  let item_sep :=
    match indent with
    | Some n => 44 :: newline_indent n (S level)
    | None => u ", "
    end in
  match j with
  | JNull => u "null"
  | JBool true => u "true"
  | JBool false => u "false"
  | JInt z => Z_to_pystr z
  | JFloat l => float_repr l
  | JStr s => dumps_str ensure_ascii s
  | JList [] => u "[]"
  | JList l =>
    [91] ++ opening
    ++ join item_sep
         (List.map (dumps_at ensure_ascii sort_keys indent (S level)) l)
    ++ closing ++ [93]
  | JDict [] => u "{}"
  | JDict d =>
    let members :=
      List.map
        (fun kv => (fst kv,
                    dumps_at ensure_ascii sort_keys indent (S level) (snd kv)))
        d in
    let members := if sort_keys then sort_items members else members in
    [123] ++ opening
    ++ join item_sep
         (List.map
            (fun kr => dumps_str ensure_ascii (fst kr) ++ u ": " ++ snd kr)
            members)
    ++ closing ++ [125]
  end.

(** [json.dumps(j, sort_keys=True)]. *)
Definition dumps_sorted (j : json) : pystr := dumps_at true true None 0 j.

(** [json.dumps(j, ensure_ascii=False, indent=2)]. *)
Definition dumps_indent2 (j : json) : pystr := dumps_at false false (Some 2%nat) 0 j.

End Printing.

(** ** The fragment of [re] the code uses

    Backtracking matching in priority order, as [re] does it: a greedy star
    tries one more iteration first, a lazy star tries the rest of the
    pattern first.  Every starred expression of the patterns below consumes
    a character, which bounds the iterations by the length of the text. *)
Module Re.

Inductive re :=
| Eps
| Chr (c : N)
| Cls (p : N -> bool)
| Seq (a b : re)
| Opt (a : re)
| Star (a : re)
| Lazy (a : re).

Definition Plus (a : re) : re := Seq a (Star a).

Fixpoint Lit (s : pystr) : re :=
  match s with
  | [] => Eps
  | c :: r => Seq (Chr c) (Lit r)
  end.

Definition first_some {A} (a : option A) (b : option A) : option A :=
  match a with Some _ => a | None => b end.

(** [go r s k]: match [r] at the head of [s], then continue with [k] on
    the rest; the first success in priority order. *)
Fixpoint go (r : re) : pystr -> (pystr -> option pystr) -> option pystr :=
  match r with
  | Eps => fun s k => k s
  | Chr c => fun s k =>
    match s with
    | x :: t => if x =? c then k t else None
    | [] => None
    end
  | Cls p => fun s k =>
    match s with
    | x :: t => if p x then k t else None
    | [] => None
    end
  | Seq a b => fun s k => go a s (fun s' => go b s' k)
  | Opt a => fun s k => first_some (go a s k) (k s)
  | Star a => fun s k =>
    (fix loop (n : nat) (s : pystr) : option pystr :=
       match n with
       | O => k s
       | S n' =>
         first_some
           (go a s (fun s' =>
              if (length s' <? length s)%nat then loop n' s' else None))
           (k s)
       end) (length s) s
  | Lazy a => fun s k =>
    (fix loop (n : nat) (s : pystr) : option pystr :=
       match n with
       | O => k s
       | S n' =>
         first_some
           (k s)
           (go a s (fun s' =>
              if (length s' <? length s)%nat then loop n' s' else None))
       end) (length s) s
  end.

(** [pattern.match(s)]: the matched prefix and the rest. *)
Definition match_at (r : re) (s : pystr) : option (pystr * pystr) :=
  match go r s Some with
  | Some rest => Some (take (length s - length rest) s, rest)
  | None => None
  end.

(** [re.search(r, s).group(0)]: the leftmost match. *)
Fixpoint search (r : re) (s : pystr) : option pystr :=
  match match_at r s with
  | Some (m, _) => Some m
  | None =>
    match s with
    | [] => None
    | _ :: t => search r t
    end
  end.

(** [re.sub(r, '', s)] for a pattern that matches no empty string. *)
Fixpoint sub_fuel (n : nat) (r : re) (s : pystr) : pystr :=
  match n with
  | O => s
  | S n' =>
    match s with
    | [] => []
    | c :: t =>
      match match_at r s with
      | Some (_ :: _, rest) => sub_fuel n' r rest
      | _ => c :: sub_fuel n' r t
      end
    end
  end.

Definition sub (r : re) (s : pystr) : pystr := sub_fuel (length s) r s.

Definition any_char : re := Cls (fun _ => true).
Definition space : re := Cls py_isspace.
Definition none_of (l : list N) : re :=
  Cls (fun c => negb (existsb (N.eqb c) l)).

End Re.

(** ** [parlaplate/utils.py] *)

Section Utils.
Context {rt : PyRuntime}.

(** The pattern [\d+(?:\.\d+)?]. *)
Definition number_re : Re.re :=
  let digit := Re.Cls (fun c => bool_decide (is_Some (py_decimal c))) in
  Re.Seq (Re.Plus digit)
         (Re.Opt (Re.Seq (Re.Chr 46) (Re.Plus digit))).

Definition decimal_value (ds : pystr) : N :=
  fold_left (fun acc c => acc * 10 + default 0 (py_decimal c)) ds 0.

Fixpoint before_dot (s : pystr) : pystr :=
  match s with
  | c :: r => if c =? 46 then [] else c :: before_dot r
  | [] => []
  end.

(** The exact value of a literal [digits] or [digits.digits]. *)
Definition literal_value (s : pystr) : Q :=
  let ip := before_dot s in
  let fp := drop (S (length ip)) s in
  let int_value := Z.of_N (decimal_value ip) # 1 in
  match fp with
  | [] => int_value
  | _ => int_value
         + (Z.of_N (decimal_value fp) # Pos.pow 10 (Pos.of_nat (length fp)))
  end.

(** [price_bucket].  [float] rounds the literal to the nearest binary64
    number, ties to even: the result is below 20 exactly when the literal
    is below [20 - 2^-49], and below 50 exactly when the literal is below
    [50 - 2^-48]. *)
Definition price_bucket (price_str : option pystr) : option pystr :=
  match price_str with
  | None => None
  | Some [] => None
  | Some s =>
    match Re.search number_re s with
    | None => None
    | Some number =>
      let price_value := literal_value number in
      if Qlt_le_dec price_value (20 - (1 # Pos.pow 2 49))
      then Some (u "low")
      else if Qlt_le_dec price_value (50 - (1 # Pos.pow 2 48))
      then Some (u "medium")
      else Some (u "high")
    end
  end.

End Utils.

(** One bracket-matching loop of [extract_json_from_response], for the
    opening character [op] and the closing character [cl]; [i] is the index
    of the head of [rest] in [text], [start] is [array_start] or
    [obj_start] and [count] is [bracket_count] or [brace_count]. *)
Fixpoint scan_balanced (op cl : N) (text rest : pystr) (i : nat)
    (start count : Z) : option pystr :=
  match rest with
  | [] => None
  | char :: rest' =>
    if char =? op then
      scan_balanced op cl text rest' (S i)
        (if (start =? -1)%Z then Z.of_nat i else start) (count + 1)%Z
    else if char =? cl then
      let count := (count - 1)%Z in
      if (count =? 0)%Z && negb (start =? -1)%Z then
        let json_str := slice text (Z.to_nat start) (S i) in
        if json_valid json_str then Some json_str
        else scan_balanced op cl text rest' (S i) (-1)%Z 0%Z
      else scan_balanced op cl text rest' (S i) start count
    else scan_balanced op cl text rest' (S i) start count
  end.

(** The three fallback patterns, with [re.DOTALL]. *)
Definition json_patterns : list Re.re :=
  [ (* \[\s*\{.*?\}\s*\] *)
    Re.Seq (Re.Chr 91) (Re.Seq (Re.Star Re.space) (Re.Seq (Re.Chr 123)
      (Re.Seq (Re.Lazy Re.any_char) (Re.Seq (Re.Chr 125)
        (Re.Seq (Re.Star Re.space) (Re.Chr 93))))));
    (* \[.*?\] *)
    Re.Seq (Re.Chr 91) (Re.Seq (Re.Lazy Re.any_char) (Re.Chr 93));
    (* \{.*?\} *)
    Re.Seq (Re.Chr 123) (Re.Seq (Re.Lazy Re.any_char) (Re.Chr 125)) ].

Fixpoint try_patterns (ps : list Re.re) (text : pystr) : option pystr :=
  match ps with
  | [] => None
  | pattern :: ps' =>
    match Re.search pattern text with
    | Some json_str =>
      if json_valid json_str then Some json_str else try_patterns ps' text
    | None => try_patterns ps' text
    end
  end.

(** [extract_json_from_response]. *)
Definition extract_json_from_response (response_text : pystr) : option pystr :=
  let response_text := strip response_text in
  match scan_balanced 91 93 response_text response_text 0 (-1)%Z 0%Z with
  | Some json_str => Some json_str
  | None =>
    match scan_balanced 123 125 response_text response_text 0 (-1)%Z 0%Z with
    | Some json_str => Some json_str
    | None => try_patterns json_patterns response_text
    end
  end.

(** ** [hashlib.sha256] (FIPS 180-4) on a list of bytes *)
Module Sha256.

Definition mask32 : N := 4294967295.
Definition add32 (a b : N) : N := N.land (a + b) mask32.
Definition rotr (n x : N) : N :=
  N.land (N.lor (N.shiftr x n) (N.shiftl x (32 - n))) mask32.
Definition not32 (x : N) : N := N.lxor x mask32.

Definition Ch (x y z : N) : N := N.lxor (N.land x y) (N.land (not32 x) z).
Definition Maj (x y z : N) : N :=
  N.lxor (N.lxor (N.land x y) (N.land x z)) (N.land y z).
Definition Sigma0 (x : N) : N := N.lxor (N.lxor (rotr 2 x) (rotr 13 x)) (rotr 22 x).
Definition Sigma1 (x : N) : N := N.lxor (N.lxor (rotr 6 x) (rotr 11 x)) (rotr 25 x).
Definition sigma0 (x : N) : N := N.lxor (N.lxor (rotr 7 x) (rotr 18 x)) (N.shiftr x 3).
Definition sigma1 (x : N) : N := N.lxor (N.lxor (rotr 17 x) (rotr 19 x)) (N.shiftr x 10).

Definition is_prime (n : nat) : bool :=
  forallb (fun d => negb (n mod d =? 0)%nat) (seq 2 (n - 2)).

(** The first 64 primes: those up to 311. *)
Definition primes : list N :=
  List.map N.of_nat (List.filter is_prime (seq 2 310)).

(** The integer cube root of a number below [2^120], bit by bit. *)
Definition cube_root (n : N) : N :=
  fold_left
    (fun r b => let r' := r + 2 ^ N.of_nat b in if r' ^ 3 <=? n then r' else r)
    (rev (seq 0 40)) 0.

(** The round constants: the first 32 bits of the fractional parts of the
    cube roots of the first 64 primes. *)
Definition K : list N :=
  Eval vm_compute in
    List.map (fun p => cube_root (p * 2 ^ 96) mod 2 ^ 32) primes.

(** The initial hash value: the first 32 bits of the fractional parts of
    the square roots of the first 8 primes. *)
Definition H0 : list N :=
  Eval vm_compute in
    List.map (fun p => N.sqrt (p * 2 ^ 64) mod 2 ^ 32) (take 8 primes).

(** [n] as [k] big-endian bytes. *)
Fixpoint be_bytes (k : nat) (n : N) (acc : list N) : list N :=
  match k with
  | O => acc
  | S k' => be_bytes k' (n / 256) (n mod 256 :: acc)
  end.

Definition pad (msg : list N) : list N :=
  let l := length msg in
  let zeros := ((64 - (l + 9) mod 64) mod 64)%nat in
  msg ++ [128] ++ repeat 0 zeros ++ be_bytes 8 (N.of_nat l * 8) [].

Fixpoint words (k : nat) (bs : list N) : list N :=
  match k with
  | O => []
  | S k' =>
    match bs with
    | a :: b :: c :: d :: r =>
      (((a * 256 + b) * 256 + c) * 256 + d) :: words k' r
    | _ => []
    end
  end.

(** The message schedule, most recent word first. *)
Fixpoint schedule (k : nat) (w : list N) : list N :=
  match k with
  | O => w
  | S k' =>
    let x := add32 (add32 (sigma1 (nth 1 w 0)) (nth 6 w 0))
                   (add32 (sigma0 (nth 14 w 0)) (nth 15 w 0)) in
    schedule k' (x :: w)
  end.

Definition round (st : list N) (kw : N * N) : list N :=
  match st with
  | [a; b; c; d; e; f; g; h] =>
    let t1 := add32 (add32 (add32 h (Sigma1 e)) (add32 (Ch e f g) (fst kw)))
                    (snd kw) in
    let t2 := add32 (Sigma0 a) (Maj a b c) in
    [add32 t1 t2; a; b; c; add32 d t1; e; f; g]
  | _ => st
  end.

Definition compress (h : list N) (block : list N) : list N :=
  let w := rev (schedule 48 (rev (words 16 block))) in
  let st := fold_left round (combine K w) h in
  List.map (fun p => add32 (fst p) (snd p)) (combine h st).

Fixpoint blocks (k : nat) (h : list N) (bs : list N) : list N :=
  match k with
  | O => h
  | S k' =>
    match bs with
    | [] => h
    | _ => blocks k' (compress h (take 64 bs)) (drop 64 bs)
    end
  end.

Definition digest (msg : list N) : list N :=
  let p := pad msg in
  flat_map (fun w => be_bytes 4 w []) (blocks (length p) H0 p).

(** [hashlib.sha256(msg).hexdigest()]. *)
Definition hexdigest (msg : list N) : pystr :=
  flat_map (fun b => hex_fixed 2 b []) (digest msg).

End Sha256.

(** [s.encode()]: UTF-8. *)
Definition utf8_encode (s : pystr) : list N :=
  flat_map
    (fun c =>
       if c <? 128 then [c]
       else if c <? 2048 then [192 + c / 64; 128 + c mod 64]
       else if c <? 65536
       then [224 + c / 4096; 128 + (c / 64) mod 64; 128 + c mod 64]
       else [240 + c / 262144; 128 + (c / 4096) mod 64;
             128 + (c / 64) mod 64; 128 + c mod 64])
    s.

(** ** [parlaplate/schemas.py] *)

Module MenuItem.
Record t := mk {
  name : pystr;
  price : option pystr;
  ingredients : list pystr;
  keywords : list pystr;
  allergens : list pystr;
  category : option pystr;
  spice_level : option pystr
}.
End MenuItem.

Module RestaurantProfile.
Record t := mk {
  name : option pystr;
  display_name : option pystr;
  cuisine_tags : list pystr;
  price_level : option pystr;
  service_style : list pystr;
  diet_coverage : list pystr;
  popular_categories : list pystr;
  summary_text : pystr
}.
End RestaurantProfile.

Module MenuJSON.
Record t := mk {
  restaurant : RestaurantProfile.t;
  items : list MenuItem.t
}.
End MenuJSON.

Module OrderItem.
Record t := mk {
  name : pystr;
  notes : option pystr
}.
End OrderItem.

(** A confidence is a rational; a timestamp is the reading of the clock. *)
Module Order.
Record t := mk {
  order : list OrderItem.t;
  persona : pystr;
  restaurant : pystr;
  confidence : Q;
  menu_json : pystr;
  timestamp : Z
}.
End Order.

Module ChatTurn.
Record t := mk {
  role : pystr;
  content : pystr
}.
End ChatTurn.

(** The constraints dictionary: a key that is absent, or bound to [None],
    is [None] here. *)
Module Constraints.
Record t := mk {
  diet : option (list pystr);
  avoid_allergens : option (list pystr);
  price_preference : option pystr
}.
End Constraints.

(** The truth value of an optional string or list. *)
Definition truthy {A} (o : option (list A)) : bool :=
  match o with
  | Some (_ :: _) => true
  | _ => false
  end.

(** [o or default] for an optional string. *)
Definition or_default (o : option pystr) (default : pystr) : pystr :=
  match o with
  | Some (c :: r) => c :: r
  | _ => default
  end.

Definition opt_json (o : option pystr) : json :=
  match o with Some s => JStr s | None => JNull end.

(** [item.model_dump()]. *)
Definition model_dump (item : MenuItem.t) : json :=
  JDict [ (u "name", JStr (MenuItem.name item));
          (u "price", opt_json (MenuItem.price item));
          (u "ingredients", JList (List.map JStr (MenuItem.ingredients item)));
          (u "keywords", JList (List.map JStr (MenuItem.keywords item)));
          (u "allergens", JList (List.map JStr (MenuItem.allergens item)));
          (u "category", opt_json (MenuItem.category item));
          (u "spice_level", opt_json (MenuItem.spice_level item)) ].

(** ** The environment of [parlaplate/match.py] *)

(** The outcome of a call that may raise. *)
Inductive result (A : Type) :=
| Ok (a : A)
| Raise.
Arguments Ok {A}.
Arguments Raise {A}.

#[global] Instance result_ret : MRet result := fun A a => Ok a.

#[global] Instance result_bind : MBind result := fun A B f r =>
  match r with
  | Ok a => f a
  | Raise => Raise
  end.

Abbreviation matrix := (list (list Q)).

(** A file of the cache directory: an array [np.load] returns, or bytes on
    which [np.load] raises. *)
Inductive cache_file :=
| Npy (m : matrix)
| Unreadable.

Abbreviation storage := (gmap pystr cache_file).

(** The numeric services around the ranker.  [cosine_similarity a b]
    stands for the function of that name: it divides by Euclidean norms,
    which are not rational, and yields one score per row of [b]. *)
Record Services := {
  (** [client.embeddings.create]: one row per text, or an exception *)
  embed : list pystr -> result matrix;
  cosine_similarity : list Q -> matrix -> result (list Q);
  (** [np.random.rand(n)] *)
  random_scores : nat -> list Q;
  (** whether [os.makedirs] and [np.save] succeed for a path *)
  can_write : pystr -> bool
}.

(** ** [parlaplate/match.py] *)

(** [os.path.join(a, b)] on POSIX. *)
Definition path_join (a b : pystr) : pystr :=
  if startswith b [47] then b
  else if bool_decide (a = []) || endswith a [47] then a ++ b
  else a ++ [47] ++ b.

(** [l[:k]]. *)
Definition slice_to {A} (l : list A) (k : Z) : list A :=
  if (0 <=? k)%Z then take (Z.to_nat k) l
  else take (length l - Z.to_nat (- k)) l.

(** [scores[i]]. *)
Definition score_at (scores : list Q) (i : nat) : Q := nth i scores 0%Q.

(** Insertion of an index in front of the first index whose score is not
    smaller. *)
Fixpoint insert_index (scores : list Q) (i : nat) (l : list nat) : list nat :=
  match l with
  | [] => [i]
  | j :: r =>
    if Qle_bool (score_at scores i) (score_at scores j)
    then i :: l
    else j :: insert_index scores i r
  end.

(** [np.argsort(scores)]: the indices by ascending score.  NumPy fixes no
    order among equal scores (its default sort is not stable); the model
    sorts by insertion and keeps equal scores in index order, which is what
    NumPy returns on the arrays of two and three scores of the examples.
    The theorems on the ranker use only that the result is a permutation of
    the indices in ascending order of score. *)
Definition argsort (scores : list Q) : list nat :=
  fold_right (insert_index scores) [] (seq 0 (length scores)).

(** One element of [np.where(mask, similarities, -1.0)]. *)
Definition where_pick (b : bool) (s : Q) : Q := if b then s else (-1)%Q.

(** [np.where(mask, similarities, -1.0)], with NumPy's broadcasting of a
    side of length one. *)
Definition np_where (mask : list bool) (similarities : list Q)
    : result (list Q) :=
  if (length mask =? length similarities)%nat
  then Ok (List.map (fun bs => where_pick (fst bs) (snd bs))
                    (combine mask similarities))
  else
    match similarities, mask with
    | [s], _ => Ok (List.map (fun b => where_pick b s) mask)
    | _, [b] => Ok (List.map (fun s => where_pick b s) similarities)
    | _, _ => Raise
    end.

(** [[l[i] for i in indices]]: an index out of range raises. *)
Fixpoint select {A} (l : list A) (indices : list nat) : result (list A) :=
  match indices with
  | [] => Ok []
  | i :: r =>
    match l !! i with
    | Some x => rest ← select l r; Ok (x :: rest)
    | None => Raise
    end
  end.

Section Match.
Context {rt : PyRuntime} (sv : Services).

(** [build_item_text]. *)
Definition build_item_text (item : MenuItem.t) : pystr :=
  let parts :=
    [MenuItem.name item]
    ++ MenuItem.ingredients item
    ++ MenuItem.keywords item
    ++ match MenuItem.category item with
       | Some (c :: r) => [c :: r]
       | _ => []
       end in
  lower (join [32] parts).

(** [get_embedding_cache_path]. *)
Definition get_embedding_cache_path (menu_json : MenuJSON.t)
    (base_dir : pystr) : pystr :=
  let content_str :=
    dumps_sorted (JList (List.map model_dump (MenuJSON.items menu_json))) in
  let content_hash := take 16 (Sha256.hexdigest (utf8_encode content_str)) in
  let restaurant_name :=
    or_default (RestaurantProfile.name (MenuJSON.restaurant menu_json))
               (u "unknown") in
  let safe_name :=
    lower (List.filter (fun c => py_isalnum c || contains (u "-_") [c])
                       restaurant_name) in
  path_join base_dir (safe_name ++ u "_" ++ content_hash ++ u ".emb.npy").

Definition default_base_dir : pystr := u "opt/menu_content".

(** [load_or_compute_embeddings] on the cache directory [fs]: the array and
    the directory afterwards. *)
Definition load_or_compute_embeddings (fs : storage) (menu_json : MenuJSON.t)
    (force_recompute : bool) : result matrix * storage :=
  let cache_path := get_embedding_cache_path menu_json default_base_dir in
  let compute :=
    let texts := List.map build_item_text (MenuJSON.items menu_json) in
    match embed sv texts with
    | Raise => (Raise, fs)
    | Ok embeddings =>
      (Ok embeddings,
       if can_write sv cache_path
       then <[cache_path := Npy embeddings]> fs
       else fs)
    end in
  if force_recompute then compute
  else
    match fs !! cache_path with
    | Some (Npy m) => (Ok m, fs)
    | Some Unreadable => compute
    | None => compute
    end.

Definition meat_terms : list pystr :=
  [u "chicken"; u "beef"; u "lamb"; u "fish"; u "seafood"; u "turkey";
   u "pork"].

Definition non_vegan : list pystr :=
  [u "chicken"; u "beef"; u "lamb"; u "fish"; u "seafood"; u "cheese";
   u "milk"; u "cream"; u "butter"].

(** The loop over the requested diets for one item: the value left in the
    mask. *)
Fixpoint diet_mask (item_text : pystr) (diet_requirements : list pystr)
    : bool :=
  match diet_requirements with
  | [] => true
  | diet :: rest =>
    let diet := lower diet in
    if pystr_eqb diet (u "vegetarian") then
      if any (fun term => contains item_text term) meat_terms then false
      else diet_mask item_text rest
    else if pystr_eqb diet (u "vegan") then
      if any (fun term => contains item_text term) non_vegan then false
      else diet_mask item_text rest
    else diet_mask item_text rest
  end.

(** The body of the loop of [apply_constraints_filter] for one item. *)
Definition item_mask (constraints : Constraints.t) (item : MenuItem.t) : bool :=
  let avoid_allergens := default [] (Constraints.avoid_allergens constraints) in
  let diet_requirements := default [] (Constraints.diet constraints) in
  let item_allergens := List.map lower (MenuItem.allergens item) in
  if match avoid_allergens with [] => false | _ => true end
     && any (fun allergen => bool_decide (lower allergen ∈ item_allergens))
            avoid_allergens
  then false
  else
    match diet_requirements with
    | [] => true
    | _ =>
      let item_keywords := List.map lower (MenuItem.keywords item) in
      let item_ingredients := List.map lower (MenuItem.ingredients item) in
      let item_text :=
        join [32] (item_keywords ++ item_ingredients
                   ++ [lower (MenuItem.name item)]) in
      diet_mask item_text diet_requirements
    end.

(** [apply_constraints_filter]. *)
Definition apply_constraints_filter (items : list MenuItem.t)
    (constraints : Constraints.t) : list bool :=
  List.map (item_mask constraints) items.

(** The loop [similarities[i] *= 0.7] over the items from index [i] on. *)
Fixpoint damp_expensive (items : list MenuItem.t) (i : nat)
    (similarities : list Q) : result (list Q) :=
  match items with
  | [] => Ok similarities
  | item :: rest =>
    if truthy (MenuItem.price item)
       && bool_decide (price_bucket (MenuItem.price item) = Some (u "high"))
    then
      match similarities !! i with
      | Some s => damp_expensive rest (S i) (<[i := (s * 0.7)%Q]> similarities)
      | None => Raise
      end
    else damp_expensive rest (S i) similarities
  end.

(** The first part of [rank_candidates], for a menu with items: the
    adjusted score of every item ([final_scores]) and the cache directory
    afterwards. *)
Definition final_scores (fs : storage) (menu_json : MenuJSON.t)
    (query_keywords : list pystr) (constraints : Constraints.t)
    : result (list Q) * storage :=
  let items := MenuJSON.items menu_json in
  let '(loaded, fs') := load_or_compute_embeddings fs menu_json false in
  (item_embeddings ← loaded;
   let price_pref := Constraints.price_preference constraints in
   let query_parts :=
     query_keywords
     ++ (if truthy (Constraints.diet constraints)
         then default [] (Constraints.diet constraints) else [])
     ++ (if truthy price_pref
         then [u "price-" ++ default [] price_pref] else []) in
   let query_text := join [32] query_parts in
   similarities ←
     match strip query_text with
     | [] => Ok (random_scores sv (length items))
     | _ =>
       rows ← embed sv [query_text];
       match rows with
       | query_embedding :: _ =>
         cosine_similarity sv query_embedding item_embeddings
       | [] => Raise
       end
     end;
   let constraint_mask := apply_constraints_filter items constraints in
   similarities ←
     (if bool_decide (price_pref = Some (u "low"))
      then damp_expensive items 0 similarities
      else Ok similarities);
   np_where constraint_mask similarities,
   fs').

(** The second part: the top [top_k] indices by descending score, without
    those whose score is negative. *)
Definition valid_indices (final_scores : list Q) (top_k : Z) : list nat :=
  let top_indices := slice_to (rev (argsort final_scores)) top_k in
  List.filter (fun i => Qle_bool 0 (score_at final_scores i)) top_indices.

(** [rank_candidates] on the cache directory [fs]. *)
Definition rank_candidates (fs : storage) (menu_json : MenuJSON.t)
    (query_keywords : list pystr) (constraints : Constraints.t) (top_k : Z)
    : result (list MenuItem.t) * storage :=
  let items := MenuJSON.items menu_json in
  match items with
  | [] => (Ok [], fs)
  | _ =>
    let '(scored, fs') := final_scores fs menu_json query_keywords constraints in
    (scores ← scored; select items (valid_indices scores top_k), fs')
  end.

End Match.

(** ** [parlaplate/prompts.py] and [parlaplate/personas.py] *)

Definition KEYWORD_EXTRACTION_SYSTEM : pystr :=
  uq "Extract 3-7 normalized food-preference keywords from the user's message. 

CRITICAL: Output ONLY a JSON array, no additional text before or after.

Format: [`keyword1`,`keyword2`,`keyword3`]

Examples: [`seafood`,`gluten-free`,`spicy-low`,`light`,`red-meat`,`pasta`,`fried`,`vegetarian`,`sweet`,`crispy`,`grilled`,`soup`,`salad`,`pizza`]

Focus on: food types, cooking methods, dietary preferences, taste preferences, meal types.

Output only the JSON array, nothing else.".

(** [UNIFIED_AGENT_SYSTEM.format(...)]: the template with its six fields
    filled in. *)
Definition UNIFIED_AGENT_SYSTEM
    (service_style cuisine_tags price_level summary_text persona_context
     candidates_json : pystr) : pystr :=
u "You are a single, fast waitress agent at a "
  ++ service_style
  ++ u " restaurant serving "
  ++ cuisine_tags
  ++ u " cuisine (price level: "
  ++ price_level
  ++ u "). 

Restaurant notes: "
  ++ summary_text
  ++ u "

Persona context: "
  ++ persona_context
  ++ uq "

CRITICAL GATING RULES:
- Do NOT access or reference the menu, nor suggest specific items, UNTIL the user expresses a clear food intent (craving, cuisine preference, dietary need) OR explicitly delegates choice (`up to you`, `recommend something`).
- If intent is unclear, ask ONLY ONE concise clarifying question (e.g., allergen/diet/preference) and stop.
- If user says `up to you` or similar delegation, you may propose a short, coherent menu from the selected restaurant.

When recommending (after gating unlocks):
- Use up to 3 items from provided candidates JSON below
- Give VERY SHORT reasons (max 8 words each)
- Include allergen notes for each item
- Warn gently if price/allergen details are uncertain
- End with a confirmation question

OUTPUT FORMAT:
You MUST start your response with EXACTLY this JSON format, then add your user reply after:

{`action`:`ASK`,`intent_clear`:false,`need_slots`:[],`notes`:`brief reason`}

EXAMPLES:
- If asking for clarification: {`action`:`ASK`,`intent_clear`:false,`need_slots`:[`diet`],`notes`:`need diet info`}
- If recommending: {`action`:`RECOMMEND`,`intent_clear`:true,`need_slots`:[],`notes`:`showing options`}
- If finalizing: {`action`:`FINALIZE`,`intent_clear`:true,`need_slots`:[],`notes`:`order complete`}

CRITICAL: Always start with the JSON object exactly as shown above, never return arrays or other formats.

Available menu candidates (if any): "
  ++ candidates_json
  ++ u "

Remember: Be conversational, friendly, and respect the gating rules. No menu suggestions until clear food intent is expressed.".

Module Persona.
Record t := mk {
  name : pystr;
  emoji : pystr;
  summary : pystr;
  system_prompt : pystr
}.
End Persona.

Definition PERSONAS : list (pystr * Persona.t) :=
  [
    (u "ayla",
     Persona.mk (u "Ayla") (u "🥗") (u "dengeli ve özenli öneriler")
       (u "Sen Ayla'sın - sağlıklı ve dengeli beslenme konusunda deneyimli bir garson. 
Müşterilere besin değeri yüksek, taze malzemeli ve dengeli seçenekler öner.
KURALLAR:
- Eğer kritik bir soru sorman gerekiyorsa (allerji/diyet), sadece BİR kısa soru sor ve dur.
- Öneri yaparken en fazla 3 seçenek sun, her biri için ÇOK KISA gerekçe ver.
- Her öneride allerjen bilgisini belirt.
- Fiyat/allerjen detayları belirsizse nazikçe uyar.
- Sonunda onay sorusuyla bitir."));
    (u "zeyna",
     Persona.mk (u "Zeyna") (u "🔮") (u "tarzına uygun sezgisel yönlendirme")
       (u "Sen Zeyna'sın - müşterilerin ruh haline ve enerjisine göre sezgisel öneriler yapan bir garson.
Kişinin o anki mod ve ihtiyacına uygun lezzetler sun.
KURALLAR:
- Eğer kritik bir soru sorman gerekiyorsa (allerji/diyet), sadece BİR kısa soru sor ve dur.
- Öneri yaparken en fazla 3 seçenek sun, her biri için ÇOK KISA sezgisel gerekçe ver.
- Her öneride allerjen bilgisini belirt.
- Fiyat/allerjen detayları belirsizse nazikçe uyar.
- Sonunda onay sorusuyla bitir."));
    (u "mert",
     Persona.mk (u "Mert") (u "💸") (u "pratik ve cüzdan-dostu öneriler")
       (u "Sen Mert'sin - pratik, hesaplı ve doyurucu seçenekler konusunda uzman bir garson.
Müşterilere en iyi fiyat-performans oranına sahip lezzetli seçenekler öner.
KURALLAR:
- Eğer kritik bir soru sorman gerekiyorsa (allerji/diyet), sadece BİR kısa soru sor ve dur.
- Öneri yaparken en fazla 3 seçenek sun, her biri için ÇOK KISA pratik gerekçe ver.
- Her öneride allerjen bilgisini belirt.
- Fiyat/allerjen detayları belirsizse nazikçe uyar.
- Sonunda onay sorusuyla bitir."));
    (u "alessandro",
     Persona.mk (u "Alessandro") (u "👨‍🍳") (u "deneyimli ve nokta atışı yönlendirme")
       (u "Sen Alessandro'sun - yıllarca mutfak deneyimi olan, lezzet konusunda usta bir garson.
Müşterilere en kaliteli ve lezzetli seçenekleri profesyonel bakış açısıyla öner.
KURALLAR:
- Eğer kritik bir soru sorman gerekiyorsa (allerji/diyet), sadece BİR kısa soru sor ve dur.
- Öneri yaparken en fazla 3 seçenek sun, her biri için ÇOK KISA uzman gerekçe ver.
- Her öneride allerjen bilgisini belirt.
- Fiyat/allerjen detayları belirsizse nazikçe uyar.
- Sonunda onay sorusuyla bitir."));
    (u "lara",
     Persona.mk (u "Lara") (u "🌸") (u "nazik ve rahatlatıcı yaklaşım")
       (u "Sen Lara'sın - samimi, sıcak ve rahatlatıcı bir garson.
Müşterileri rahatlat, güzel bir yemek deneyimi yaşamalarını sağla.
KURALLAR:
- Eğer kritik bir soru sorman gerekiyorsa (allerji/diyet), sadece BİR kısa soru sor ve dur.
- Öneri yaparken en fazla 3 seçenek sun, her biri için ÇOK KISA samimi gerekçe ver.
- Her öneride allerjen bilgisini belirt.
- Fiyat/allerjen detayları belirsizse nazikçe uyar.
- Sonunda onay sorusuyla bitir."))
  ].

(** [get_persona]: [None] stands for [KeyError]. *)
Definition get_persona (persona_id : pystr) : option Persona.t :=
  snd <$> List.find (fun kv => pystr_eqb (fst kv) persona_id) PERSONAS.

(** ** [parlaplate/agent.py] *)

(** The hosted chat service and the clock.  [chat_completion n system user]
    is the content of the first choice of the [n]-th request of a turn, or
    an exception (of the request, or of [.strip()] on a missing content). *)
Record Client := {
  chat_completion : nat -> pystr -> pystr -> result pystr;
  (** [datetime.now()] *)
  now : Z
}.

Module UnifiedWaitressAgent.
Record t := mk {
  restaurant : RestaurantProfile.t;
  menu : MenuJSON.t;
  persona : Persona.t;
  persona_id : pystr
}.
End UnifiedWaitressAgent.

(** [l[-n:]] for [n > 0]. *)
Definition last_n {A} (n : nat) (l : list A) : list A :=
  drop (length l - n) l.

Definition intent_keywords : list pystr :=
  [ u "acıktım"; u "aç"; u "yemek"; u "yiyecek"; u "lezzet"; u "tat";
    u "menü"; u "et"; u "tavuk"; u "balık"; u "sebze"; u "salata";
    u "çorba"; u "tatlı"; u "pizza"; u "burger"; u "pasta"; u "döner";
    u "kebab"; u "pilav"; u "kahvaltı"; u "öğle"; u "akşam";
    u "atıştırmalık"; u "vegetarian"; u "vegan"; u "gluten"; u "spicy";
    u "mild"; u "sweet"; u "salty"; u "crispy"; u "grilled"; u "fried";
    u "soup"; u "salad" ].

Definition delegation_phrases : list pystr :=
  [ u "sen seç"; u "sana kalmış"; u "öner"; u "tavsiye"; u "istediğin";
    u "up to you"; u "you choose"; u "recommend"; u "suggest" ].

Definition seqs (l : list Re.re) : Re.re := fold_right Re.Seq Re.Eps l.

(** The four patterns [parse_action_from_response] removes, in order; in
    the comments a backquote stands for the double quote. *)
Definition reply_patterns : list Re.re :=
  [ (* \{[^{}]*`action`[^{}]*\} *)
    seqs [Re.Chr 123; Re.Star (Re.none_of [123; 125]);
          Re.Lit (uq "`action`"); Re.Star (Re.none_of [123; 125]);
          Re.Chr 125];
    (* \{`action`[^}]* *)
    seqs [Re.Lit (uq "{`action`"); Re.Star (Re.none_of [125])];
    (* ,`[^`]+`\s*:\s*`[^`]*`[^}]* *)
    seqs [Re.Lit (uq ",`"); Re.Plus (Re.none_of [34]); Re.Chr 34;
          Re.Star Re.space; Re.Chr 58; Re.Star Re.space; Re.Chr 34;
          Re.Star (Re.none_of [34]); Re.Chr 34; Re.Star (Re.none_of [125])];
    (* ,`[^`]+`\s*:\s*[^,}]* *)
    seqs [Re.Lit (uq ",`"); Re.Plus (Re.none_of [34]); Re.Chr 34;
          Re.Star Re.space; Re.Chr 58; Re.Star Re.space;
          Re.Star (Re.none_of [44; 125])] ].

(** The first [while] loop of the reply clean-up; every round shortens the
    text, so [length reply_text + 1] rounds end it. *)
Fixpoint trim_prefixes (fuel : nat) (reply_text : pystr) : pystr :=
  match fuel with
  | O => reply_text
  | S f =>
    if startswith reply_text (u "```") then trim_prefixes f (strip (drop 3 reply_text))
    else if startswith reply_text [10] then trim_prefixes f (strip (drop 1 reply_text))
    else if startswith reply_text [44] then trim_prefixes f (strip (drop 1 reply_text))
    else if startswith reply_text [32] || startswith reply_text [9]
    then trim_prefixes f (lstrip reply_text)
    else reply_text
  end.

Definition drop_end {A} (n : nat) (l : list A) : list A :=
  take (length l - n) l.

(** The second [while] loop of the reply clean-up. *)
Fixpoint trim_suffixes (fuel : nat) (reply_text : pystr) : pystr :=
  match fuel with
  | O => reply_text
  | S f =>
    if endswith reply_text (u "```") then trim_suffixes f (strip (drop_end 3 reply_text))
    else if endswith reply_text [10] then trim_suffixes f (strip (drop_end 1 reply_text))
    else if endswith reply_text [125] then trim_suffixes f (strip (drop_end 1 reply_text))
    else if endswith reply_text [32] || endswith reply_text [9]
    then trim_suffixes f (rstrip reply_text)
    else reply_text
  end.

(** The reply text recovered from a raw response. *)
Definition clean_reply (response_text : pystr) : pystr :=
  let reply_text := fold_left (fun t p => Re.sub p t) reply_patterns response_text in
  let reply_text := strip reply_text in
  let reply_text := trim_prefixes (S (length reply_text)) reply_text in
  let reply_text := trim_suffixes (S (length reply_text)) reply_text in
  match strip reply_text with
  | [] => u "Nasıl yardımcı olabilirim?"
  | _ => reply_text
  end.

(** [j == s] for a decoded value [j] and a string [s]. *)
Definition eq_str (j : json) (s : pystr) : bool :=
  match j with
  | JStr t => pystr_eqb t s
  | _ => false
  end.

(** The three dictionaries with action ASK the parser builds. *)
Definition ask (notes : pystr) : json :=
  JDict [ (u "action", JStr (u "ASK"));
          (u "intent_clear", JBool false);
          (u "notes", JStr notes) ].

(** The action [respond] reads from a decision: a decision that is not a
    dict is replaced by an ASK, then the value at the key action, ASK when the key
    is missing. *)
Definition action_of (action_dict : json) : json :=
  let action_dict :=
    if is_dict action_dict then action_dict else ask (u "error_fallback") in
  match action_dict with
  | JDict d => dict_get d (u "action") (JStr (u "ASK"))
  | _ => JStr (u "ASK")
  end.

(** The value at the key notes. *)
Definition notes_of (action_dict : json) : option json :=
  match action_dict with
  | JDict d => dict_lookup d (u "notes")
  | _ => None
  end.

Section Agent.
Context {rt : PyRuntime} (sv : Services) (client : Client).
Context (self : UnifiedWaitressAgent.t).

(** [extract_user_keywords], sent as the [n]-th request of the turn. *)
Definition extract_user_keywords (n : nat) (message : pystr) : list pystr :=
  match chat_completion client n KEYWORD_EXTRACTION_SYSTEM message with
  | Raise => []
  | Ok content =>
    let response_text := strip content in
    match extract_json_from_response response_text with
    | None | Some [] => []
    | Some json_text =>
      match JsonDecoder.loads json_text with
      | Some (JList keywords) =>
        omap (fun kw => match kw with JStr s => Some s | _ => None end) keywords
      | _ => []
      end
    end
  end.

(** [lookup_candidates]: any exception of the ranker gives no candidate. *)
Definition lookup_candidates (fs : storage) (keywords : list pystr)
    (constraints : Constraints.t) : list MenuItem.t * storage :=
  match rank_candidates sv fs (UnifiedWaitressAgent.menu self)
          keywords constraints 8 with
  | (Ok candidates, fs') => (candidates, fs')
  | (Raise, fs') => ([], fs')
  end.

(** [check_food_intent]. *)
Definition check_food_intent (history : list ChatTurn.t)
    (user_message : pystr) : bool :=
  let all_text :=
    fold_left (fun all_text turn => all_text ++ [32] ++ lower (ChatTurn.content turn))
              (last_n 3 history) (lower user_message) in
  if any (fun phrase => contains all_text phrase) delegation_phrases then true
  else if any (fun keyword => contains all_text keyword) intent_keywords then true
  else false.

(** [build_system_prompt]; [candidates = None] is the call without
    argument. *)
Definition build_system_prompt (candidates : option (list MenuItem.t)) : pystr :=
  let restaurant := UnifiedWaitressAgent.restaurant self in
  let cuisine_str :=
    match RestaurantProfile.cuisine_tags restaurant with
    | [] => u "diverse"
    | tags => join (u ", ") tags
    end in
  let service_str :=
    match RestaurantProfile.service_style restaurant with
    | [] => u "casual"
    | styles => join (u ", ") styles
    end in
  let persona_context := Persona.system_prompt (UnifiedWaitressAgent.persona self) in
  let candidates_json :=
    match candidates with
    | Some (c :: cs) =>
      let candidate_data :=
        List.map
          (fun item =>
             JDict [ (u "name", JStr (MenuItem.name item));
                     (u "price", opt_json (MenuItem.price item));
                     (u "keywords", JList (List.map JStr (take 5 (MenuItem.keywords item))));
                     (u "allergens", JList (List.map JStr (MenuItem.allergens item)));
                     (u "ingredients", JList (List.map JStr (take 3 (MenuItem.ingredients item)))) ])
          (take 3 (c :: cs)) in
      dumps_indent2 (JList candidate_data)
    | _ => []
    end in
  UNIFIED_AGENT_SYSTEM service_str cuisine_str
    (or_default (RestaurantProfile.price_level restaurant) (u "varies"))
    (RestaurantProfile.summary_text restaurant)
    persona_context candidates_json.

(** The decision [parse_action_from_response] reads from the value
    [json.loads] returned for the extracted text. *)
Definition normalize (parsed_json : json) : json :=
  match parsed_json with
  | JList (x :: l) =>
    match List.find is_dict (x :: l) with
    | Some item => item
    | None =>
      let text := lower (py_repr parsed_json) in
      if any (fun keyword => contains text keyword)
             [u "allergy"; u "diet"; u "preference"]
      then ask (u "clarify_diet_allergy")
      else if any (fun keyword => contains text keyword)
                  [u "drink"; u "beverage"]
      then ask (u "clarify_drink")
      else if any (fun keyword => contains text keyword)
                  [u "side"; u "accompaniment"]
      then ask (u "clarify_side")
      else ask (u "general_clarification")
    end
  | JDict d => JDict d
  | _ => ask (u "fallback")
  end.

(** [parse_action_from_response]. *)
Definition parse_action_from_response (response_text : pystr) : json * pystr :=
  let action_dict :=
    match extract_json_from_response response_text with
    | None | Some [] => ask (u "fallback")
    | Some action_json =>
      match JsonDecoder.loads action_json with
      | Some parsed_json => normalize parsed_json
      | None => ask (u "fallback")
      end
    end in
  (action_dict, clean_reply response_text).

(** [finalize_order]. *)
Definition finalize_order (selected_items : list pystr) : Order.t :=
  let restaurant := UnifiedWaitressAgent.restaurant self in
  let order_items :=
    List.map (fun item_name => OrderItem.mk (strip item_name) None) selected_items in
  Order.mk order_items
    (UnifiedWaitressAgent.persona_id self)
    (match RestaurantProfile.display_name restaurant with
     | Some (c :: r) => c :: r
     | _ => or_default (RestaurantProfile.name restaurant) (u "Unknown")
     end)
    0.8%Q
    (match RestaurantProfile.name restaurant with
     | Some (c :: r) => u "opt/menu_content/" ++ (c :: r) ++ u ".json"
     | _ => u "unknown.json"
     end)
    (now client).

(** The conversation context [respond] builds: the last five turns and
    the message, one per line. *)
Definition conversation_context (history : list ChatTurn.t)
    (user_message : pystr) : pystr :=
  let context_parts :=
    List.map (fun turn => ChatTurn.role turn ++ u ": " ++ ChatTurn.content turn)
             (last_n 5 history)
    ++ [u "user: " ++ user_message] in
  join [10] context_parts.

(** What a turn returns, and what it does: the requests sent to the chat
    service, in order, and the cache directory afterwards. *)
Record Turn := {
  reply_text : pystr;
  action : json;
  candidates : list MenuItem.t;
  maybe_order : option Order.t;
  requests : list (pystr * pystr);
  cache : storage
}.

Definition turn_failed (sent : list (pystr * pystr)) (fs : storage) : Turn :=
  {| reply_text := u "Özür dilerim, bir sorun oluştu. Lütfen tekrar deneyin.";
     action := JStr (u "ASK");
     candidates := [];
     maybe_order := None;
     requests := sent;
     cache := fs |}.

(** [respond] on the cache directory [fs]. *)
Definition respond (fs : storage) (history : list ChatTurn.t)
    (user_message : pystr) : Turn :=
  let intent_clear := check_food_intent history user_message in
  let conversation_context := conversation_context history user_message in
  let system_prompt := build_system_prompt None in
  let first := (system_prompt, conversation_context) in
  match chat_completion client 0 system_prompt conversation_context with
  | Raise => turn_failed [first] fs
  | Ok content =>
    let response_text := strip content in
    let '(action_dict, reply_text) := parse_action_from_response response_text in
    let action := action_of action_dict in
    if any (eq_str action) [u "LOOKUP"; u "RECOMMEND"; u "REFINE"]
       && intent_clear
    then
      let keywords := extract_user_keywords 1 user_message in
      let second := (KEYWORD_EXTRACTION_SYSTEM, user_message) in
      let constraints := Constraints.mk (Some []) (Some []) None in
      let '(candidates, fs') := lookup_candidates fs keywords constraints in
      match candidates with
      | [] =>
        {| reply_text := reply_text; action := action; candidates := [];
           maybe_order := None; requests := [first; second]; cache := fs' |}
      | _ =>
        let system_prompt_with_candidates := build_system_prompt (Some candidates) in
        let grounded :=
          conversation_context
          ++ [10; 10]
          ++ u "Provide specific recommendations from the menu candidates." in
        let third := (system_prompt_with_candidates, grounded) in
        match chat_completion client 2 system_prompt_with_candidates grounded with
        | Raise => turn_failed [first; second; third] fs'
        | Ok content' =>
          let '(_, reply_text) := parse_action_from_response (strip content') in
          {| reply_text := reply_text; action := action;
             candidates := candidates; maybe_order := None;
             requests := [first; second; third]; cache := fs' |}
        end
      end
    else if eq_str action (u "FINALIZE") then
      let selected_items := [u "Example Item"] in
      {| reply_text :=
           u "✅ Harika! Siparişiniz hazırlanıyor. Aşağıdan sipariş detaylarınızı indirebilirsiniz.";
         action := action; candidates := [];
         maybe_order := Some (finalize_order selected_items);
         requests := [first]; cache := fs |}
    else
      {| reply_text := reply_text; action := action; candidates := [];
         maybe_order := None; requests := [first]; cache := fs |}
  end.

End Agent.

(** ** The properties, in the words of the specification *)

Section Properties.
Context {rt : PyRuntime}.

(** The allergens of the item meet the avoid-list, case-insensitively. *)
Definition allergen_conflict (constraints : Constraints.t)
    (item : MenuItem.t) : Prop :=
  exists a b : pystr,
    a ∈ default [] (Constraints.avoid_allergens constraints)
    /\ b ∈ MenuItem.allergens item
    /\ lower a = lower b.

(** The text the diet filter looks at. *)
Definition diet_text (item : MenuItem.t) : pystr :=
  join [32] (List.map lower (MenuItem.keywords item)
             ++ List.map lower (MenuItem.ingredients item)
             ++ [lower (MenuItem.name item)]).

(** The exclusion vocabulary the code holds for a diet tag. *)
Definition exclusion_vocabulary (tag : pystr) : list pystr :=
  if pystr_eqb tag (u "vegetarian") then meat_terms
  else if pystr_eqb tag (u "vegan") then non_vegan
  else [].

(** The text of the item holds a term of the code's vocabulary of a
    requested diet. *)
Definition diet_conflict (constraints : Constraints.t)
    (item : MenuItem.t) : Prop :=
  exists diet term : pystr,
    diet ∈ default [] (Constraints.diet constraints)
    /\ term ∈ exclusion_vocabulary (lower diet)
    /\ contains (diet_text item) term = true.

(** The exclusion vocabulary of a diet tag as the specification has it:
    vegetarian excludes items that mention chicken, beef, lamb, fish,
    seafood, turkey or pork; vegan excludes these and the dairy terms. *)
Definition vegetarian_vocabulary : list pystr :=
  [u "chicken"; u "beef"; u "lamb"; u "fish"; u "seafood"; u "turkey";
   u "pork"].

Definition dairy_terms : list pystr :=
  [u "cheese"; u "milk"; u "cream"; u "butter"].

Definition spec_exclusion_vocabulary (tag : pystr) : list pystr :=
  if pystr_eqb tag (u "vegetarian") then vegetarian_vocabulary
  else if pystr_eqb tag (u "vegan") then vegetarian_vocabulary ++ dairy_terms
  else [].

(** The text of the item holds a term that the specification excludes for
    a requested diet. *)
Definition spec_diet_conflict (constraints : Constraints.t)
    (item : MenuItem.t) : Prop :=
  exists diet term : pystr,
    diet ∈ default [] (Constraints.diet constraints)
    /\ term ∈ spec_exclusion_vocabulary (lower diet)
    /\ contains (diet_text item) term = true.

End Properties.

(** The order of two indices by their scores. *)
Definition ascending (scores : list Q) (i j : nat) : Prop :=
  (score_at scores i <= score_at scores j)%Q.

Definition descending (scores : list Q) (i j : nat) : Prop :=
  (score_at scores j <= score_at scores i)%Q.



(** ** Concrete inputs *)

Definition dot (a b : list Q) : Q :=
  fold_right Qplus 0%Q (List.map (fun p => (fst p * snd p)%Q) (combine a b)).

(** Services for the examples.  Every embedding has norm one, where the
    cosine similarity is the dot product: the text with anchovy lies
    opposite to the others, at cosine [-3/5]. *)
Definition demo_services : Services := {|
  embed := fun texts =>
    Ok (List.map
          (fun t => if contains t (u "anchovy")
                    then [(-3 # 5)%Q; (4 # 5)%Q] else [1%Q; 0%Q])
          texts);
  cosine_similarity := fun a b => Ok (List.map (fun row => Qred (dot a row)) b);
  random_scores := fun n => repeat (1 # 2)%Q n;
  can_write := fun _ => true
|}.

Definition demo_item (name : pystr) (allergens : list pystr)
    (price : option pystr) : MenuItem.t :=
  MenuItem.mk name price [] [] allergens None None.

Definition salad : MenuItem.t :=
  demo_item (u "Garden Salad") [] (Some (u "12 TL")).
Definition satay : MenuItem.t :=
  demo_item (u "Chicken Satay") [u "Peanut"] (Some (u "60 TL")).
Definition soup : MenuItem.t :=
  demo_item (u "Lentil Soup") [] (Some (u "10 TL")).
Definition toast : MenuItem.t :=
  demo_item (u "Anchovy Toast") [] None.
Definition turkey_club : MenuItem.t :=
  demo_item (u "Turkey Club") [] (Some (u "18 TL")).
Definition pork_chop : MenuItem.t :=
  demo_item (u "Pork Chop") [] (Some (u "25 TL")).
Definition cheese_plate : MenuItem.t :=
  demo_item (u "Cheese Plate") [] (Some (u "15 TL")).

Definition demo_restaurant : RestaurantProfile.t :=
  RestaurantProfile.mk (Some (u "Lokanta")) None [u "turkish"] (Some (u "low"))
    [] [] [] (u "A small place.").

Definition demo_menu (items : list MenuItem.t) : MenuJSON.t :=
  MenuJSON.mk demo_restaurant items.

Definition no_constraints : Constraints.t := Constraints.mk None None None.

Definition demo_agent : UnifiedWaitressAgent.t :=
  UnifiedWaitressAgent.mk demo_restaurant (demo_menu [salad; satay; soup])
    (default (Persona.mk [] [] [] []) (get_persona (u "mert"))) (u "mert").

(** A chat service that answers every request with the same text. *)
Definition constant_client (answer : pystr) : Client :=
  {| chat_completion := fun _ _ _ => Ok answer; now := 0%Z |}.

Definition finalize_answer : pystr :=
  uq "{`action`:`FINALIZE`,`intent_clear`:true,`notes`:`order complete`}
Done.".

Definition recommend_answer : pystr :=
  uq "{`action`:`RECOMMEND`,`intent_clear`:true,`notes`:`showing options`}
Try the soup.".

(** ** The rest of [parlaplate/utils.py] *)

(** [re.sub(r, repl, s)] for a pattern that matches no empty string and a
    replacement without group references. *)
Fixpoint sub_with_fuel (n : nat) (r : Re.re) (repl s : pystr) : pystr :=
  match n with
  | O => s
  | S n' =>
    match s with
    | [] => []
    | c :: t =>
      match Re.match_at r s with
      | Some (_ :: _, rest) => repl ++ sub_with_fuel n' r repl rest
      | _ => c :: sub_with_fuel n' r repl t
      end
    end
  end.

Definition sub_with (r : Re.re) (repl s : pystr) : pystr :=
  sub_with_fuel (length s) r repl s.

(** [s.lstrip(chars)] and [s.strip(chars)]. *)
Fixpoint lstrip_chars (chars s : pystr) : pystr :=
  match s with
  | c :: r => if bool_decide (c ∈ chars) then lstrip_chars chars r else s
  | [] => []
  end.

Definition strip_chars (chars s : pystr) : pystr :=
  rev (lstrip_chars chars (rev (lstrip_chars chars s))).

(** The class [a-zA-Z0-9\-_]. *)
Definition is_name_char (c : N) : bool :=
  ((97 <=? c) && (c <=? 122)) || ((65 <=? c) && (c <=? 90))
  || ((48 <=? c) && (c <=? 57)) || (c =? 45) || (c =? 95).

Section CleanFilename.
Context {rt : PyRuntime}.

(** [Path(filename).stem]: the rules of [pathlib] are not modelled, every
    property below holds whatever the stem is. *)
Variable path_stem : pystr -> pystr.

(** [clean_filename]. *)
Definition clean_filename (filename : pystr) : pystr :=
  let name := path_stem filename in
  let cleaned := sub_with (Re.Cls (fun c => negb (is_name_char c))) [95] name in
  let cleaned := sub_with (Re.Plus (Re.Chr 95)) [95] cleaned in
  let cleaned := strip_chars [95] cleaned in
  match cleaned with
  | [] => u "menu"
  | _ => lower cleaned
  end.

End CleanFilename.

Section MergeMenuItems.
Context {rt : PyRuntime}.

(** [item.get('name', '').lower().strip()]: an item that is not a dict, or
    a name that is not a string, raises [AttributeError]. *)
Definition normalized_name (item : json) : result pystr :=
  match item with
  | JDict d =>
    match dict_get d (u "name") (JStr []) with
    | JStr s => Ok (strip (lower s))
    | _ => Raise
    end
  | _ => Raise
  end.

(** The body of the inner loop of [merge_menu_items] on the pair of
    [seen_names] and [merged]. *)
Definition merge_item (state : gset pystr * list json) (item : json)
    : result (gset pystr * list json) :=
  name_normalized ← normalized_name item;
  if match name_normalized with [] => false | _ => true end
     && bool_decide (name_normalized ∉ state.1)
  then Ok ({[name_normalized]} ∪ state.1, state.2 ++ [item])
  else Ok state.

Fixpoint merge_page (state : gset pystr * list json) (page_items : list json)
    : result (gset pystr * list json) :=
  match page_items with
  | [] => Ok state
  | item :: rest => state' ← merge_item state item; merge_page state' rest
  end.

Fixpoint merge_pages (state : gset pystr * list json)
    (items_list : list (list json)) : result (gset pystr * list json) :=
  match items_list with
  | [] => Ok state
  | page_items :: rest =>
    state' ← merge_page state page_items; merge_pages state' rest
  end.

(** [merge_menu_items]. *)
Definition merge_menu_items (items_list : list (list json))
    : result (list json) :=
  state ← merge_pages (∅, []) items_list; Ok state.2.

End MergeMenuItems.

(** [sorted(l)] for a list of strings. *)
Fixpoint insert_sorted (x : pystr) (l : list pystr) : list pystr :=
  match l with
  | [] => [x]
  | y :: r => if pystr_ltb x y then x :: l else y :: insert_sorted x r
  end.

Definition sorted_strs (l : list pystr) : list pystr :=
  fold_right insert_sorted [] l.

(** [list_menu_jsons]; [listing] is what [os.listdir(dir_path)] returns,
    [None] when the path does not exist. *)
Definition list_menu_jsons (listing : option (list pystr)) (dir_path : pystr)
    : list pystr :=
  match listing with
  | None => []
  | Some filenames =>
    sorted_strs
      (List.map (path_join dir_path)
         (List.filter
            (fun filename =>
               endswith filename (u ".json")
               && negb (endswith filename (u ".emb.npy")))
            filenames))
  end.

(** ** Predicates the properties below are stated with *)

(** The text does not begin with white space. *)
Definition no_space_head (s : pystr) : Prop :=
  forall c, head s = Some c -> py_isspace c = false.

(** The state of the text where the first loop of the reply clean-up
    stops. *)
Definition prefixes_trimmed (s : pystr) : Prop :=
  startswith s (u "```") = false
  /\ startswith s [10] = false
  /\ startswith s [44] = false
  /\ startswith s [32] = false
  /\ startswith s [9] = false.

(** The state of the text where the second loop stops. *)
Definition suffixes_trimmed (s : pystr) : Prop :=
  endswith s (u "```") = false
  /\ endswith s [10] = false
  /\ endswith s [125] = false
  /\ endswith s [32] = false
  /\ endswith s [9] = false.

(** What the prompt shows of a candidate. *)
Definition shown_fields (item : MenuItem.t)
    : pystr * option pystr * list pystr * list pystr * list pystr :=
  (MenuItem.name item, MenuItem.price item, take 5 (MenuItem.keywords item),
   MenuItem.allergens item, take 3 (MenuItem.ingredients item)).

(** The characters of a cleaned file name: [a-z0-9\-_]. *)
Definition is_clean_char (c : N) : bool :=
  ((97 <=? c) && (c <=? 122)) || ((48 <=? c) && (c <=? 57))
  || (c =? 45) || (c =? 95).

(** * Properties of the extractor *)

Section Scan.
Variables op cl : N.
Hypothesis op_cl : op <> cl.




(** What the scan returns parses as JSON and starts at an opening
    character. *)
Lemma scan_balanced_sound (text : pystr) :
  forall (rest : pystr) (i : nat) (start count : Z) (r : pystr),
    drop i text = rest ->
    (start = (-1)%Z
     \/ ((0 <= start)%Z /\ (Z.to_nat start <= i)%nat
         /\ text !! Z.to_nat start = Some op)) ->
    scan_balanced op cl text rest i start count = Some r ->
    json_valid r = true /\ head r = Some op.
Proof.
  induction rest as [|c rest IH]; intros i start count r Hdrop Hstart Hscan;
    [discriminate|].
  assert (Hi : text !! i = Some c).
  { pose proof (lookup_drop text i 0) as E.
    rewrite Hdrop, Nat.add_0_r in E. symmetry. exact E. }
  assert (Hnext : drop (S i) text = rest).
  { replace (S i) with (i + 1)%nat by lia.
    rewrite <- drop_drop, Hdrop. reflexivity. }
  cbn [scan_balanced] in Hscan.
  destruct (c =? op) eqn:Hc_op.
  - apply N.eqb_eq in Hc_op. subst c.
    eapply IH; [exact Hnext | | exact Hscan].
    right. destruct (start =? -1)%Z eqn:Hs.
    + rewrite Nat2Z.id. repeat split; [lia | lia | exact Hi].
    + apply Z.eqb_neq in Hs. destruct Hstart as [?|(? & ? & ?)]; [lia|].
      repeat split; [lia | lia | assumption].
  - destruct (c =? cl) eqn:Hc_cl.
    + destruct ((count - 1 =? 0)%Z && negb (start =? -1)%Z) eqn:Hfound.
      * destruct (json_valid (slice text (Z.to_nat start) (S i))) eqn:Hvalid.
        -- injection Hscan as <-. split; [exact Hvalid|].
           apply andb_true_iff in Hfound as [_ Hs].
           apply negb_true_iff, Z.eqb_neq in Hs.
           destruct Hstart as [?|(? & Hle & Hop)]; [lia|].
           unfold slice.
           destruct (S i - Z.to_nat start)%nat as [|n] eqn:Hn; [lia|].
           apply list_elem_of_split_length in Hop as (l1 & l2 & -> & Hl).
           rewrite Hl, drop_app_length. reflexivity.
        -- eapply IH; [exact Hnext | left; reflexivity | exact Hscan].
      * eapply IH; [exact Hnext | | exact Hscan].
        destruct Hstart as [?|(? & ? & ?)]; [left; assumption|].
        right. repeat split; [lia | lia | assumption].
    + eapply IH; [exact Hnext | | exact Hscan].
      destruct Hstart as [?|(? & ? & ?)]; [left; assumption|].
      right. repeat split; [lia | lia | assumption].
Qed.

End Scan.

Lemma bracket_neq : (91 : N) <> 93.
Proof. discriminate. Qed.




(** C8 (as amended).  The three examples of the specification hold, and an
    array found by the bracket scan is returned whatever objects the text
    holds; what the scan returns parses as JSON and starts with an opening
    bracket. *)
Theorem extract_examples_and_array_priority :
  extract_json_from_response (uq "noise {`a`:1} trailing") = Some (uq "{`a`:1}")
  /\ extract_json_from_response (u "[1,2,]bad then [1,2]") = Some (u "[1,2]")
  /\ extract_json_from_response (u "no json here") = None
  /\ forall response_text r : pystr,
       scan_balanced 91 93 (strip response_text) (strip response_text)
         0 (-1)%Z 0%Z = Some r ->
       extract_json_from_response response_text = Some r
       /\ json_valid r = true
       /\ head r = Some 91.
Proof.
  split; [vm_compute; reflexivity|].
  split; [vm_compute; reflexivity|].
  split; [vm_compute; reflexivity|].
  intros response_text r Hscan.
  split.
  - unfold extract_json_from_response. rewrite Hscan. reflexivity.
  - apply (scan_balanced_sound 91 93 bracket_neq (strip response_text)
             (strip response_text) 0 (-1)%Z 0%Z r);
      [reflexivity | left; reflexivity | exact Hscan].
Qed.

(** An array inside an object is returned in place of the object. *)
Lemma extract_examples_and_array_priority_witness :
  extract_json_from_response (uq "{`a`: [1]}") = Some (u "[1]")
  /\ json_valid (uq "{`a`: [1]}") = true.
Proof.
  split; [|vm_compute; reflexivity].
  apply (proj2 (proj2 (proj2 extract_examples_and_array_priority))
           (uq "{`a`: [1]}") (u "[1]")).
  vm_compute; reflexivity.
Defined.

(** C8 (counterexample).  A valid array in the text does not always take
    priority: after an unmatched opening bracket the scan never closes a
    span, and the object is returned although a valid array follows it. *)
Lemma extract_object_despite_valid_array :
  contains (uq "[ {`a`:1} [1,2]") (u "[1,2]") = true
  /\ json_valid (u "[1,2]") = true
  /\ extract_json_from_response (uq "[ {`a`:1} [1,2]") = Some (uq "{`a`:1}").
Proof. vm_compute. repeat split; reflexivity. Qed.

(** * Properties of the decision normalizer *)

Lemma action_of_ask (notes : pystr) : action_of (ask notes) = JStr (u "ASK").
Proof. reflexivity. Qed.

Lemma notes_of_ask (notes : pystr) : notes_of (ask notes) = Some (JStr notes).
Proof. reflexivity. Qed.

(** C6 (as amended).  For a decoded payload that is neither a mapping nor
    an array with a mapping among its elements, the action of the decision
    is ASK, hence neither RECOMMEND nor FINALIZE; when the payload is a
    non-empty array whose printed text, in lower case, holds allergy, diet
    or preference, the note is the diet clarification. *)
Theorem normalize_without_mapping_asks {rt : PyRuntime} (parsed_json : json) :
  is_dict parsed_json = false ->
  (forall l, parsed_json = JList l -> List.find is_dict l = None) ->
  action_of (normalize parsed_json) = JStr (u "ASK")
  /\ (forall x l,
        parsed_json = JList (x :: l) ->
        any (fun keyword => contains (lower (py_repr parsed_json)) keyword)
            [u "allergy"; u "diet"; u "preference"] = true ->
        notes_of (normalize parsed_json)
        = Some (JStr (u "clarify_diet_allergy"))).
Proof.
  intros Hdict Hfind.
  destruct parsed_json as [| | | | |l|]; try discriminate;
    try (split; [reflexivity | discriminate]).
  specialize (Hfind l eq_refl).
  destruct l as [|x l].
  - split; [reflexivity | discriminate].
  - unfold normalize. rewrite Hfind.
    split.
    + repeat (match goal with
              | |- context [if ?b then _ else _] => destruct b
              end);
        apply action_of_ask.
    + intros x' l' _ ->. apply notes_of_ask.
Qed.

(** The example of the specification: the bare array of one string. *)
Lemma normalize_without_mapping_asks_witness :
  let parsed_json := JList [JStr (u "allergy_or_diet")] in
  JsonDecoder.loads (uq "[`allergy_or_diet`]") = Some parsed_json
  /\ action_of (normalize (rt := ascii_runtime) parsed_json) = JStr (u "ASK")
  /\ notes_of (normalize (rt := ascii_runtime) parsed_json)
     = Some (JStr (u "clarify_diet_allergy")).
Proof.
  intros parsed_json.
  assert (Hd : is_dict parsed_json = false) by reflexivity.
  assert (Hf : forall l, parsed_json = JList l -> List.find is_dict l = None).
  { intros l [= <-]. reflexivity. }
  pose proof (@normalize_without_mapping_asks ascii_runtime parsed_json Hd Hf)
    as [Hask Hnote].
  split; [vm_compute; reflexivity|].
  split; [exact Hask|].
  apply (Hnote (JStr (u "allergy_or_diet")) []); [reflexivity|].
  vm_compute; reflexivity.
Defined.

(** C6 (counterexample).  An array is not a mapping, yet when one of its
    elements is a mapping that element becomes the decision: the action is
    RECOMMEND, for the normalizer and for the parser of the raw response. *)
Lemma normalize_array_with_mapping_recommends :
  let payload := JList [JDict [(u "action", JStr (u "RECOMMEND"))]] in
  JsonDecoder.loads (uq "[{`action`:`RECOMMEND`}]") = Some payload
  /\ is_dict payload = false
  /\ action_of (normalize (rt := ascii_runtime) payload) = JStr (u "RECOMMEND")
  /\ action_of (normalize (rt := ascii_runtime) payload) <> JStr (u "ASK")
  /\ action_of (fst (parse_action_from_response (rt := ascii_runtime)
                       (uq "[{`action`:`RECOMMEND`}]")))
     = JStr (u "RECOMMEND").
Proof. vm_compute. repeat split; try reflexivity. discriminate. Qed.

(** * Properties of the ranker *)

(** Sorting by insertion. *)

Section Argsort.
Variable scores : list Q.

Lemma insert_index_perm (i : nat) (l : list nat) :
  Permutation (insert_index scores i l) (i :: l).
Proof.
  induction l as [|j r IH]; simpl; [reflexivity|].
  destruct (Qle_bool _ _); [reflexivity|].
  rewrite IH. apply perm_swap.
Qed.

Lemma insert_index_sorted (i : nat) (l : list nat) :
  StronglySorted (ascending scores) l -> StronglySorted (ascending scores) (insert_index scores i l).
Proof.
  induction 1 as [|j r Hr IH Hj]; simpl.
  - repeat constructor.
  - destruct (Qle_bool _ _) eqn:Hle.
    + apply Qle_bool_iff in Hle.
      constructor; [constructor; assumption|].
      constructor; [exact Hle|].
      eapply Forall_impl; [exact Hj|].
      intros k Hk. unfold ascending in *. eapply Qle_trans; eassumption.
    + constructor; [exact IH|].
      rewrite (insert_index_perm i r).
      constructor; [|exact Hj].
      unfold ascending.
      destruct (Qlt_le_dec (score_at scores j) (score_at scores i)) as [Hlt|Hge].
      * apply Qlt_le_weak, Hlt.
      * apply Qle_bool_iff in Hge. congruence.
Qed.

(** [argsort] permutes the indices and orders them by ascending score. *)
Lemma argsort_perm : Permutation (argsort scores) (seq 0 (length scores)).
Proof.
  unfold argsort. induction (seq 0 (length scores)) as [|i l IH]; simpl.
  - reflexivity.
  - rewrite insert_index_perm. constructor. exact IH.
Qed.

Lemma argsort_sorted : StronglySorted (ascending scores) (argsort scores).
Proof.
  unfold argsort. induction (seq 0 (length scores)) as [|i l IH]; simpl.
  - constructor.
  - apply insert_index_sorted, IH.
Qed.

Lemma argsort_NoDup : NoDup (argsort scores).
Proof.
  rewrite argsort_perm. apply NoDup_ListNoDup, List.seq_NoDup.
Qed.

Lemma argsort_bound (i : nat) : i ∈ argsort scores -> (i < length scores)%nat.
Proof.
  rewrite argsort_perm, list_elem_of_In, in_seq. lia.
Qed.

End Argsort.

Section Sorted.
Context {A : Type} (R : A -> A -> Prop).

Lemma StronglySorted_snoc (l : list A) (x : A) :
  StronglySorted R l -> Forall (fun y => R y x) l -> StronglySorted R (l ++ [x]).
Proof.
  induction 1 as [|y l Hl IH Hy]; intros Hx; simpl.
  - repeat constructor.
  - apply Forall_cons in Hx as [Hyx Hx].
    constructor; [apply IH, Hx|].
    apply Forall_app. split; [exact Hy | repeat constructor; exact Hyx].
Qed.

Lemma StronglySorted_take (n : nat) (l : list A) :
  StronglySorted R l -> StronglySorted R (take n l).
Proof.
  intros Hl. revert n.
  induction Hl as [|x l Hl IH Hx]; intros [|n]; simpl; try constructor.
  - apply IH.
  - eapply Forall_take in Hx. exact Hx.
Qed.

Lemma StronglySorted_filter_list (p : A -> bool) (l : list A) :
  StronglySorted R l -> StronglySorted R (List.filter p l).
Proof.
  induction 1 as [|x l Hl IH Hx]; simpl; [constructor|].
  destruct (p x); [|exact IH].
  constructor; [exact IH|].
  apply Forall_forall. intros y Hy.
  apply list_elem_of_In, filter_In in Hy as [Hy _].
  rewrite Forall_forall in Hx. apply Hx, list_elem_of_In, Hy.
Qed.

End Sorted.

Lemma StronglySorted_rev_flip {A} (R : A -> A -> Prop) (l : list A) :
  StronglySorted R l -> StronglySorted (fun x y => R y x) (rev l).
Proof.
  induction 1 as [|x l Hl IH Hx]; simpl; [constructor|].
  apply StronglySorted_snoc; [exact IH|].
  apply Forall_rev. exact Hx.
Qed.

(** The selection of [rank_candidates]. *)

Lemma slice_to_of_nat {A} (l : list A) (k : Z) :
  (0 <= k)%Z -> slice_to l k = take (Z.to_nat k) l.
Proof.
  intros Hk. unfold slice_to.
  destruct (0 <=? k)%Z eqn:E; [reflexivity|].
  apply Z.leb_gt in E. lia.
Qed.

Lemma slice_to_prefix {A} (l : list A) (k : Z) :
  exists n, slice_to l k = take n l.
Proof. unfold slice_to. destruct (0 <=? k)%Z; eauto. Qed.

(** The indices kept are in descending order of score, in range, not
    negative in score, pairwise distinct and at most [top_k]. *)
Lemma valid_indices_sorted (scores : list Q) (top_k : Z) :
  StronglySorted (descending scores) (valid_indices scores top_k).
Proof.
  unfold valid_indices.
  destruct (slice_to_prefix (rev (argsort scores)) top_k) as [n ->].
  apply StronglySorted_filter_list, StronglySorted_take.
  apply (StronglySorted_rev_flip (ascending scores)), argsort_sorted.
Qed.

Lemma valid_indices_elem (scores : list Q) (top_k : Z) (i : nat) :
  i ∈ valid_indices scores top_k ->
  (i < length scores)%nat /\ Qle_bool 0 (score_at scores i) = true.
Proof.
  unfold valid_indices.
  destruct (slice_to_prefix (rev (argsort scores)) top_k) as [n ->].
  rewrite list_elem_of_In, filter_In, <- list_elem_of_In.
  intros [Hi Hge]. split; [|exact Hge].
  apply argsort_bound.
  apply elem_of_take in Hi as (j & Hj & _).
  apply list_elem_of_lookup_2 in Hj.
  apply list_elem_of_In, in_rev, list_elem_of_In in Hj. exact Hj.
Qed.

Lemma valid_indices_NoDup (scores : list Q) (top_k : Z) :
  NoDup (valid_indices scores top_k).
Proof.
  unfold valid_indices.
  destruct (slice_to_prefix (rev (argsort scores)) top_k) as [n ->].
  apply NoDup_ListNoDup, List.NoDup_filter, NoDup_ListNoDup.
  assert (Hrev : NoDup (rev (argsort scores))).
  { apply NoDup_ListNoDup, List.NoDup_rev, NoDup_ListNoDup, argsort_NoDup. }
  rewrite <- (take_drop n (rev (argsort scores))) in Hrev.
  apply NoDup_app in Hrev as [Htake _]. exact Htake.
Qed.

Lemma valid_indices_length (scores : list Q) (top_k : Z) :
  (0 <= top_k)%Z ->
  (Z.of_nat (length (valid_indices scores top_k)) <= top_k)%Z.
Proof.
  intros Hk. unfold valid_indices. rewrite slice_to_of_nat by exact Hk.
  pose proof (List.filter_length_le
                (fun i => Qle_bool 0 (score_at scores i))
                (take (Z.to_nat top_k) (rev (argsort scores)))) as Hf.
  rewrite length_take in Hf. lia.
Qed.

Lemma select_length {A} (l : list A) (indices : list nat) (out : list A) :
  select l indices = Ok out -> length out = length indices.
Proof.
  revert out. induction indices as [|i r IH]; intros out; simpl.
  - intros [= <-]. reflexivity.
  - destruct (l !! i); [|discriminate].
    destruct (select l r) as [rest|]; [|discriminate].
    cbn. intros [= <-]. simpl. f_equal. apply IH. reflexivity.
Qed.

Lemma select_elem {A} (l : list A) (indices : list nat) (out : list A) (x : A) :
  select l indices = Ok out -> x ∈ out ->
  exists i, i ∈ indices /\ l !! i = Some x.
Proof.
  revert out. induction indices as [|i r IH]; intros out; simpl.
  - intros [= <-] Hx. inversion Hx.
  - destruct (l !! i) as [y|] eqn:Hy; [|discriminate].
    destruct (select l r) as [rest|]; [|discriminate].
    cbn. intros [= <-] Hx.
    apply elem_of_cons in Hx as [->|Hx].
    + exists i. split; [left | exact Hy].
    + destruct (IH rest eq_refl Hx) as (j & Hj & Hl).
      exists j. split; [right; exact Hj | exact Hl].
Qed.

(** The hard filter. *)

Lemma map_lookup {A B} (f : A -> B) (l : list A) (i : nat) :
  List.map f l !! i = f <$> l !! i.
Proof.
  revert i. induction l as [|x l IH]; intros [|i]; simpl; auto.
Qed.

Lemma where_pick_nonneg (b : bool) (s : Q) :
  Qle_bool 0 (where_pick b s) = true -> b = true.
Proof. destruct b; [reflexivity|]. intros Hle. discriminate Hle. Qed.

Lemma score_at_lookup (scores : list Q) (i : nat) (q : Q) :
  scores !! i = Some q -> score_at scores i = q.
Proof. intros Hq. unfold score_at. rewrite nth_lookup, Hq. reflexivity. Qed.

Lemma where_zip_kept (mask : list bool) (sims : list Q) (i : nat) :
  length mask = length sims ->
  (i < length mask)%nat ->
  Qle_bool 0 (score_at
                (List.map (fun bs => where_pick (fst bs) (snd bs))
                          (combine mask sims)) i) = true ->
  mask !! i = Some true.
Proof.
  revert sims i.
  induction mask as [|b mask IH]; intros [|s sims] [|i]; simpl;
    try discriminate; try lia.
  - intros _ _ Hle. apply where_pick_nonneg in Hle. congruence.
  - intros Hlen Hi Hle. apply (IH sims i); [lia | lia | exact Hle].
Qed.

(** A score that is not negative after [np.where] belongs to an item that
    the mask keeps, in each of the broadcasting cases. *)
Lemma np_where_kept (mask : list bool) (sims final : list Q) (i : nat) :
  np_where mask sims = Ok final ->
  (i < length mask)%nat ->
  (i < length final)%nat ->
  Qle_bool 0 (score_at final i) = true ->
  mask !! i = Some true.
Proof.
  unfold np_where.
  destruct (length mask =? length sims)%nat eqn:Hlen.
  - apply Nat.eqb_eq in Hlen. intros [= <-] Hi _ Hle.
    exact (where_zip_kept mask sims i Hlen Hi Hle).
  - assert (Hone : forall s : Q,
              (i < length mask)%nat ->
              Qle_bool 0 (score_at (List.map (fun b => where_pick b s) mask) i)
              = true ->
              mask !! i = Some true).
    { intros s Hi Hle.
      destruct (mask !! i) as [b|] eqn:Hb.
      - erewrite score_at_lookup in Hle
          by (rewrite map_lookup, Hb; reflexivity).
        apply where_pick_nonneg in Hle. congruence.
      - apply lookup_ge_None in Hb. lia. }
    destruct sims as [|s [|s' sims]].
    + destruct mask as [|b [|b' mask]]; try discriminate.
      intros [= <-] _ Hi. simpl in Hi. lia.
    + intros [= <-] Hi _ Hle. exact (Hone s Hi Hle).
    + destruct mask as [|b [|b' mask]]; try discriminate.
      intros [= <-] Hi _ Hle.
      destruct i as [|i]; [|simpl in Hi; lia].
      apply where_pick_nonneg in Hle. simpl. congruence.
Qed.

Section Filter.
Context {rt : PyRuntime}.

Lemma diet_mask_no_conflict (text : pystr) (diets : list pystr)
    (diet term : pystr) :
  diet_mask text diets = true ->
  diet ∈ diets ->
  term ∈ exclusion_vocabulary (lower diet) ->
  contains text term = false.
Proof.
  induction diets as [|d rest IH]; intros Hmask Hin Hterm; [inversion Hin|].
  cbn [diet_mask] in Hmask.
  apply elem_of_cons in Hin as [->|Hin].
  - unfold exclusion_vocabulary in Hterm.
    destruct (pystr_eqb (lower d) (u "vegetarian")).
    + destruct (any _ meat_terms) eqn:Hany; [discriminate|].
      apply not_true_iff_false. intros Hc.
      apply not_true_iff_false in Hany. apply Hany.
      apply existsb_exists. exists term.
      split; [apply list_elem_of_In, Hterm | exact Hc].
    + destruct (pystr_eqb (lower d) (u "vegan")); [|inversion Hterm].
      destruct (any _ non_vegan) eqn:Hany; [discriminate|].
      apply not_true_iff_false. intros Hc.
      apply not_true_iff_false in Hany. apply Hany.
      apply existsb_exists. exists term.
      split; [apply list_elem_of_In, Hterm | exact Hc].
  - apply IH; [|exact Hin | exact Hterm].
    destruct (pystr_eqb (lower d) (u "vegetarian")).
    + destruct (any _ meat_terms); [discriminate | exact Hmask].
    + destruct (pystr_eqb (lower d) (u "vegan")); [|exact Hmask].
      destruct (any _ non_vegan); [discriminate | exact Hmask].
Qed.

(** An item the mask keeps has no conflict with the constraints. *)
Lemma item_mask_no_conflict (constraints : Constraints.t) (item : MenuItem.t) :
  item_mask constraints item = true ->
  ~ allergen_conflict constraints item /\ ~ diet_conflict constraints item.
Proof.
  unfold item_mask. intros Hmask.
  destruct (_ && any _ _) eqn:Hallergen; [discriminate|].
  split.
  - intros (a & b & Ha & Hb & Heq).
    apply not_true_iff_false in Hallergen. apply Hallergen.
    apply andb_true_iff. split.
    + destruct (default [] (Constraints.avoid_allergens constraints));
        [inversion Ha | reflexivity].
    + apply existsb_exists. exists a.
      split; [apply list_elem_of_In, Ha|].
      apply bool_decide_eq_true. rewrite Heq.
      apply list_elem_of_In, in_map, list_elem_of_In, Hb.
  - intros (diet & term & Hdiet & Hterm & Hc).
    destruct (default [] (Constraints.diet constraints)) as [|d ds] eqn:Hds;
      [inversion Hdiet|].
    unfold diet_text in Hc.
    rewrite (diet_mask_no_conflict _ _ diet term Hmask Hdiet Hterm) in Hc.
    discriminate.
Qed.

End Filter.

Lemma bind_Ok_inv {A B} (r : result A) (f : A -> result B) (y : B) :
  (x ← r; f x) = Ok y -> exists a, r = Ok a /\ f a = Ok y.
Proof.
  destruct r as [a|]; [|discriminate]. intros Hf. exists a. split; [reflexivity | exact Hf].
Qed.

Section Ranker.
Context {rt : PyRuntime} (sv : Services).

(** The scores [rank_candidates] selects from come out of [np.where] on
    the mask of the hard filter. *)
Lemma final_scores_inv (fs fs' : storage) (menu_json : MenuJSON.t)
    (query_keywords : list pystr) (constraints : Constraints.t)
    (scores : list Q) :
  final_scores sv fs menu_json query_keywords constraints = (Ok scores, fs') ->
  exists similarities : list Q,
    np_where (apply_constraints_filter (MenuJSON.items menu_json) constraints)
             similarities = Ok scores.
Proof.
  unfold final_scores.
  destruct (load_or_compute_embeddings sv fs menu_json false) as [loaded fs''].
  intros [= Hscores _].
  apply bind_Ok_inv in Hscores as (item_embeddings & _ & Hscores).
  apply bind_Ok_inv in Hscores as (similarities & _ & Hscores).
  apply bind_Ok_inv in Hscores as (similarities' & _ & Hwhere).
  exists similarities'. exact Hwhere.
Qed.

Lemma rank_candidates_inv (fs fs' : storage) (menu_json : MenuJSON.t)
    (query_keywords : list pystr) (constraints : Constraints.t) (top_k : Z)
    (out : list MenuItem.t) :
  rank_candidates sv fs menu_json query_keywords constraints top_k
  = (Ok out, fs') ->
  (MenuJSON.items menu_json = [] /\ out = [])
  \/ exists scores : list Q,
       final_scores sv fs menu_json query_keywords constraints
       = (Ok scores, fs')
       /\ select (MenuJSON.items menu_json) (valid_indices scores top_k)
          = Ok out.
Proof.
  unfold rank_candidates.
  destruct (MenuJSON.items menu_json) as [|item items] eqn:Hitems.
  - intros [= <- _]. left. split; reflexivity.
  - destruct (final_scores sv fs menu_json query_keywords constraints)
      as [scored fs''].
    intros [= Hsel <-]. right.
    destruct scored as [scores|]; [|discriminate].
    exists scores. split; [reflexivity | exact Hsel].
Qed.

(** What the hard filter gives for the lists the code holds: whatever the
    scores, no item returned by [rank_candidates] has an allergen that
    equals, in lower case, an allergen of the avoid-list, and none has a
    text that holds a term of the code's vocabulary of a requested diet. *)
Theorem rank_candidates_excludes_conflicts (fs fs' : storage)
    (menu_json : MenuJSON.t) (query_keywords : list pystr)
    (constraints : Constraints.t) (top_k : Z) (out : list MenuItem.t)
    (item : MenuItem.t) :
  rank_candidates sv fs menu_json query_keywords constraints top_k
  = (Ok out, fs') ->
  item ∈ out ->
  ~ allergen_conflict constraints item /\ ~ diet_conflict constraints item.
Proof.
  intros Hrank Hitem.
  apply rank_candidates_inv in Hrank as [[_ ->]|(scores & Hscores & Hsel)];
    [inversion Hitem|].
  apply item_mask_no_conflict.
  destruct (select_elem _ _ _ _ Hsel Hitem) as (i & Hi & Hlookup).
  apply valid_indices_elem in Hi as [Hbound Hge].
  apply final_scores_inv in Hscores as [similarities Hwhere].
  assert (Hmask : apply_constraints_filter (MenuJSON.items menu_json)
                    constraints !! i = Some true).
  { apply (np_where_kept _ similarities scores); try assumption.
    unfold apply_constraints_filter. rewrite length_map.
    apply lookup_lt_Some in Hlookup. exact Hlookup. }
  unfold apply_constraints_filter in Hmask.
  rewrite map_lookup, Hlookup in Hmask. injection Hmask as Hmask. exact Hmask.
Qed.

(** C3 (as amended).  For [top_k >= 0], [rank_candidates] returns at most
    [top_k] items; they are the items at pairwise distinct indices whose
    adjusted scores are in descending order.  Nothing is promised on the
    order of items with equal scores. *)
Theorem rank_candidates_top_k_descending (fs fs' : storage)
    (menu_json : MenuJSON.t) (query_keywords : list pystr)
    (constraints : Constraints.t) (top_k : Z) (out : list MenuItem.t) :
  (0 <= top_k)%Z ->
  rank_candidates sv fs menu_json query_keywords constraints top_k
  = (Ok out, fs') ->
  (Z.of_nat (length out) <= top_k)%Z
  /\ ((MenuJSON.items menu_json = [] /\ out = [])
      \/ exists scores : list Q,
           final_scores sv fs menu_json query_keywords constraints
           = (Ok scores, fs')
           /\ select (MenuJSON.items menu_json) (valid_indices scores top_k)
              = Ok out
           /\ StronglySorted
                (fun i j => (score_at scores j <= score_at scores i)%Q)
                (valid_indices scores top_k)
           /\ NoDup (valid_indices scores top_k)).
Proof.
  intros Hk Hrank.
  apply rank_candidates_inv in Hrank as [[Hitems ->]|(scores & Hscores & Hsel)].
  - split; [simpl; lia | left; split; [exact Hitems | reflexivity]].
  - split.
    + rewrite (select_length _ _ _ Hsel). apply valid_indices_length, Hk.
    + right. exists scores.
      repeat split; [exact Hscores | exact Hsel | | apply valid_indices_NoDup].
      apply valid_indices_sorted.
Qed.

End Ranker.

Lemma pair_eta_fst {A B} (p : A * B) (a : A) : p.1 = a -> p = (a, p.2).
Proof. destruct p. simpl. intros ->. reflexivity. Qed.

(** With peanut on the avoid-list and a vegetarian diet, the satay is left
    out and the salad is returned. *)
Lemma rank_candidates_excludes_conflicts_witness :
  let constraints :=
    Constraints.mk (Some [u "Vegetarian"]) (Some [u "PEANUT"]) None in
  let ranked :=
    rank_candidates (rt := ascii_runtime) demo_services ∅
      (demo_menu [salad; satay; soup]) [u "fresh"] constraints 8 in
  ranked.1 = Ok [soup; salad]
  /\ ~ allergen_conflict (rt := ascii_runtime) constraints salad
  /\ ~ diet_conflict (rt := ascii_runtime) constraints salad.
Proof.
  intros constraints ranked.
  assert (Hranked : ranked.1 = Ok [soup; salad]) by (vm_compute; reflexivity).
  split; [exact Hranked|].
  apply (@rank_candidates_excludes_conflicts ascii_runtime demo_services ∅
           ranked.2 (demo_menu [salad; satay; soup]) [u "fresh"] constraints 8
           [soup; salad] salad).
  - apply pair_eta_fst, Hranked.
  - right. left.
Defined.

(** The vocabulary of the vegan tag holds the dairy terms and five of the
    seven meat terms of the vegetarian tag: turkey and pork are not in it,
    and an item that mentions them passes a vegan request. *)
Lemma vegan_vocabulary_without_turkey_and_pork :
  (forall term : pystr,
     term ∈ meat_terms ->
     term ∈ non_vegan \/ term = u "turkey" \/ term = u "pork")
  /\ (u "turkey" ∉ non_vegan)
  /\ (u "pork" ∉ non_vegan)
  /\ item_mask (rt := ascii_runtime)
       (Constraints.mk (Some [u "vegan"]) None None)
       (demo_item (u "Turkey Club") [] None)
     = true.
Proof.
  split.
  { intros term Hterm. unfold meat_terms in Hterm.
    rewrite !elem_of_cons, elem_of_nil in Hterm.
    destruct Hterm as [->|[->|[->|[->|[->|[->|[->|[]]]]]]]];
      first [ left; unfold non_vegan; set_solver
            | right; left; reflexivity
            | right; right; reflexivity ]. }
  split; [|split].
  - rewrite list_elem_of_In. vm_compute. intuition discriminate.
  - rewrite list_elem_of_In. vm_compute. intuition discriminate.
  - vm_compute. reflexivity.
Qed.

(** The vocabulary of the specification and that of the code differ on the
    vegan tag only, by turkey and pork. *)
Lemma spec_exclusion_vocabulary_gap (tag term : pystr) :
  term ∈ spec_exclusion_vocabulary tag ->
  term ∈ exclusion_vocabulary tag
  \/ (tag = u "vegan" /\ (term = u "turkey" \/ term = u "pork")).
Proof.
  unfold spec_exclusion_vocabulary, exclusion_vocabulary.
  destruct (pystr_eqb tag (u "vegetarian")); [intros Hterm; left; exact Hterm|].
  destruct (pystr_eqb tag (u "vegan")) eqn:Hvegan;
    [|intros Hterm; inversion Hterm].
  apply bool_decide_eq_true in Hvegan.
  unfold vegetarian_vocabulary, dairy_terms, non_vegan. cbn [app].
  rewrite !elem_of_cons, elem_of_nil.
  intros [->|[->|[->|[->|[->|[->|[->|[->|[->|[->|[->|[]]]]]]]]]]]];
    first [ left; set_solver
          | right; split; [exact Hvegan | left; reflexivity]
          | right; split; [exact Hvegan | right; reflexivity] ].
Qed.

(** The reach of the defect: an item returned by [rank_candidates] has no
    allergen conflict, and the only terms of the specification's vocabulary
    its text can hold are turkey and pork under a vegan request. *)
Lemma rank_candidates_spec_conflicts {rt : PyRuntime} (sv : Services)
    (fs fs' : storage) (menu_json : MenuJSON.t) (query_keywords : list pystr)
    (constraints : Constraints.t) (top_k : Z) (out : list MenuItem.t)
    (item : MenuItem.t) :
  rank_candidates sv fs menu_json query_keywords constraints top_k
  = (Ok out, fs') ->
  item ∈ out ->
  ~ allergen_conflict constraints item
  /\ forall diet term : pystr,
       diet ∈ default [] (Constraints.diet constraints) ->
       term ∈ spec_exclusion_vocabulary (lower diet) ->
       contains (diet_text item) term = true ->
       lower diet = u "vegan" /\ (term = u "turkey" \/ term = u "pork").
Proof.
  intros Hrank Hitem.
  destruct (rank_candidates_excludes_conflicts sv fs fs' menu_json
              query_keywords constraints top_k out item Hrank Hitem)
    as [Hallergen Hdiet].
  split; [exact Hallergen|].
  intros diet term Hin Hterm Hheld.
  apply spec_exclusion_vocabulary_gap in Hterm as [Hcode|Hgap];
    [|exact Hgap].
  exfalso. apply Hdiet. exists diet, term.
  split; [exact Hin | split; [exact Hcode | exact Hheld]].
Qed.

(** C1 (the code at the failing input).  Under a vegan request the club
    sandwich, whose text holds turkey, a term the specification excludes
    for the vegan tag, passes the hard filter and is returned; so does the
    pork chop pass the filter.  The cheese plate is dropped under the same
    request, and the sandwich is dropped under a vegetarian request: the
    vegan list of the code lacks the two terms its vegetarian list has. *)
Lemma rank_candidates_vegan_returns_turkey :
  let vegan := Constraints.mk (Some [u "vegan"]) None None in
  let vegetarian := Constraints.mk (Some [u "vegetarian"]) None None in
  let menu_json := demo_menu [turkey_club; cheese_plate] in
  u "turkey" ∈ spec_exclusion_vocabulary (u "vegan")
  /\ u "pork" ∈ spec_exclusion_vocabulary (u "vegan")
  /\ spec_diet_conflict (rt := ascii_runtime) vegan turkey_club
  /\ apply_constraints_filter (rt := ascii_runtime)
       [turkey_club; pork_chop; cheese_plate] vegan
     = [true; true; false]
  /\ (rank_candidates (rt := ascii_runtime) demo_services ∅ menu_json
        [u "fresh"] vegan 8).1
     = Ok [turkey_club]
  /\ (rank_candidates (rt := ascii_runtime) demo_services ∅ menu_json
        [u "fresh"] vegetarian 8).1
     = Ok [cheese_plate].
Proof.
  intros vegan vegetarian menu_json.
  assert (Hturkey : u "turkey" ∈ spec_exclusion_vocabulary (u "vegan")).
  { apply list_elem_of_In. vm_compute. tauto. }
  split; [exact Hturkey|].
  split; [apply list_elem_of_In; vm_compute; tauto|].
  split.
  { exists (u "vegan"), (u "turkey").
    split; [left|]. split; [exact Hturkey | vm_compute; reflexivity]. }
  split; [vm_compute; reflexivity|].
  split; vm_compute; reflexivity.
Qed.

(** Three items with equal scores and [top_k = 2]. *)
Lemma rank_candidates_top_k_descending_witness :
  let ranked :=
    rank_candidates (rt := ascii_runtime) demo_services ∅
      (demo_menu [salad; satay; soup]) [u "fresh"] no_constraints 2 in
  ranked.1 = Ok [soup; satay]
  /\ (Z.of_nat (length [soup; satay]) <= 2)%Z.
Proof.
  intros ranked.
  assert (Hranked : ranked.1 = Ok [soup; satay]) by (vm_compute; reflexivity).
  split; [exact Hranked|].
  apply (@rank_candidates_top_k_descending ascii_runtime demo_services ∅
           ranked.2 (demo_menu [salad; satay; soup]) [u "fresh"]
           no_constraints 2 [soup; satay]).
  - lia.
  - apply pair_eta_fst, Hranked.
Defined.

(** C3 (counterexample).  Two items with the same adjusted score come out
    in the reverse of their menu order; and with a negative [top_k] the
    slice keeps all but the last indices, more than [top_k] items. *)
Lemma rank_candidates_ties_reversed :
  (final_scores (rt := ascii_runtime) demo_services ∅
     (demo_menu [salad; soup]) [u "fresh"] no_constraints).1
  = Ok [1%Q; 1%Q]
  /\ (rank_candidates (rt := ascii_runtime) demo_services ∅
        (demo_menu [salad; soup]) [u "fresh"] no_constraints 8).1
     = Ok [soup; salad]
  /\ (rank_candidates (rt := ascii_runtime) demo_services ∅
        (demo_menu [salad; satay; soup]) [u "fresh"] no_constraints (-1)).1
     = Ok [soup; satay].
Proof. vm_compute. repeat split; reflexivity. Qed.

(** C9 (the code at the failing input).  The toast passes the hard filter
    and its cosine similarity, [-3/5], is above the sentinel [-1]; it is
    one of two items and [top_k] is 8, yet it is not returned: the test
    [final_scores[i] >= 0] drops every item with a negative score, not only
    those at the sentinel. *)
Lemma rank_candidates_drops_negative_score :
  let menu_json := demo_menu [toast; salad] in
  apply_constraints_filter (rt := ascii_runtime) [toast; salad] no_constraints
  = [true; true]
  /\ (final_scores (rt := ascii_runtime) demo_services ∅ menu_json
        [u "fresh"] no_constraints).1
     = Ok [(-3 # 5)%Q; 1%Q]
  /\ (where_pick false 1 < -3 # 5)%Q
  /\ (rank_candidates (rt := ascii_runtime) demo_services ∅ menu_json
        [u "fresh"] no_constraints 8).1
     = Ok [salad].
Proof. vm_compute. repeat split; reflexivity. Qed.

(** * Properties of the embedding cache *)

(** C5 (as amended).  Two menus with the same sequence of items and the
    same restaurant name have the same cache path under a base directory,
    whatever the rest of their restaurant profiles; the path is a function
    of the menu content and of the base directory alone, no file name or
    storage path of the menu enters it. *)
Theorem cache_path_from_items_and_name {rt : PyRuntime}
    (menu1 menu2 : MenuJSON.t) (base_dir : pystr) :
  MenuJSON.items menu1 = MenuJSON.items menu2 ->
  RestaurantProfile.name (MenuJSON.restaurant menu1)
  = RestaurantProfile.name (MenuJSON.restaurant menu2) ->
  get_embedding_cache_path menu1 base_dir
  = get_embedding_cache_path menu2 base_dir.
Proof.
  intros Hitems Hname. unfold get_embedding_cache_path.
  rewrite Hitems, Hname. reflexivity.
Qed.

(** Two profiles that share only their name. *)
Lemma cache_path_from_items_and_name_witness :
  let other :=
    RestaurantProfile.mk (Some (u "Lokanta")) (Some (u "Lokanta Bistro"))
      [] None [] [] [] (u "Another summary.") in
  get_embedding_cache_path (rt := ascii_runtime)
    (demo_menu [salad; soup]) default_base_dir
  = get_embedding_cache_path (rt := ascii_runtime)
      (MenuJSON.mk other [salad; soup]) default_base_dir.
Proof.
  intros other.
  apply (@cache_path_from_items_and_name ascii_runtime
           (demo_menu [salad; soup]) (MenuJSON.mk other [salad; soup])
           default_base_dir); reflexivity.
Defined.

(** C5 (counterexample).  The same two items in the other order, for the
    same restaurant, give another content hash and another path: the list
    is serialized in menu order, only the keys of an item are sorted. *)
Lemma cache_path_depends_on_item_order :
  (forall item, item ∈ [salad; soup] <-> item ∈ [soup; salad])
  /\ get_embedding_cache_path (rt := ascii_runtime)
       (demo_menu [salad; soup]) default_base_dir
     = u "opt/menu_content/lokanta_766d0a0d4fe172bd.emb.npy"
  /\ get_embedding_cache_path (rt := ascii_runtime)
       (demo_menu [soup; salad]) default_base_dir
     = u "opt/menu_content/lokanta_4e44ca21fbd0bd13.emb.npy"
  /\ get_embedding_cache_path (rt := ascii_runtime)
       (demo_menu [salad; soup]) default_base_dir
     <> get_embedding_cache_path (rt := ascii_runtime)
          (demo_menu [soup; salad]) default_base_dir.
Proof.
  split.
  { intros item. rewrite !elem_of_cons. tauto. }
  assert (H1 : get_embedding_cache_path (rt := ascii_runtime)
                 (demo_menu [salad; soup]) default_base_dir
               = u "opt/menu_content/lokanta_766d0a0d4fe172bd.emb.npy")
    by (vm_compute; reflexivity).
  assert (H2 : get_embedding_cache_path (rt := ascii_runtime)
                 (demo_menu [soup; salad]) default_base_dir
               = u "opt/menu_content/lokanta_4e44ca21fbd0bd13.emb.npy")
    by (vm_compute; reflexivity).
  split; [exact H1|]. split; [exact H2|].
  rewrite H1, H2. vm_compute. discriminate.
Qed.





(** * Properties of the gating agent *)

(** C2.  When the local intent signal is false, whatever the chat service
    answers, the turn has no candidates; the only request sent is the first
    one, whose system prompt is built without candidates; the cache
    directory is untouched; and the whole turn is the same for every menu
    and every ranking service: no menu content reaches the reply. *)
Theorem respond_without_intent_is_gated {rt : PyRuntime} (sv : Services)
    (client : Client) (self : UnifiedWaitressAgent.t) (fs : storage)
    (history : list ChatTurn.t) (user_message : pystr) :
  check_food_intent history user_message = false ->
  let turn := respond sv client self fs history user_message in
  candidates turn = []
  /\ requests turn
     = [(build_system_prompt self None,
         conversation_context history user_message)]
  /\ cache turn = fs
  /\ forall (sv' : Services) (menu' : MenuJSON.t),
       respond sv' client
         (UnifiedWaitressAgent.mk (UnifiedWaitressAgent.restaurant self) menu'
            (UnifiedWaitressAgent.persona self)
            (UnifiedWaitressAgent.persona_id self))
         fs history user_message
       = turn.
Proof.
  intros Hintent turn. subst turn.
  destruct self as [restaurant menu persona persona_id].
  unfold respond, finalize_order, build_system_prompt. rewrite Hintent.
  cbn [UnifiedWaitressAgent.restaurant UnifiedWaitressAgent.persona
       UnifiedWaitressAgent.persona_id].
  destruct (chat_completion client 0 _ _) as [content|].
  - destruct (parse_action_from_response (strip content)) as [action_dict reply].
    rewrite andb_false_r.
    destruct (eq_str _ (u "FINALIZE"));
      cbn [candidates requests cache]; repeat split; reflexivity.
  - cbn [candidates requests cache turn_failed]. repeat split; reflexivity.
Qed.

(** The example of the specification: an empty history, the message hello,
    and a model that claims RECOMMEND. *)
Lemma respond_without_intent_is_gated_witness :
  let turn :=
    respond (rt := ascii_runtime) demo_services
      (constant_client recommend_answer) demo_agent ∅ [] (u "hello") in
  check_food_intent (rt := ascii_runtime) [] (u "hello") = false
  /\ action turn = JStr (u "RECOMMEND")
  /\ candidates turn = []
  /\ reply_text turn = u "Try the soup.".
Proof.
  intros turn.
  assert (Hintent : check_food_intent (rt := ascii_runtime) [] (u "hello")
                    = false) by (vm_compute; reflexivity).
  split; [exact Hintent|].
  split; [vm_compute; reflexivity|].
  split; [|vm_compute; reflexivity].
  apply (@respond_without_intent_is_gated ascii_runtime demo_services
           (constant_client recommend_answer) demo_agent ∅ [] (u "hello")
           Hintent).
Defined.

Lemma strip_example_item : strip (u "Example Item") = u "Example Item".
Proof. reflexivity. Qed.

(** C10.  Whenever [respond] returns an order, the order holds the single
    item named Example Item, without notes, its confidence is 0.8, and the
    action of the turn is FINALIZE: whatever the history, the message, the
    menu and the answers of the services. *)
Theorem respond_order_is_placeholder {rt : PyRuntime} (sv : Services)
    (client : Client) (self : UnifiedWaitressAgent.t) (fs : storage)
    (history : list ChatTurn.t) (user_message : pystr) (o : Order.t) :
  maybe_order (respond sv client self fs history user_message) = Some o ->
  Order.order o = [OrderItem.mk (u "Example Item") None]
  /\ Order.confidence o = 0.8%Q
  /\ eq_str (action (respond sv client self fs history user_message))
            (u "FINALIZE") = true.
Proof.
  unfold respond.
  destruct (chat_completion client 0 _ _) as [content|]; [|discriminate].
  destruct (parse_action_from_response (strip content)) as [action_dict reply].
  set (act := action_of action_dict).
  destruct (any (eq_str act) _ && check_food_intent history user_message).
  - destruct (lookup_candidates _ _ _ _ _) as [cands fs'].
    destruct cands; [discriminate|].
    destruct (chat_completion client 2 _ _); [|discriminate].
    destruct (parse_action_from_response _); discriminate.
  - destruct (eq_str act (u "FINALIZE")) eqn:Hfin; [|discriminate].
    cbn [maybe_order action]. intros [= <-].
    unfold finalize_order. cbn [Order.order Order.confidence List.map].
    rewrite strip_example_item. auto.
Qed.

(** A model that answers FINALIZE. *)
Lemma respond_order_is_placeholder_witness :
  exists o,
    maybe_order (respond (rt := ascii_runtime) demo_services
                   (constant_client finalize_answer) demo_agent ∅ []
                   (u "that is all, thanks")) = Some o
    /\ Order.order o = [OrderItem.mk (u "Example Item") None]
    /\ Order.confidence o = 0.8%Q.
Proof.
  eexists. split; [vm_compute; reflexivity|].
  split;
    eapply (@respond_order_is_placeholder ascii_runtime demo_services
              (constant_client finalize_answer) demo_agent ∅ []
              (u "that is all, thanks"));
    vm_compute; reflexivity.
Defined.

(** * Further properties of the extractor *)

Lemma startswith_app (m post : pystr) : startswith (m ++ post) m = true.
Proof.
  induction m as [|c m IH]; simpl; [destruct post; reflexivity|].
  rewrite N.eqb_refl. exact IH.
Qed.

Lemma startswith_nil (s : pystr) : startswith s [] = true.
Proof. destruct s; reflexivity. Qed.

Lemma startswith_prefix (s p : pystr) :
  startswith s p = true <-> exists post, s = p ++ post.
Proof.
  split.
  - revert s. induction p as [|c p IH]; intros s Hs; [simpl; eauto|].
    destruct s as [|d s]; [discriminate|]. simpl in Hs.
    apply andb_true_iff in Hs as [Hc Hs]. apply N.eqb_eq in Hc. subst d.
    destruct (IH s Hs) as [post ->]. eauto.
  - intros [post ->]. apply startswith_app.
Qed.

Lemma contains_unfold (s m : pystr) :
  contains s m
  = startswith s m || match s with [] => false | _ :: r => contains r m end.
Proof. destruct s; reflexivity. Qed.

Lemma contains_split (s m : pystr) :
  contains s m = true <-> exists pre post, s = pre ++ m ++ post.
Proof.
  split.
  - induction s as [|c s IH]; rewrite contains_unfold; intros Hc.
    + rewrite orb_false_r in Hc. apply startswith_prefix in Hc as [post Hp].
      exists [], post. exact Hp.
    + apply orb_true_iff in Hc as [Hc|Hc].
      * apply startswith_prefix in Hc as [post Hp]. exists [], post. exact Hp.
      * destruct (IH Hc) as (pre & post & ->). exists (c :: pre), post.
        reflexivity.
  - intros (pre & post & ->).
    induction pre as [|c pre IH]; rewrite contains_unfold.
    + cbn [app]. rewrite startswith_app. reflexivity.
    + cbn [app]. rewrite IH. apply orb_true_r.
Qed.

Lemma contains_slice (s : pystr) (a b : nat) : contains s (slice s a b) = true.
Proof.
  apply contains_split. unfold slice.
  exists (take a s), (drop (b - a) (drop a s)).
  rewrite take_drop, take_drop. reflexivity.
Qed.

(** What a bracket scan returns is a slice of the text. *)
Lemma scan_balanced_slice (op cl : N) (text : pystr) :
  forall (rest : pystr) (i : nat) (start count : Z) (r : pystr),
    scan_balanced op cl text rest i start count = Some r ->
    exists a b, r = slice text a b.
Proof.
  induction rest as [|c rest IH]; intros i start count r; simpl;
    [discriminate|].
  destruct (c =? op); [apply IH|].
  destruct (c =? cl); [|apply IH].
  destruct (_ && _); [|apply IH].
  destruct (json_valid _); [|apply IH].
  intros [= <-]. eauto.
Qed.

(** The matcher hands a suffix of the text to its continuation. *)
Lemma go_suffix (r : Re.re) :
  forall (s : pystr) (k : pystr -> option pystr) (x : pystr),
    Re.go r s k = Some x ->
    exists p s', s = p ++ s' /\ k s' = Some x.
Proof.
  induction r as [|c|p|a IHa b IHb|a IHa|a IHa|a IHa]; intros s k x; simpl.
  - intros Hk. exists [], s. split; [reflexivity | exact Hk].
  - destruct s as [|d t]; [discriminate|].
    destruct (d =? c); [|discriminate].
    intros Hk. exists [d], t. split; [reflexivity | exact Hk].
  - destruct s as [|d t]; [discriminate|].
    destruct (p d); [|discriminate].
    intros Hk. exists [d], t. split; [reflexivity | exact Hk].
  - intros Hg. apply IHa in Hg as (p1 & s1 & -> & Hg).
    apply IHb in Hg as (p2 & s2 & -> & Hk).
    exists (p1 ++ p2), s2. rewrite <- app_assoc. split; [reflexivity | exact Hk].
  - unfold Re.first_some.
    destruct (Re.go a s k) eqn:Hg.
    + intros [= ->]. apply IHa in Hg. exact Hg.
    + intros Hk. exists [], s. split; [reflexivity | exact Hk].
  - generalize (length s) as n. intros n. revert s.
    induction n as [|n IHn]; intros s.
    + intros Hk. exists [], s. split; [reflexivity | exact Hk].
    + unfold Re.first_some at 1.
      match goal with |- context [Re.go a s ?k'] =>
        destruct (Re.go a s k') eqn:Hg end.
      * intros [= ->]. apply IHa in Hg as (p1 & s1 & -> & Hg).
        destruct (length s1 <? length (p1 ++ s1))%nat; [|discriminate].
        apply IHn in Hg as (p2 & s2 & -> & Hk).
        exists (p1 ++ p2), s2. rewrite <- app_assoc.
        split; [reflexivity | exact Hk].
      * intros Hk. exists [], s. split; [reflexivity | exact Hk].
  - generalize (length s) as n. intros n. revert s.
    induction n as [|n IHn]; intros s.
    + intros Hk. exists [], s. split; [reflexivity | exact Hk].
    + unfold Re.first_some at 1.
      destruct (k s) eqn:Hks.
      * intros [= ->]. exists [], s. split; [reflexivity | exact Hks].
      * intros Hg. apply IHa in Hg as (p1 & s1 & -> & Hg).
        destruct (length s1 <? length (p1 ++ s1))%nat; [|discriminate].
        apply IHn in Hg as (p2 & s2 & -> & Hk).
        exists (p1 ++ p2), s2. rewrite <- app_assoc.
        split; [reflexivity | exact Hk].
Qed.

(** A match is a prefix of the text, followed by the rest. *)
Lemma match_at_split (r : Re.re) (s m rest : pystr) :
  Re.match_at r s = Some (m, rest) -> s = m ++ rest.
Proof.
  unfold Re.match_at.
  destruct (Re.go r s Some) as [x|] eqn:Hg; [|discriminate].
  apply go_suffix in Hg as (p & s' & -> & [= ->]).
  intros [= <- <-].
  rewrite length_app.
  replace (length p + length x - length x)%nat with (length p) by lia.
  rewrite take_app_length. reflexivity.
Qed.

(** The match of a pattern that begins with a literal begins with it. *)
Lemma match_at_head (c : N) (r : Re.re) (s m rest : pystr) :
  Re.match_at (Re.Seq (Re.Chr c) r) s = Some (m, rest) -> head m = Some c.
Proof.
  intros Hm. pose proof (match_at_split _ _ _ _ Hm) as Hs.
  unfold Re.match_at in Hm. simpl in Hm.
  destruct s as [|d t]; [discriminate|].
  destruct (d =? c) eqn:Hd; [|discriminate].
  apply N.eqb_eq in Hd. subst d.
  destruct (Re.go r t Some) as [x|] eqn:Hg; [|discriminate].
  apply go_suffix in Hg as (p & s' & -> & [= ->]).
  injection Hm as _ <-.
  change (c :: p ++ x) with ((c :: p) ++ x) in Hs.
  apply app_inv_tail in Hs. subst m. reflexivity.
Qed.

Lemma search_split (r : Re.re) (s m : pystr) :
  Re.search r s = Some m ->
  exists pre rest, s = pre ++ m ++ rest
                   /\ Re.match_at r (m ++ rest) = Some (m, rest).
Proof.
  induction s as [|c s IH]; simpl.
  - destruct (Re.match_at r []) as [[m' rest]|] eqn:Hm; [|discriminate].
    intros [= ->]. pose proof (match_at_split _ _ _ _ Hm) as Hs.
    exists [], rest. rewrite <- Hs. split; [reflexivity | exact Hm].
  - destruct (Re.match_at r (c :: s)) as [[m' rest]|] eqn:Hm.
    + intros [= ->]. pose proof (match_at_split _ _ _ _ Hm) as Hs.
      exists [], rest. rewrite <- Hs. split; [reflexivity | exact Hm].
    + intros Hs. destruct (IH Hs) as (pre & rest & -> & Hm').
      exists (c :: pre), rest. split; [reflexivity | exact Hm'].
Qed.

Lemma try_patterns_sound (text r : pystr) :
  try_patterns json_patterns text = Some r ->
  json_valid r = true
  /\ (head r = Some 91 \/ head r = Some 123)
  /\ contains text r = true.
Proof.
  assert (Hall : Forall (fun p => exists c q, p = Re.Seq (Re.Chr c) q
                                   /\ (c = 91 \/ c = 123)) json_patterns).
  { repeat constructor; eexists; eexists; (split; [reflexivity|]); auto. }
  induction Hall as [|p ps (c & q & -> & Hc) _ IH]; [discriminate|].
  cbn [try_patterns].
  destruct (Re.search (Re.Seq (Re.Chr c) q) text) as [m|] eqn:Hs; [|exact IH].
  destruct (json_valid m) eqn:Hv; [|exact IH].
  intros [= <-].
  apply search_split in Hs as (pre & rest & -> & Hm).
  split; [exact Hv|]. split.
  - rewrite (match_at_head _ _ _ _ _ Hm). destruct Hc as [->| ->]; auto.
  - apply contains_split. eauto.
Qed.

(** X1.  Whatever [extract_json_from_response] returns parses as JSON,
    starts with an opening square bracket or an opening brace, and occurs
    literally in the stripped response: the extractor never repairs or
    invents text. *)
Theorem extract_json_from_response_sound (response_text r : pystr) :
  extract_json_from_response response_text = Some r ->
  json_valid r = true
  /\ (head r = Some 91 \/ head r = Some 123)
  /\ contains (strip response_text) r = true.
Proof.
  unfold extract_json_from_response.
  set (text := strip response_text).
  destruct (scan_balanced 91 93 text text 0 (-1)%Z 0%Z) as [a|] eqn:Harr.
  { intros [= <-].
    destruct (scan_balanced_sound 91 93 bracket_neq text text 0 (-1)%Z 0%Z a
                eq_refl (or_introl eq_refl) Harr) as [Hv Hh].
    destruct (scan_balanced_slice _ _ _ _ _ _ _ _ Harr) as (x & y & ->).
    split; [exact Hv|]. split; [left; exact Hh | apply contains_slice]. }
  destruct (scan_balanced 123 125 text text 0 (-1)%Z 0%Z) as [o|] eqn:Hobj.
  { intros [= <-].
    assert (Hneq : (123 : N) <> 125) by discriminate.
    destruct (scan_balanced_sound 123 125 Hneq text text 0 (-1)%Z 0%Z o
                eq_refl (or_introl eq_refl) Hobj) as [Hv Hh].
    destruct (scan_balanced_slice _ _ _ _ _ _ _ _ Hobj) as (x & y & ->).
    split; [exact Hv|]. split; [right; exact Hh | apply contains_slice]. }
  apply try_patterns_sound.
Qed.

Lemma Forall_lstrip (P : N -> Prop) (s : pystr) :
  Forall P s -> Forall P (lstrip s).
Proof.
  induction 1 as [|c s Hc Hs IH]; simpl; [constructor|].
  destruct (py_isspace c); [exact IH | constructor; assumption].
Qed.

Lemma Forall_strip (P : N -> Prop) (s : pystr) :
  Forall P s -> Forall P (strip s).
Proof.
  intros Hs. unfold strip, rstrip.
  apply Forall_rev, Forall_lstrip, Forall_rev, Forall_lstrip, Hs.
Qed.

Lemma scan_balanced_no_opening (op cl : N) (text : pystr) :
  forall (rest : pystr) (i : nat) (count : Z),
    Forall (fun c => c <> op) rest ->
    scan_balanced op cl text rest i (-1)%Z count = None.
Proof.
  induction rest as [|c rest IH]; intros i count Hrest; [reflexivity|].
  apply Forall_cons in Hrest as [Hc Hrest]. apply N.eqb_neq in Hc.
  cbn [scan_balanced]. rewrite Hc.
  destruct (c =? cl); [|apply IH, Hrest].
  change ((-1 =? -1)%Z) with true. cbn [negb]. rewrite andb_false_r.
  apply IH, Hrest.
Qed.

Lemma search_no_opening (c : N) (q : Re.re) (s : pystr) :
  Forall (fun d => d <> c) s -> Re.search (Re.Seq (Re.Chr c) q) s = None.
Proof.
  induction 1 as [|d s Hd Hs IH]; [reflexivity|].
  apply N.eqb_neq in Hd.
  cbn [Re.search]. unfold Re.match_at at 1. cbn [Re.go]. rewrite Hd.
  exact IH.
Qed.

(** X2.  A response without any opening square bracket and without
    any opening brace yields nothing, whatever else it holds. *)
Theorem extract_json_from_response_needs_opening (response_text : pystr) :
  91 ∉ response_text ->
  123 ∉ response_text ->
  extract_json_from_response response_text = None.
Proof.
  intros Hb Hc.
  assert (Hall : Forall (fun d => d <> 91 /\ d <> 123) (strip response_text)).
  { apply Forall_strip, Forall_forall. intros d Hd.
    split; intros ->; [apply Hb | apply Hc]; exact Hd. }
  unfold extract_json_from_response.
  rewrite scan_balanced_no_opening
    by (eapply Forall_impl; [exact Hall | intros d [? _]; assumption]).
  rewrite scan_balanced_no_opening
    by (eapply Forall_impl; [exact Hall | intros d [_ ?]; assumption]).
  unfold json_patterns. cbn [try_patterns].
  rewrite !search_no_opening; try reflexivity;
    (eapply Forall_impl; [exact Hall | intros d [? ?]; assumption]).
Qed.

Lemma extract_json_from_response_needs_opening_witness :
  extract_json_from_response (u "Sure, 2 specials ] today }") = None.
Proof.
  apply extract_json_from_response_needs_opening;
    rewrite list_elem_of_In; vm_compute; intuition discriminate.
Defined.

Lemma extract_json_from_response_sound_witness :
  let response_text := uq " Here: [`soup`, `salad`] enjoy " in
  extract_json_from_response response_text = Some (uq "[`soup`, `salad`]")
  /\ json_valid (uq "[`soup`, `salad`]") = true
  /\ contains (strip response_text) (uq "[`soup`, `salad`]") = true.
Proof.
  intros response_text.
  assert (He : extract_json_from_response response_text
               = Some (uq "[`soup`, `salad`]")) by (vm_compute; reflexivity).
  split; [exact He|].
  destruct (extract_json_from_response_sound _ _ He) as (Hv & _ & Hc).
  split; assumption.
Defined.

(** * Further properties of the decision parser *)

Lemma normalize_is_dict {rt : PyRuntime} (parsed_json : json) :
  is_dict (normalize parsed_json) = true.
Proof.
  destruct parsed_json as [| | | | |l|d]; try reflexivity.
  destruct l as [|x l]; [reflexivity|].
  unfold normalize.
  destruct (List.find is_dict (x :: l)) as [item|] eqn:Hfind.
  - apply find_some in Hfind as [_ Hd]. exact Hd.
  - repeat (match goal with
            | |- context [if ?b then _ else _] => destruct b
            end); reflexivity.
Qed.

(** X3.  For every response text, the decision
    [parse_action_from_response] returns is a mapping, and the action read
    from it is the value at the key action, ASK when the key is missing. *)
Theorem parse_action_from_response_is_mapping {rt : PyRuntime}
    (response_text : pystr) :
  exists d : list (pystr * json),
    fst (parse_action_from_response response_text) = JDict d
    /\ action_of (fst (parse_action_from_response response_text))
       = dict_get d (u "action") (JStr (u "ASK")).
Proof.
  assert (Hd : is_dict (fst (parse_action_from_response response_text)) = true).
  { unfold parse_action_from_response. cbn [fst].
    destruct (extract_json_from_response response_text) as [[|c s]|];
      try reflexivity.
    destruct (JsonDecoder.loads (c :: s)); [apply normalize_is_dict | reflexivity]. }
  destruct (fst (parse_action_from_response response_text)) as [| | | | | |d];
    try discriminate.
  exists d. split; reflexivity.
Qed.

(** Stripping. *)

Lemma length_lstrip (s : pystr) : (length (lstrip s) <= length s)%nat.
Proof.
  induction s as [|c s IH]; simpl; [lia|].
  destruct (py_isspace c); simpl; lia.
Qed.

Lemma length_rstrip (s : pystr) : (length (rstrip s) <= length s)%nat.
Proof.
  unfold rstrip. rewrite length_rev.
  etransitivity; [apply length_lstrip|]. rewrite length_rev. lia.
Qed.

Lemma length_strip (s : pystr) : (length (strip s) <= length s)%nat.
Proof.
  unfold strip. etransitivity; [apply length_rstrip | apply length_lstrip].
Qed.

Lemma lstrip_no_space_head (s : pystr) : no_space_head (lstrip s).
Proof.
  induction s as [|c s IH]; simpl; [intros c; discriminate|].
  destruct (py_isspace c) eqn:Hc; [exact IH|].
  intros d [= <-]. exact Hc.
Qed.

Lemma lstrip_id (s : pystr) : no_space_head s -> lstrip s = s.
Proof.
  destruct s as [|c s]; [reflexivity|]. intros Hs. simpl.
  rewrite (Hs c eq_refl). reflexivity.
Qed.

Lemma lstrip_suffix (s : pystr) : exists p, s = p ++ lstrip s.
Proof.
  induction s as [|c s [p IH]]; simpl; [exists []; reflexivity|].
  destruct (py_isspace c).
  - exists (c :: p). simpl. f_equal. exact IH.
  - exists []. reflexivity.
Qed.

Lemma rstrip_prefix (s : pystr) : exists t, s = rstrip s ++ t.
Proof.
  unfold rstrip. destruct (lstrip_suffix (rev s)) as [p Hp].
  exists (rev p). rewrite <- rev_app_distr, <- Hp, rev_involutive. reflexivity.
Qed.

Lemma no_space_head_prefix (s q t : pystr) :
  no_space_head s -> s = q ++ t -> no_space_head q.
Proof.
  intros Hs -> c Hc. apply Hs. destruct q; [discriminate | exact Hc].
Qed.

Lemma strip_no_space_head (s : pystr) : no_space_head (strip s).
Proof.
  unfold strip. destruct (rstrip_prefix (lstrip s)) as [t Ht].
  exact (no_space_head_prefix _ _ _ (lstrip_no_space_head s) Ht).
Qed.

(** On a text without leading space, stripping a prefix of it gives a
    prefix of it. *)
Lemma strip_take_prefix (s : pystr) (n : nat) :
  no_space_head s -> exists t, s = strip (take n s) ++ t.
Proof.
  intros Hs. unfold strip.
  assert (Hq : no_space_head (take n s)).
  { apply (no_space_head_prefix s _ (drop n s) Hs). symmetry. apply take_drop. }
  rewrite (lstrip_id _ Hq).
  destruct (rstrip_prefix (take n s)) as [t Ht].
  exists (t ++ drop n s). rewrite app_assoc, <- Ht, take_drop. reflexivity.
Qed.

Lemma startswith_app_l (q t p : pystr) :
  startswith q p = true -> startswith (q ++ t) p = true.
Proof.
  intros Hq. apply startswith_prefix in Hq as [post ->].
  apply startswith_prefix. exists (post ++ t). rewrite app_assoc. reflexivity.
Qed.

Lemma startswith_length (s p : pystr) :
  startswith s p = true -> (length p <= length s)%nat.
Proof.
  intros Hs. apply startswith_prefix in Hs as [post ->].
  rewrite length_app. lia.
Qed.

Lemma endswith_length (s p : pystr) :
  endswith s p = true -> (length p <= length s)%nat.
Proof.
  unfold endswith. intros Hs. apply startswith_length in Hs.
  rewrite !length_rev in Hs. exact Hs.
Qed.

Lemma trim_prefixes_stops (fuel : nat) :
  forall s : pystr, (length s < fuel)%nat -> prefixes_trimmed (trim_prefixes fuel s).
Proof.
  induction fuel as [|f IH]; intros s Hlen; [lia|].
  cbn [trim_prefixes].
  destruct (startswith s (u "```")) eqn:H1.
  { apply IH. pose proof (length_strip (drop 3 s)).
    apply startswith_length in H1. rewrite length_drop in *.
    change (length (u "```")) with 3%nat in H1. lia. }
  destruct (startswith s [10]) eqn:H2.
  { apply IH. pose proof (length_strip (drop 1 s)).
    apply startswith_length in H2. rewrite length_drop in *. simpl in H2. lia. }
  destruct (startswith s [44]) eqn:H3.
  { apply IH. pose proof (length_strip (drop 1 s)).
    apply startswith_length in H3. rewrite length_drop in *. simpl in H3. lia. }
  destruct (startswith s [32] || startswith s [9]) eqn:H4.
  { apply IH. destruct s as [|c s]; [discriminate|].
    assert (Hc : py_isspace c = true).
    { cbn [startswith] in H4. rewrite !startswith_nil, !andb_true_r in H4.
      apply orb_true_iff in H4 as [H4|H4]; apply N.eqb_eq in H4; subst c;
        reflexivity. }
    simpl. rewrite Hc. pose proof (length_lstrip s). simpl in Hlen. lia. }
  apply orb_false_iff in H4 as [H4 H5].
  repeat split; assumption.
Qed.

Lemma trim_prefixes_no_space_head (fuel : nat) :
  forall s : pystr, no_space_head s -> no_space_head (trim_prefixes fuel s).
Proof.
  induction fuel as [|f IH]; intros s Hs; [exact Hs|].
  cbn [trim_prefixes].
  repeat (match goal with
          | |- context [if ?b then _ else _] => destruct b
          end);
    try exact Hs; apply IH;
    first [apply strip_no_space_head | apply lstrip_no_space_head].
Qed.

Lemma trim_suffixes_stops (fuel : nat) :
  forall s : pystr, (length s < fuel)%nat -> suffixes_trimmed (trim_suffixes fuel s).
Proof.
  induction fuel as [|f IH]; intros s Hlen; [lia|].
  cbn [trim_suffixes].
  destruct (endswith s (u "```")) eqn:H1.
  { apply IH. pose proof (length_strip (drop_end 3 s)).
    apply endswith_length in H1. unfold drop_end in *. rewrite length_take in *.
    change (length (u "```")) with 3%nat in H1. lia. }
  destruct (endswith s [10]) eqn:H2.
  { apply IH. pose proof (length_strip (drop_end 1 s)).
    apply endswith_length in H2. unfold drop_end in *. rewrite length_take in *.
    simpl in H2. lia. }
  destruct (endswith s [125]) eqn:H3.
  { apply IH. pose proof (length_strip (drop_end 1 s)).
    apply endswith_length in H3. unfold drop_end in *. rewrite length_take in *.
    simpl in H3. lia. }
  destruct (endswith s [32] || endswith s [9]) eqn:H4.
  { apply IH. unfold rstrip. rewrite length_rev.
    assert (Hc : exists c r, rev s = c :: r /\ py_isspace c = true).
    { unfold endswith in H4. destruct (rev s) as [|c r]; [discriminate|].
      exists c, r. split; [reflexivity|].
      cbn [rev app startswith] in H4.
      rewrite !startswith_nil, !andb_true_r in H4.
      apply orb_true_iff in H4 as [H4|H4]; apply N.eqb_eq in H4; subst c;
        reflexivity. }
    destruct Hc as (c & r & Hrev & Hc). rewrite Hrev. simpl. rewrite Hc.
    pose proof (length_lstrip r).
    assert (length s = S (length r)) by (rewrite <- length_rev, Hrev; reflexivity).
    lia. }
  apply orb_false_iff in H4 as [H4 H5].
  repeat split; assumption.
Qed.

Lemma trim_suffixes_prefix (fuel : nat) :
  forall s : pystr,
    no_space_head s -> exists t, s = trim_suffixes fuel s ++ t.
Proof.
  induction fuel as [|f IH]; intros s Hs;
    [exists []; rewrite app_nil_r; reflexivity|].
  cbn [trim_suffixes].
  assert (Hstep : forall n, exists t, s = trim_suffixes f (strip (take n s)) ++ t).
  { intros n. destruct (strip_take_prefix s n Hs) as [t1 Ht1].
    destruct (IH (strip (take n s)) (strip_no_space_head _)) as [t2 Ht2].
    exists (t2 ++ t1). rewrite app_assoc, <- Ht2. exact Ht1. }
  repeat (match goal with
          | |- context [if ?b then _ else _] => destruct b
          end);
    try apply Hstep.
  - destruct (rstrip_prefix s) as [t1 Ht1].
    assert (Hr : no_space_head (rstrip s))
      by exact (no_space_head_prefix _ _ _ Hs Ht1).
    destruct (IH (rstrip s) Hr) as [t2 Ht2].
    exists (t2 ++ t1). rewrite app_assoc, <- Ht2. exact Ht1.
  - exists []. rewrite app_nil_r. reflexivity.
Qed.

Lemma prefixes_trimmed_prefix (s q t : pystr) :
  prefixes_trimmed s -> s = q ++ t -> prefixes_trimmed q.
Proof.
  intros (H1 & H2 & H3 & H4 & H5) ->.
  repeat split; apply not_true_iff_false; intros Hq;
    apply (startswith_app_l q t) in Hq; congruence.
Qed.

(** X4.  The reply text recovered from a response is never blank; it
    does not start with a code fence, a newline, a comma, a space or a tab,
    and it does not end with a code fence, a newline, a closing brace, a
    space or a tab. *)
Theorem clean_reply_is_trimmed (response_text : pystr) :
  strip (clean_reply response_text) <> []
  /\ prefixes_trimmed (clean_reply response_text)
  /\ suffixes_trimmed (clean_reply response_text).
Proof.
  unfold clean_reply.
  set (t0 := strip (fold_left (fun t p => Re.sub p t) reply_patterns response_text)).
  set (p := trim_prefixes (S (length t0)) t0).
  set (q := trim_suffixes (S (length p)) p).
  destruct (strip q) as [|c r] eqn:Hq.
  - split; [vm_compute; discriminate|].
    split; vm_compute; repeat split; reflexivity.
  - split; [rewrite Hq; discriminate|].
    assert (Hp : prefixes_trimmed p) by (apply trim_prefixes_stops; lia).
    assert (Hn : no_space_head p)
      by (apply trim_prefixes_no_space_head, strip_no_space_head).
    split.
    + destruct (trim_suffixes_prefix (S (length p)) p Hn) as [t Ht].
      exact (prefixes_trimmed_prefix p q t Hp Ht).
    + apply trim_suffixes_stops. lia.
Qed.

(** * Further properties of the ranker *)

Section FilterExact.
Context {rt : PyRuntime}.

Lemma diet_mask_false_conflict (text : pystr) (diets : list pystr) :
  diet_mask text diets = false ->
  exists diet term,
    diet ∈ diets /\ term ∈ exclusion_vocabulary (lower diet)
    /\ contains text term = true.
Proof.
  induction diets as [|d rest IH]; [discriminate|].
  cbn [diet_mask]. unfold exclusion_vocabulary at 1.
  assert (Hrest : diet_mask text rest = false ->
            exists diet term, diet ∈ d :: rest
              /\ term ∈ exclusion_vocabulary (lower diet)
              /\ contains text term = true).
  { intros Hm. destruct (IH Hm) as (diet & term & Hd & Ht & Hc).
    exists diet, term. split; [right; exact Hd | split; assumption]. }
  assert (Hhit : forall vocabulary,
            exclusion_vocabulary (lower d) = vocabulary ->
            any (fun term => contains text term) vocabulary = true ->
            exists diet term, diet ∈ d :: rest
              /\ term ∈ exclusion_vocabulary (lower diet)
              /\ contains text term = true).
  { intros vocabulary Hv Hany.
    apply existsb_exists in Hany as (term & Hin & Hc).
    exists d, term. split; [left|]. rewrite Hv.
    split; [apply list_elem_of_In, Hin | exact Hc]. }
  unfold exclusion_vocabulary in Hhit.
  destruct (pystr_eqb (lower d) (u "vegetarian")).
  - destruct (any _ meat_terms) eqn:Hany; [|exact Hrest].
    intros _. exact (Hhit meat_terms eq_refl Hany).
  - destruct (pystr_eqb (lower d) (u "vegan")); [|exact Hrest].
    destruct (any _ non_vegan) eqn:Hany; [|exact Hrest].
    intros _. exact (Hhit non_vegan eq_refl Hany).
Qed.

Lemma item_mask_false_conflict (constraints : Constraints.t)
    (item : MenuItem.t) :
  item_mask constraints item = false ->
  allergen_conflict constraints item \/ diet_conflict constraints item.
Proof.
  unfold item_mask.
  destruct (_ && any _ _) eqn:Hallergen.
  - intros _. left.
    apply andb_true_iff in Hallergen as [_ Hany].
    apply existsb_exists in Hany as (a & Ha & Hin).
    apply bool_decide_eq_true, list_elem_of_In, in_map_iff in Hin
      as (b & Hb & Hin).
    exists a, b.
    split; [apply list_elem_of_In, Ha|].
    split; [apply list_elem_of_In, Hin | symmetry; exact Hb].
  - destruct (default [] (Constraints.diet constraints)) as [|d ds] eqn:Hds;
      [discriminate|].
    intros Hmask. right.
    destruct (diet_mask_false_conflict _ _ Hmask) as (diet & term & Hd & Ht & Hc).
    exists diet, term. rewrite Hds. split; [exact Hd | split; assumption].
Qed.

(** X5.  The mask of the hard filter has one entry per item, and the
    entry of an item is false exactly when the item has an allergen conflict
    or a diet conflict with the constraints: nothing else is masked. *)
Theorem apply_constraints_filter_exact (items : list MenuItem.t)
    (constraints : Constraints.t) (i : nat) (item : MenuItem.t) :
  items !! i = Some item ->
  (apply_constraints_filter items constraints !! i = Some false
   <-> allergen_conflict constraints item \/ diet_conflict constraints item)
  /\ length (apply_constraints_filter items constraints) = length items.
Proof.
  intros Hitem. unfold apply_constraints_filter.
  rewrite map_lookup, Hitem, length_map. cbn.
  split; [|reflexivity]. split.
  - intros [= Hmask]. apply item_mask_false_conflict, Hmask.
  - intros Hconflict. f_equal.
    destruct (item_mask constraints item) eqn:Hmask; [|reflexivity].
    apply item_mask_no_conflict in Hmask as [Ha Hd].
    destruct Hconflict; contradiction.
Qed.

End FilterExact.

Lemma apply_constraints_filter_exact_witness :
  let constraints := Constraints.mk None (Some [u "peanut"]) None in
  apply_constraints_filter (rt := ascii_runtime) [salad; satay] constraints
    !! 1%nat = Some false
  /\ (allergen_conflict (rt := ascii_runtime) constraints satay
      \/ diet_conflict (rt := ascii_runtime) constraints satay).
Proof.
  intros constraints.
  assert (Hmask : apply_constraints_filter (rt := ascii_runtime)
                    [salad; satay] constraints !! 1%nat = Some false)
    by (vm_compute; reflexivity).
  split; [exact Hmask|].
  apply (proj1 (@apply_constraints_filter_exact ascii_runtime [salad; satay]
                  constraints 1 satay eq_refl)).
  exact Hmask.
Defined.

(** The best indices. *)

Lemma StronglySorted_app_order {A} (R : A -> A -> Prop) (l1 l2 : list A)
    (x y : A) :
  StronglySorted R (l1 ++ l2) -> x ∈ l1 -> y ∈ l2 -> R x y.
Proof.
  induction l1 as [|z l1 IH]; intros Hs Hx Hy; [inversion Hx|].
  cbn [app] in Hs. apply StronglySorted_inv in Hs as [Hs Hz].
  apply elem_of_cons in Hx as [->|Hx].
  - rewrite Forall_forall in Hz. apply Hz, elem_of_app. right. exact Hy.
  - apply IH; assumption.
Qed.

Lemma rev_argsort_elem (scores : list Q) (i : nat) :
  i ∈ rev (argsort scores) <-> (i < length scores)%nat.
Proof.
  rewrite list_elem_of_In, <- in_rev, <- list_elem_of_In, (argsort_perm scores).
  rewrite list_elem_of_In, in_seq. lia.
Qed.

(** X6.  The indices the ranker keeps are the best ones: an index in
    range that has a non-negative score and is not kept has a score at most
    that of every kept index. *)
Theorem valid_indices_are_best (scores : list Q) (top_k : Z) (i j : nat) :
  i ∈ valid_indices scores top_k ->
  (j < length scores)%nat ->
  j ∉ valid_indices scores top_k ->
  (0 <= score_at scores j)%Q ->
  (score_at scores j <= score_at scores i)%Q.
Proof.
  unfold valid_indices.
  destruct (slice_to_prefix (rev (argsort scores)) top_k) as [n ->].
  intros Hi Hj Hnot Hge.
  apply list_elem_of_In, filter_In in Hi as [Hi _].
  apply list_elem_of_In in Hi.
  assert (Hdrop : j ∈ drop n (rev (argsort scores))).
  { apply rev_argsort_elem in Hj.
    rewrite <- (take_drop n (rev (argsort scores))) in Hj.
    apply elem_of_app in Hj as [Hj|Hj]; [|exact Hj].
    exfalso. apply Hnot, list_elem_of_In, filter_In.
    split; [apply list_elem_of_In, Hj | apply Qle_bool_iff, Hge]. }
  assert (Hsorted : StronglySorted (descending scores)
                      (take n (rev (argsort scores))
                       ++ drop n (rev (argsort scores)))).
  { rewrite take_drop.
    apply (StronglySorted_rev_flip (ascending scores)), argsort_sorted. }
  exact (StronglySorted_app_order _ _ _ i j Hsorted Hi Hdrop).
Qed.

Lemma valid_indices_are_best_witness :
  let scores := [(1 # 2)%Q; 1%Q; 0%Q] in
  valid_indices scores 2 = [1%nat; 0%nat]
  /\ (score_at scores 2 <= score_at scores 0)%Q.
Proof.
  intros scores. split; [vm_compute; reflexivity|].
  apply (valid_indices_are_best scores 2 0 2).
  - vm_compute. right. left.
  - simpl. lia.
  - rewrite list_elem_of_In. vm_compute. intuition discriminate.
  - vm_compute. discriminate.
Defined.

Lemma select_complete {A} (l : list A) (indices : list nat) (out : list A)
    (i : nat) (x : A) :
  select l indices = Ok out -> i ∈ indices -> l !! i = Some x -> x ∈ out.
Proof.
  revert out. induction indices as [|j r IH]; intros out Hsel Hi Hx.
  - inversion Hi.
  - cbn [select] in Hsel.
    destruct (l !! j) as [y|] eqn:Hj; [|discriminate].
    apply bind_Ok_inv in Hsel as (rest & Hrest & [= <-]).
    apply elem_of_cons in Hi as [->|Hi].
    + rewrite Hx in Hj. injection Hj as ->. left.
    + right. exact (IH rest Hrest Hi Hx).
Qed.

Lemma valid_indices_all (scores : list Q) (top_k : Z) (i : nat) :
  (Z.of_nat (length scores) <= top_k)%Z ->
  (i < length scores)%nat ->
  (0 <= score_at scores i)%Q ->
  i ∈ valid_indices scores top_k.
Proof.
  intros Hk Hi Hge. unfold valid_indices, slice_to.
  destruct (0 <=? top_k)%Z eqn:Hsign; [|apply Z.leb_gt in Hsign; lia].
  rewrite firstn_all2.
  - apply list_elem_of_In, filter_In. split.
    + apply list_elem_of_In, rev_argsort_elem, Hi.
    + apply Qle_bool_iff, Hge.
  - rewrite length_rev, (Permutation_length (argsort_perm scores)), length_seq.
    lia.
Qed.

Section RankAll.
Context {rt : PyRuntime} (sv : Services).

(** X7.  When [top_k] is at least the number of scores, every item
    whose adjusted score is non-negative is returned. *)
Theorem rank_candidates_returns_every_nonnegative (fs fs1 fs2 : storage)
    (menu_json : MenuJSON.t) (query_keywords : list pystr)
    (constraints : Constraints.t) (top_k : Z) (scores : list Q)
    (out : list MenuItem.t) (i : nat) (item : MenuItem.t) :
  final_scores sv fs menu_json query_keywords constraints = (Ok scores, fs1) ->
  rank_candidates sv fs menu_json query_keywords constraints top_k
  = (Ok out, fs2) ->
  (Z.of_nat (length scores) <= top_k)%Z ->
  MenuJSON.items menu_json !! i = Some item ->
  (i < length scores)%nat ->
  (0 <= score_at scores i)%Q ->
  item ∈ out.
Proof.
  intros Hscores Hrank Hk Hitem Hi Hge.
  apply rank_candidates_inv in Hrank as [[Hnil _]|(scores' & Hscores' & Hsel)].
  - rewrite Hnil in Hitem. discriminate.
  - rewrite Hscores in Hscores'. injection Hscores' as <- _.
    apply (select_complete _ _ _ i item Hsel); [|exact Hitem].
    apply valid_indices_all; assumption.
Qed.

End RankAll.

(** The price penalty. *)

Section Damp.
Context {rt : PyRuntime}.

Lemma damp_expensive_inv (items : list MenuItem.t) (i : nat)
    (sims sims' : list Q) :
  damp_expensive items i sims = Ok sims' ->
  length sims' = length sims
  /\ (forall j, (j < i)%nat -> sims' !! j = sims !! j)
  /\ (forall j s, sims !! j = Some s ->
        sims' !! j = Some s \/ sims' !! j = Some (s * 0.7)%Q).
Proof.
  revert i sims. induction items as [|item rest IH]; intros i sims.
  - intros [= <-]. split; [reflexivity|]. split; [reflexivity|].
    intros j s Hs. left. exact Hs.
  - cbn [damp_expensive].
    destruct (_ && _).
    + destruct (sims !! i) as [s0|] eqn:Hi; [|discriminate].
      intros Hrest. apply IH in Hrest as (Hlen & Hbefore & Hstep).
      rewrite length_insert in Hlen.
      split; [exact Hlen|]. split.
      * intros j Hj. rewrite Hbefore by lia.
        apply list_lookup_insert_ne. lia.
      * intros j s Hs.
        destruct (decide (j = i)) as [->|Hne].
        -- right. rewrite Hbefore by lia.
           rewrite Hi in Hs. injection Hs as ->.
           apply list_lookup_insert_eq, lookup_lt_Some with (x := s), Hi.
        -- apply Hstep. rewrite list_lookup_insert_ne by congruence. exact Hs.
    + intros Hrest. apply IH in Hrest as (Hlen & Hbefore & Hstep).
      split; [exact Hlen|]. split; [|exact Hstep].
      intros j Hj. apply Hbefore. lia.
Qed.

(** X8.  The price penalty keeps the number of scores, every score stays
    as it is or is multiplied by 0.7 once, and a score is non-negative after
    the penalty exactly when it was before: the penalty never makes an item
    fail the test on the sign of its score.  (It can move an item out of
    the first [top_k], see [damp_expensive_can_leave_top_k].) *)
Theorem damp_expensive_keeps_sign (items : list MenuItem.t)
    (similarities damped : list Q) :
  damp_expensive items 0 similarities = Ok damped ->
  length damped = length similarities
  /\ forall j,
       ((score_at damped j == score_at similarities j)%Q
        \/ (score_at damped j == score_at similarities j * 0.7)%Q)
       /\ ((0 <= score_at damped j)%Q <-> (0 <= score_at similarities j)%Q).
Proof.
  intros Hd. apply damp_expensive_inv in Hd as (Hlen & _ & Hstep).
  split; [exact Hlen|]. intros j.
  assert (Hcases : (score_at damped j == score_at similarities j)%Q
            \/ (score_at damped j == score_at similarities j * 0.7)%Q).
  { destruct (similarities !! j) as [s|] eqn:Hs.
    - rewrite (score_at_lookup _ _ _ Hs).
      destruct (Hstep j s Hs) as [Hd|Hd];
        rewrite (score_at_lookup _ _ _ Hd); [left|right]; reflexivity.
    - left. unfold score_at.
      apply lookup_ge_None in Hs.
      rewrite !nth_overflow by lia. reflexivity. }
  split; [exact Hcases|].
  destruct Hcases as [->| ->]; [reflexivity|].
  split; intros H.
  - apply (Qmult_le_r _ _ 0.7); [reflexivity|]. rewrite Qmult_0_l. exact H.
  - apply Qmult_le_0_compat; [exact H | discriminate].
Qed.

End Damp.

Lemma damp_expensive_keeps_sign_witness :
  damp_expensive (rt := ascii_runtime) [salad; satay] 0 [1%Q; 1%Q]
  = Ok [1%Q; (1 * 0.7)%Q]
  /\ length [1%Q; (1 * 0.7)%Q] = 2%nat.
Proof.
  assert (Hd : damp_expensive (rt := ascii_runtime) [salad; satay] 0 [1%Q; 1%Q]
               = Ok [1%Q; (1 * 0.7)%Q]) by (vm_compute; reflexivity).
  split; [exact Hd|].
  exact (proj1 (@damp_expensive_keeps_sign ascii_runtime [salad; satay]
                  [1%Q; 1%Q] [1%Q; (1 * 0.7)%Q] Hd)).
Defined.

(** The penalty changes the ranks: with [top_k = 2] the expensive satay is
    among the kept indices before the penalty and not after it. *)
Lemma damp_expensive_can_leave_top_k :
  let similarities := [(9 # 10)%Q; (8 # 10)%Q; (7 # 10)%Q] in
  valid_indices similarities 2 = [0%nat; 1%nat]
  /\ exists damped,
       damp_expensive (rt := ascii_runtime) [satay; salad; soup] 0 similarities
       = Ok damped
       /\ valid_indices damped 2 = [1%nat; 2%nat].
Proof.
  intros similarities. split; [vm_compute; reflexivity|].
  eexists. split; vm_compute; reflexivity.
Qed.

(** * The embedding cache *)

Section Cache.
Context {rt : PyRuntime}.

(** X9.  Round trip through the cache: after a call of
    [load_or_compute_embeddings] that returned a matrix, when the cache file
    of the menu can be written, the next call returns the same matrix and
    leaves the directory as it is, whatever the embedding service would
    answer: the service is not asked again. *)
Theorem load_or_compute_embeddings_round_trip (sv sv' : Services)
    (fs fs' : storage) (menu_json : MenuJSON.t) (force_recompute : bool)
    (m : matrix) :
  load_or_compute_embeddings sv fs menu_json force_recompute = (Ok m, fs') ->
  can_write sv (get_embedding_cache_path menu_json default_base_dir) = true ->
  load_or_compute_embeddings sv' fs' menu_json false = (Ok m, fs').
Proof.
  unfold load_or_compute_embeddings. intros Hload Hwrite.
  rewrite Hwrite in Hload.
  set (cache_path := get_embedding_cache_path menu_json default_base_dir) in *.
  assert (Hcompute :
    match embed sv (List.map build_item_text (MenuJSON.items menu_json)) with
    | Raise => (Raise, fs)
    | Ok embeddings => (Ok embeddings, <[cache_path := Npy embeddings]> fs)
    end = (Ok m, fs') -> fs' !! cache_path = Some (Npy m)).
  { destruct (embed sv _) as [e|]; [|discriminate].
    intros [= <- <-]. apply lookup_insert_eq. }
  assert (Hentry : fs' !! cache_path = Some (Npy m)).
  { destruct force_recompute; [exact (Hcompute Hload)|].
    destruct (fs !! cache_path) as [[m0|]|] eqn:Hfs;
      [|exact (Hcompute Hload)..].
    injection Hload as <- <-. exact Hfs. }
  rewrite Hentry. reflexivity.
Qed.

Lemma rank_candidates_storage (sv : Services) (fs : storage)
    (menu_json : MenuJSON.t) (query_keywords : list pystr)
    (constraints : Constraints.t) (top_k : Z) :
  let after :=
    (rank_candidates sv fs menu_json query_keywords constraints top_k).2 in
  let cache_path := get_embedding_cache_path menu_json default_base_dir in
  after = fs
  \/ exists embeddings,
       embed sv (List.map build_item_text (MenuJSON.items menu_json))
       = Ok embeddings
       /\ can_write sv cache_path = true
       /\ after = <[cache_path := Npy embeddings]> fs.
Proof.
  intros after cache_path.
  subst after. unfold rank_candidates.
  destruct (MenuJSON.items menu_json) as [|item items] eqn:Hitems;
    [left; reflexivity|].
  rewrite <- Hitems.
  unfold final_scores, load_or_compute_embeddings.
  fold cache_path.
  assert (Hcompute : forall (pair : result matrix * storage),
    pair = match embed sv (List.map build_item_text (MenuJSON.items menu_json)) with
           | Raise => (Raise, fs)
           | Ok embeddings =>
             (Ok embeddings,
              if can_write sv cache_path
              then <[cache_path := Npy embeddings]> fs else fs)
           end ->
    pair.2 = fs
    \/ exists embeddings,
         embed sv (List.map build_item_text (MenuJSON.items menu_json))
         = Ok embeddings
         /\ can_write sv cache_path = true
         /\ pair.2 = <[cache_path := Npy embeddings]> fs).
  { intros pair ->.
    destruct (embed sv _) as [e|]; [|left; reflexivity].
    destruct (can_write sv cache_path) eqn:Hw; [|left; reflexivity].
    right. exists e. split; [reflexivity | split; reflexivity]. }
  destruct (fs !! cache_path) as [[m0|]|];
    [left; reflexivity| |].
  all: match goal with
       | |- context [let '(_, _) := ?p in _] =>
         specialize (Hcompute p eq_refl); destruct p as [loaded fs1]
       end; exact Hcompute.
Qed.

Lemma rank_candidates_frame (sv : Services) (fs : storage)
    (menu_json : MenuJSON.t) (query_keywords : list pystr)
    (constraints : Constraints.t) (top_k : Z) (path : pystr) :
  path <> get_embedding_cache_path menu_json default_base_dir ->
  (rank_candidates sv fs menu_json query_keywords constraints top_k).2 !! path
  = fs !! path.
Proof.
  intros Hne.
  destruct (rank_candidates_storage sv fs menu_json query_keywords constraints
              top_k) as [->|(e & _ & _ & ->)]; [reflexivity|].
  apply lookup_insert_ne. congruence.
Qed.

(** X10.  [rank_candidates] leaves the cache directory as it is, or
    writes the embeddings the service computed at the cache path of the
    menu; every other path of the directory keeps its content. *)
Theorem rank_candidates_writes_one_entry (sv : Services) (fs : storage)
    (menu_json : MenuJSON.t) (query_keywords : list pystr)
    (constraints : Constraints.t) (top_k : Z) :
  let after :=
    (rank_candidates sv fs menu_json query_keywords constraints top_k).2 in
  let cache_path := get_embedding_cache_path menu_json default_base_dir in
  (after = fs
   \/ exists embeddings,
        embed sv (List.map build_item_text (MenuJSON.items menu_json))
        = Ok embeddings
        /\ can_write sv cache_path = true
        /\ after = <[cache_path := Npy embeddings]> fs)
  /\ forall path, path <> cache_path -> after !! path = fs !! path.
Proof.
  intros after cache_path. split.
  - apply rank_candidates_storage.
  - intros path Hne. apply rank_candidates_frame, Hne.
Qed.

End Cache.

Lemma load_or_compute_embeddings_round_trip_witness :
  let first :=
    load_or_compute_embeddings (rt := ascii_runtime) demo_services ∅
      (demo_menu [salad; toast]) false in
  first.1 = Ok [[1%Q; 0%Q]; [(-3 # 5)%Q; (4 # 5)%Q]]
  /\ (load_or_compute_embeddings (rt := ascii_runtime) demo_services first.2
        (demo_menu [salad; toast]) false).1
     = Ok [[1%Q; 0%Q]; [(-3 # 5)%Q; (4 # 5)%Q]].
Proof.
  intros first.
  assert (Hfirst : first.1 = Ok [[1%Q; 0%Q]; [(-3 # 5)%Q; (4 # 5)%Q]])
    by (vm_compute; reflexivity).
  split; [exact Hfirst|].
  rewrite (@load_or_compute_embeddings_round_trip ascii_runtime demo_services
             demo_services ∅ first.2 (demo_menu [salad; toast]) false
             _ (pair_eta_fst _ _ Hfirst) eq_refl).
  reflexivity.
Defined.

Lemma rank_candidates_returns_every_nonnegative_witness :
  let scored :=
    final_scores (rt := ascii_runtime) demo_services ∅
      (demo_menu [toast; salad]) [u "fresh"] no_constraints in
  let ranked :=
    rank_candidates (rt := ascii_runtime) demo_services ∅
      (demo_menu [toast; salad]) [u "fresh"] no_constraints 8 in
  scored.1 = Ok [(-3 # 5)%Q; 1%Q]
  /\ ranked.1 = Ok [salad]
  /\ salad ∈ [salad].
Proof.
  intros scored ranked.
  assert (Hscored : scored.1 = Ok [(-3 # 5)%Q; 1%Q])
    by (vm_compute; reflexivity).
  assert (Hranked : ranked.1 = Ok [salad]) by (vm_compute; reflexivity).
  split; [exact Hscored|]. split; [exact Hranked|].
  apply (@rank_candidates_returns_every_nonnegative ascii_runtime demo_services
           ∅ scored.2 ranked.2 (demo_menu [toast; salad]) [u "fresh"]
           no_constraints 8 [(-3 # 5)%Q; 1%Q] [salad] 1 salad).
  - apply pair_eta_fst, Hscored.
  - apply pair_eta_fst, Hranked.
  - simpl. lia.
  - reflexivity.
  - simpl. lia.
  - vm_compute. discriminate.
Defined.

Lemma rank_candidates_writes_one_entry_witness :
  (rank_candidates (rt := ascii_runtime) demo_services
     {[u "opt/menu_content/other.emb.npy" := Unreadable]}
     (demo_menu [salad; soup]) [u "fresh"] no_constraints 8).2
  !! u "opt/menu_content/other.emb.npy"
  = Some Unreadable.
Proof.
  rewrite (proj2 (@rank_candidates_writes_one_entry ascii_runtime demo_services
                    {[u "opt/menu_content/other.emb.npy" := Unreadable]}
                    (demo_menu [salad; soup]) [u "fresh"] no_constraints 8)).
  - apply lookup_singleton_eq.
  - vm_compute. discriminate.
Defined.

(** * Further properties of the agent *)

Lemma last_n_app {A} (n : nat) (older recent : list A) :
  (n <= length recent)%nat -> last_n n (older ++ recent) = last_n n recent.
Proof.
  intros Hn. unfold last_n. rewrite length_app.
  rewrite drop_app.
  rewrite drop_ge by lia. cbn [app]. f_equal. lia.
Qed.

Lemma fold_left_text_prefix {A} (f : A -> pystr) (l : list A) (init : pystr) :
  exists post,
    fold_left (fun text x => text ++ [32] ++ f x) l init = init ++ post.
Proof.
  revert init. induction l as [|x l IH]; intros init; cbn [fold_left].
  - exists []. rewrite app_nil_r. reflexivity.
  - destruct (IH (init ++ [32] ++ f x)) as [post ->].
    exists ([32] ++ f x ++ post). rewrite <- !app_assoc. reflexivity.
Qed.

Lemma fold_left_text_part {A} (f : A -> pystr) (l : list A) (init : pystr)
    (x : A) :
  x ∈ l ->
  exists pre post,
    fold_left (fun text x => text ++ [32] ++ f x) l init = pre ++ f x ++ post.
Proof.
  revert init. induction l as [|y l IH]; intros init Hx; [inversion Hx|].
  cbn [fold_left]. apply elem_of_cons in Hx as [->|Hx].
  - destruct (fold_left_text_prefix f l (init ++ [32] ++ f y)) as [post ->].
    exists (init ++ [32]), post. rewrite <- !app_assoc. reflexivity.
  - apply IH, Hx.
Qed.

Lemma contains_app (pre s post needle : pystr) :
  contains s needle = true -> contains (pre ++ s ++ post) needle = true.
Proof.
  rewrite !contains_split. intros (a & b & ->).
  exists (pre ++ a), (b ++ post). rewrite <- !app_assoc. reflexivity.
Qed.

Section Intent.
Context {rt : PyRuntime}.

(** X11.  The intent signal reads the last three turns of the history
    only: turns before them do not change it. *)
Theorem check_food_intent_last_three (older recent : list ChatTurn.t)
    (user_message : pystr) :
  (3 <= length recent)%nat ->
  check_food_intent (older ++ recent) user_message
  = check_food_intent recent user_message.
Proof.
  intros Hlen. unfold check_food_intent.
  rewrite (last_n_app 3 older recent Hlen). reflexivity.
Qed.

(** X12.  One delegation phrase or food keyword in the lower-cased
    message, or in the lower-cased content of one of the last three turns,
    of any role, makes the intent signal true. *)
Theorem check_food_intent_one_phrase (history : list ChatTurn.t)
    (user_message phrase : pystr) :
  phrase ∈ delegation_phrases \/ phrase ∈ intent_keywords ->
  contains (lower user_message) phrase = true
  \/ (exists turn, turn ∈ last_n 3 history
        /\ contains (lower (ChatTurn.content turn)) phrase = true) ->
  check_food_intent history user_message = true.
Proof.
  intros Hphrase Hheld. unfold check_food_intent.
  set (all_text := fold_left _ _ _).
  assert (Hall : contains all_text phrase = true).
  { destruct Hheld as [Hmsg|(turn & Hturn & Hc)].
    - destruct (fold_left_text_prefix
                  (fun turn => lower (ChatTurn.content turn))
                  (last_n 3 history) (lower user_message)) as [post Hpost].
      subst all_text. rewrite Hpost.
      apply (contains_app [] _ post), Hmsg.
    - destruct (fold_left_text_part
                  (fun turn => lower (ChatTurn.content turn))
                  (last_n 3 history) (lower user_message) turn Hturn)
        as (pre & post & Hparts).
      subst all_text. rewrite Hparts.
      apply contains_app, Hc. }
  destruct (any _ delegation_phrases) eqn:Hd; [reflexivity|].
  destruct (any _ intent_keywords) eqn:Hk; [reflexivity|].
  exfalso.
  destruct Hphrase as [Hin|Hin]; apply list_elem_of_In in Hin.
  - assert (Ht : any (fun phrase => contains all_text phrase) delegation_phrases
                 = true)
      by (apply existsb_exists; exists phrase; split; assumption).
    rewrite Ht in Hd. discriminate.
  - assert (Ht : any (fun keyword => contains all_text keyword) intent_keywords
                 = true)
      by (apply existsb_exists; exists phrase; split; assumption).
    rewrite Ht in Hk. discriminate.
Qed.

End Intent.

Lemma check_food_intent_last_three_witness :
  let recent :=
    [ChatTurn.mk (u "user") (u "hi"); ChatTurn.mk (u "assistant") (u "welcome");
     ChatTurn.mk (u "user") (u "thanks")] in
  check_food_intent (rt := ascii_runtime)
    ([ChatTurn.mk (u "user") (u "a salad please")] ++ recent) (u "hello")
  = check_food_intent (rt := ascii_runtime) recent (u "hello").
Proof.
  intros recent.
  apply (@check_food_intent_last_three ascii_runtime
           [ChatTurn.mk (u "user") (u "a salad please")] recent (u "hello")).
  simpl. lia.
Defined.

Lemma check_food_intent_one_phrase_witness :
  check_food_intent (rt := ascii_runtime)
    [ChatTurn.mk (u "assistant") (u "Our Salad is fresh today")] (u "hello")
  = true.
Proof.
  apply (@check_food_intent_one_phrase ascii_runtime
           [ChatTurn.mk (u "assistant") (u "Our Salad is fresh today")]
           (u "hello") (u "salad")).
  - right. rewrite list_elem_of_In. vm_compute. tauto.
  - right. exists (ChatTurn.mk (u "assistant") (u "Our Salad is fresh today")).
    split; [left | vm_compute; reflexivity].
Defined.

Section Prompt.
Context {rt : PyRuntime}.

(** X13.  The system prompt shows the first three candidates at most,
    and of each only its name, price, allergens, first five keywords and
    first three ingredients: two candidate lists that agree on these give
    the same prompt. *)
Theorem build_system_prompt_shows_three (self : UnifiedWaitressAgent.t)
    (candidates candidates' : list MenuItem.t) :
  List.map shown_fields (take 3 candidates)
  = List.map shown_fields (take 3 candidates') ->
  build_system_prompt self (Some candidates)
  = build_system_prompt self (Some candidates').
Proof.
  intros Hshown. unfold build_system_prompt. f_equal.
  set (entry := fun item : MenuItem.t => JDict _).
  assert (Hentry : forall l l' : list MenuItem.t,
            List.map shown_fields l = List.map shown_fields l' ->
            List.map entry l = List.map entry l').
  { induction l as [|x l IH]; intros [|x' l']; try discriminate;
      [reflexivity|].
    cbn [List.map]. intros [= Hn Hp Hk Ha Hi Hrest].
    f_equal; [|apply IH, Hrest].
    subst entry. cbn beta. rewrite Hn, Hp, Hk, Ha, Hi. reflexivity. }
  destruct candidates as [|c cs], candidates' as [|c' cs'];
    [reflexivity | discriminate | discriminate |].
  do 2 f_equal. apply Hentry, Hshown.
Qed.

End Prompt.

Lemma build_system_prompt_shows_three_witness :
  build_system_prompt (rt := ascii_runtime) demo_agent
    (Some [salad; satay; soup; toast])
  = build_system_prompt (rt := ascii_runtime) demo_agent
      (Some [salad; satay; soup]).
Proof.
  apply (@build_system_prompt_shows_three ascii_runtime demo_agent
           [salad; satay; soup; toast] [salad; satay; soup]).
  reflexivity.
Defined.

Section Respond.
Context {rt : PyRuntime} (sv : Services) (client : Client).
Context (self : UnifiedWaitressAgent.t).

Lemma lookup_candidates_from_menu (fs fs' : storage) (keywords : list pystr)
    (constraints : Constraints.t) (found : list MenuItem.t) :
  lookup_candidates sv self fs keywords constraints = (found, fs') ->
  (length found <= 8)%nat
  /\ forall item, item ∈ found ->
       item ∈ MenuJSON.items (UnifiedWaitressAgent.menu self).
Proof.
  unfold lookup_candidates.
  destruct (rank_candidates sv fs _ keywords constraints 8)
    as [[out|] fs''] eqn:Hrank.
  - intros [= <- <-].
    apply rank_candidates_inv in Hrank as [[_ ->]|(scores & _ & Hsel)].
    + split; [simpl; lia | intros item Hin; inversion Hin].
    + split.
      * rewrite (select_length _ _ _ Hsel).
        pose proof (valid_indices_length scores 8 ltac:(lia)). lia.
      * intros item Hin.
        destruct (select_elem _ _ _ _ Hsel Hin) as (i & _ & Hi).
        exact (list_elem_of_lookup_2 _ _ _ Hi).
  - intros [= <- <-]. split; [simpl; lia | intros item Hin; inversion Hin].
Qed.

Lemma eq_str_finalize_not_lookup (a : json) :
  eq_str a (u "FINALIZE") = true ->
  any (eq_str a) [u "LOOKUP"; u "RECOMMEND"; u "REFINE"] = false.
Proof.
  destruct a as [| | | |t| |]; try discriminate.
  unfold eq_str, pystr_eqb. intros Ht. apply bool_decide_eq_true in Ht.
  subst t. vm_compute. reflexivity.
Qed.

(** X14.  A turn with candidates has passed both gates: the intent
    signal is true and the action is LOOKUP, RECOMMEND or REFINE.  Such a
    turn carries no order, has sent three requests, and its candidates are
    at most eight items of the agent's menu. *)
Theorem respond_candidates_are_grounded (fs : storage)
    (history : list ChatTurn.t) (user_message : pystr) :
  let turn := respond sv client self fs history user_message in
  candidates turn <> [] ->
  check_food_intent history user_message = true
  /\ any (eq_str (action turn)) [u "LOOKUP"; u "RECOMMEND"; u "REFINE"] = true
  /\ maybe_order turn = None
  /\ length (requests turn) = 3%nat
  /\ (length (candidates turn) <= 8)%nat
  /\ forall item, item ∈ candidates turn ->
       item ∈ MenuJSON.items (UnifiedWaitressAgent.menu self).
Proof.
  intros turn. subst turn. unfold respond.
  destruct (chat_completion client 0 _ _) as [content|];
    [|intros H; contradiction H; reflexivity].
  destruct (parse_action_from_response (strip content)) as [action_dict reply].
  set (act := action_of action_dict).
  destruct (any (eq_str act) _) eqn:Hact;
    destruct (check_food_intent history user_message) eqn:Hintent;
    cbn [andb].
  2-4: destruct (eq_str act (u "FINALIZE"));
       intros H; contradiction H; reflexivity.
  destruct (lookup_candidates _ _ _ _ _) as [found fs'] eqn:Hfound.
  apply lookup_candidates_from_menu in Hfound as [Hlen Hmenu].
  destruct found as [|c found]; [intros H; contradiction H; reflexivity|].
  destruct (chat_completion client 2 _ _) as [content'|];
    [|intros H; contradiction H; reflexivity].
  destruct (parse_action_from_response (strip content')) as [d reply'].
  cbn [candidates action maybe_order requests]. intros _.
  repeat split; [exact Hact | exact Hlen | exact Hmenu].
Qed.

Lemma ask_is_not_finalize : eq_str (JStr (u "ASK")) (u "FINALIZE") = false.
Proof. vm_compute. reflexivity. Qed.

(** X15.  A turn whose action is FINALIZE always carries an order,
    has no candidates, has sent the first request only and leaves the cache
    directory alone, whatever the history and the message: the intent signal
    is not consulted for it. *)
Theorem respond_finalize_always_orders (fs : storage)
    (history : list ChatTurn.t) (user_message : pystr) :
  let turn := respond sv client self fs history user_message in
  eq_str (action turn) (u "FINALIZE") = true ->
  maybe_order turn = Some (finalize_order client self [u "Example Item"])
  /\ candidates turn = []
  /\ requests turn
     = [(build_system_prompt self None,
         conversation_context history user_message)]
  /\ cache turn = fs.
Proof.
  intros turn. subst turn. unfold respond.
  destruct (chat_completion client 0 _ _) as [content|];
    [|cbn [action turn_failed]; rewrite ask_is_not_finalize; discriminate].
  destruct (parse_action_from_response (strip content)) as [action_dict reply].
  set (act := action_of action_dict).
  destruct (eq_str act (u "FINALIZE")) eqn:Hfin.
  - rewrite (eq_str_finalize_not_lookup act Hfin). cbn [andb].
    intros _. repeat split; reflexivity.
  - destruct (any (eq_str act) _ && _).
    + destruct (lookup_candidates _ _ _ _ _) as [found fs'].
      destruct found as [|c found].
      * cbn [action]. rewrite Hfin. discriminate.
      * destruct (chat_completion client 2 _ _) as [content'|].
        -- destruct (parse_action_from_response (strip content')).
           cbn [action]. rewrite Hfin. discriminate.
        -- cbn [action turn_failed]. rewrite ask_is_not_finalize.
           discriminate.
    + cbn [action]. rewrite Hfin. discriminate.
Qed.

End Respond.

Lemma respond_candidates_are_grounded_witness :
  let turn :=
    respond (rt := ascii_runtime) demo_services
      (constant_client recommend_answer) demo_agent ∅ []
      (u "please recommend something") in
  candidates turn = [soup; satay; salad]
  /\ check_food_intent (rt := ascii_runtime) [] (u "please recommend something")
     = true
  /\ length (requests turn) = 3%nat.
Proof.
  intros turn.
  assert (Hfound : candidates turn = [soup; satay; salad])
    by (vm_compute; reflexivity).
  split; [exact Hfound|].
  assert (Hne : candidates turn <> []) by (rewrite Hfound; discriminate).
  pose proof (@respond_candidates_are_grounded ascii_runtime demo_services
                (constant_client recommend_answer) demo_agent ∅ []
                (u "please recommend something") Hne) as (Hi & _ & _ & Hr & _).
  split; [exact Hi | exact Hr].
Defined.

Lemma respond_finalize_always_orders_witness :
  let turn :=
    respond (rt := ascii_runtime) demo_services
      (constant_client finalize_answer) demo_agent ∅ [] (u "hello") in
  check_food_intent (rt := ascii_runtime) [] (u "hello") = false
  /\ eq_str (action turn) (u "FINALIZE") = true
  /\ candidates turn = [].
Proof.
  intros turn.
  split; [vm_compute; reflexivity|].
  assert (Hfin : eq_str (action turn) (u "FINALIZE") = true)
    by (vm_compute; reflexivity).
  split; [exact Hfin|].
  exact (proj1 (proj2 (@respond_finalize_always_orders ascii_runtime
                         demo_services (constant_client finalize_answer)
                         demo_agent ∅ [] (u "hello") Hfin))).
Defined.

(** * Properties of the page merge *)

Section Merge.
Context {rt : PyRuntime}.

Lemma merge_pages_concat (items_list : list (list json)) :
  forall state,
    merge_pages state items_list = merge_page state (concat items_list).
Proof.
  induction items_list as [|page rest IH]; intros state; [reflexivity|].
  cbn [merge_pages concat].
  revert state. induction page as [|item page IHp]; intros state.
  - cbn [merge_page app]. apply IH.
  - cbn [merge_page app].
    destruct (merge_item state item) as [state'|]; [|reflexivity].
    cbn [mbind result_bind]. apply IHp.
Qed.

Lemma merge_item_inv (seen : gset pystr) (merged : list json) (item : json)
    (state' : gset pystr * list json) :
  merge_item (seen, merged) item = Ok state' ->
  exists name,
    normalized_name item = Ok name
    /\ ((name <> [] /\ (name ∉ seen)
         /\ state' = ({[name]} ∪ seen, merged ++ [item]))
        \/ ((name = [] \/ name ∈ seen) /\ state' = (seen, merged))).
Proof.
  unfold merge_item. intros Hm.
  apply bind_Ok_inv in Hm as (name & Hname & Hm).
  exists name. split; [exact Hname|].
  cbn [fst snd] in Hm.
  destruct name as [|c name].
  - cbn [andb] in Hm. injection Hm as <-. right. split; [left|]; reflexivity.
  - cbn [andb] in Hm.
    destruct (bool_decide (c :: name ∉ seen)) eqn:Hseen.
    + apply bool_decide_eq_true in Hseen. injection Hm as <-.
      left. split; [discriminate | split; [exact Hseen | reflexivity]].
    + apply bool_decide_eq_false in Hseen. injection Hm as <-.
      right. split; [|reflexivity]. right.
      destruct (decide (c :: name ∈ seen)); [assumption | contradiction].
Qed.

Lemma merge_page_inv (page_items : list json) :
  forall (seen seen' : gset pystr) (merged merged' : list json),
    merge_page (seen, merged) page_items = Ok (seen', merged') ->
    exists kept,
      merged' = merged ++ kept
      /\ sublist kept page_items
      /\ (forall name, name ∈ seen' <->
            name ∈ seen \/ exists item, item ∈ kept
                                         /\ normalized_name item = Ok name)
      /\ (forall item, item ∈ kept ->
            exists name, normalized_name item = Ok name
                         /\ name <> [] /\ name ∉ seen)
      /\ ForallOrdPairs
           (fun a b => normalized_name a <> normalized_name b) kept
      /\ (forall item name, item ∈ page_items ->
            normalized_name item = Ok name -> name <> [] -> name ∈ seen')
      /\ (forall pre item post name,
            page_items = pre ++ item :: post ->
            normalized_name item = Ok name -> name <> [] -> name ∉ seen ->
            (forall x, x ∈ pre -> normalized_name x <> Ok name) ->
            item ∈ kept).
Proof.
  induction page_items as [|item rest IH]; intros seen seen' merged merged'.
  - intros [= <- <-]. exists []. rewrite app_nil_r.
    split; [reflexivity|]. split; [constructor|].
    split; [intros name; split; [tauto | intros [H|(x & Hx & _)];
                                  [exact H | inversion Hx]]|].
    split; [intros x Hx; inversion Hx|].
    split; [constructor|].
    split; [intros x name Hx; inversion Hx|].
    intros [|? ?] ? ? ? Heq; discriminate.
  - cbn [merge_page]. intros Hm.
    apply bind_Ok_inv in Hm as ([seen1 merged1] & Hitem & Hrest).
    apply merge_item_inv in Hitem
      as (name0 & Hname0 & [(Hne & Hnew & [= -> ->])|(Hold & [= -> ->])]).
    + apply IH in Hrest
        as (kept & -> & Hsub & Hseen & Hkept & Hpairs & Hcover & Hfirst).
      exists (item :: kept). rewrite <- app_assoc.
      split; [reflexivity|].
      split; [apply sublist_skip, Hsub|].
      split.
      { intros name. rewrite Hseen. split.
        - intros [Hin|(x & Hx & Hn)].
          + apply elem_of_union in Hin as [Hin|Hin]; [|left; exact Hin].
            apply elem_of_singleton in Hin as ->.
            right. exists item. split; [left | exact Hname0].
          + right. exists x. split; [right; exact Hx | exact Hn].
        - intros [Hin|(x & Hx & Hn)].
          + left. apply elem_of_union. right. exact Hin.
          + apply elem_of_cons in Hx as [->|Hx].
            * left. rewrite Hname0 in Hn. injection Hn as <-.
              apply elem_of_union. left. apply elem_of_singleton. reflexivity.
            * right. exists x. split; assumption. }
      split.
      { intros x Hx. apply elem_of_cons in Hx as [->|Hx].
        - exists name0. split; [exact Hname0 | split; assumption].
        - destruct (Hkept x Hx) as (name & Hn & Hnn & Hns).
          exists name. split; [exact Hn | split; [exact Hnn|]].
          intros Hin. apply Hns, elem_of_union. right. exact Hin. }
      split.
      { constructor; [|exact Hpairs].
        apply Forall_forall. intros x Hx.
        destruct (Hkept x Hx) as (name & Hn & _ & Hns).
        rewrite Hname0, Hn. intros [= ->].
        apply Hns, elem_of_union. left. apply elem_of_singleton. reflexivity. }
      split.
      { intros x name Hx Hn Hnn. apply elem_of_cons in Hx as [->|Hx].
        - rewrite Hname0 in Hn. injection Hn as <-.
          apply Hseen. left. apply elem_of_union. left.
          apply elem_of_singleton. reflexivity.
        - exact (Hcover x name Hx Hn Hnn). }
      intros [|y pre] x post name Heq Hn Hnn Hns Hpre.
      * injection Heq as <- _. left.
      * injection Heq as <- Heq. right.
        apply (Hfirst pre x post name Heq Hn Hnn).
        -- intros Hin. apply elem_of_union in Hin as [Hin|Hin];
             [|contradiction].
           apply elem_of_singleton in Hin as ->.
           apply (Hpre item); [left | exact Hname0].
        -- intros z Hz. apply Hpre. right. exact Hz.
    + apply IH in Hrest
        as (kept & -> & Hsub & Hseen & Hkept & Hpairs & Hcover & Hfirst).
      exists kept.
      split; [reflexivity|].
      split; [apply sublist_cons, Hsub|].
      split; [exact Hseen|].
      split; [exact Hkept|].
      split; [exact Hpairs|].
      split.
      { intros x name Hx Hn Hnn. apply elem_of_cons in Hx as [->|Hx].
        - rewrite Hname0 in Hn. injection Hn as <-.
          apply Hseen. left. destruct Hold as [->|Hin];
            [contradiction Hnn; reflexivity | exact Hin].
        - exact (Hcover x name Hx Hn Hnn). }
      intros [|y pre] x post name Heq Hn Hnn Hns Hpre.
      * injection Heq as <- _. rewrite Hname0 in Hn. injection Hn as <-.
        destruct Hold as [->|Hin]; [contradiction Hnn; reflexivity
                                   | contradiction].
      * injection Heq as <- Heq.
        apply (Hfirst pre x post name Heq Hn Hnn Hns).
        intros z Hz. apply Hpre. right. exact Hz.
Qed.

(** X16.  When [merge_menu_items] returns, the merged list is a
    sublist of the pages in reading order; every merged item has a non-empty
    normalised name; no two merged items share a normalised name; every
    non-empty normalised name of the pages is kept; and the item kept for a
    name is its first occurrence. *)
Theorem merge_menu_items_deduplicates (items_list : list (list json))
    (merged : list json) :
  merge_menu_items items_list = Ok merged ->
  sublist merged (concat items_list)
  /\ (forall item, item ∈ merged ->
        exists name, normalized_name item = Ok name /\ name <> [])
  /\ ForallOrdPairs (fun a b => normalized_name a <> normalized_name b) merged
  /\ (forall item name, item ∈ concat items_list ->
        normalized_name item = Ok name -> name <> [] ->
        exists kept_item, kept_item ∈ merged
                          /\ normalized_name kept_item = Ok name)
  /\ (forall pre item post name,
        concat items_list = pre ++ item :: post ->
        normalized_name item = Ok name -> name <> [] ->
        (forall x, x ∈ pre -> normalized_name x <> Ok name) ->
        item ∈ merged).
Proof.
  unfold merge_menu_items. intros Hm.
  apply bind_Ok_inv in Hm as ([seen' merged'] & Hm & [= <-]).
  rewrite merge_pages_concat in Hm.
  apply merge_page_inv in Hm
    as (kept & -> & Hsub & Hseen & Hkept & Hpairs & Hcover & Hfirst).
  cbn [app].
  split; [exact Hsub|].
  split.
  { intros item Hin. destruct (Hkept item Hin) as (name & Hn & Hnn & _).
    exists name. split; assumption. }
  split; [exact Hpairs|].
  split.
  { intros item name Hin Hn Hnn.
    pose proof (Hcover item name Hin Hn Hnn) as Hc.
    apply Hseen in Hc.
    destruct Hc as [Hempty|Hkept_item];
      [apply not_elem_of_empty in Hempty; contradiction | exact Hkept_item]. }
  intros pre item post name Heq Hn Hnn Hpre.
  apply (Hfirst pre item post name Heq Hn Hnn); [|exact Hpre].
  apply not_elem_of_empty.
Qed.

Lemma merge_item_raises (state : gset pystr * list json) (item : json) :
  merge_item state item = Raise <-> normalized_name item = Raise.
Proof.
  unfold merge_item.
  destruct (normalized_name item) as [name|]; cbn [mbind result_bind].
  - destruct (_ && _); split; discriminate.
  - split; reflexivity.
Qed.

Lemma merge_page_raises (page_items : list json) :
  forall state,
    merge_page state page_items = Raise
    <-> exists item, item ∈ page_items /\ normalized_name item = Raise.
Proof.
  induction page_items as [|item rest IH]; intros state.
  - split; [discriminate | intros (x & Hx & _); inversion Hx].
  - cbn [merge_page].
    destruct (merge_item state item) as [state'|] eqn:Hitem;
      cbn [mbind result_bind].
    + rewrite IH. split.
      * intros (x & Hx & Hr). exists x. split; [right; exact Hx | exact Hr].
      * intros (x & Hx & Hr). apply elem_of_cons in Hx as [->|Hx].
        -- rewrite (proj2 (merge_item_raises state item) Hr) in Hitem.
           discriminate.
        -- exists x. split; assumption.
    + split; [|reflexivity]. intros _.
      exists item. split; [left|]. apply (merge_item_raises state), Hitem.
Qed.

(** X17.  [merge_menu_items] raises exactly when some item of some
    page is not a mapping or has a name that is not a string. *)
Theorem merge_menu_items_raises_iff (items_list : list (list json)) :
  merge_menu_items items_list = Raise
  <-> exists item, item ∈ concat items_list /\ normalized_name item = Raise.
Proof.
  unfold merge_menu_items.
  rewrite <- (merge_page_raises (concat items_list) (∅, [])).
  rewrite merge_pages_concat.
  destruct (merge_page (∅, []) (concat items_list)); cbn [mbind result_bind];
    split; first [discriminate | reflexivity].
Qed.

End Merge.

Lemma merge_menu_items_deduplicates_witness :
  let soup_item := JDict [(u "name", JStr (u "Lentil Soup"))] in
  let shouted := JDict [(u "name", JStr (u " LENTIL SOUP "));
                        (u "price", JStr (u "12"))] in
  let nameless := JDict [(u "price", JStr (u "3"))] in
  merge_menu_items (rt := ascii_runtime) [[soup_item; nameless]; [shouted]]
  = Ok [soup_item]
  /\ sublist [soup_item] (concat [[soup_item; nameless]; [shouted]]).
Proof.
  intros soup_item shouted nameless.
  assert (Hm : merge_menu_items (rt := ascii_runtime)
                 [[soup_item; nameless]; [shouted]] = Ok [soup_item])
    by (vm_compute; reflexivity).
  split; [exact Hm|].
  exact (proj1 (@merge_menu_items_deduplicates ascii_runtime
                  [[soup_item; nameless]; [shouted]] [soup_item] Hm)).
Defined.

(** * Price buckets *)

Section Price.
Context {rt : PyRuntime}.

Lemma go_star_total (a : Re.re) (s : pystr) (k : pystr -> option pystr) :
  (forall x, k x <> None) -> Re.go (Re.Star a) s k <> None.
Proof.
  intros Hk. cbn [Re.go]. generalize (length s) as n. intros n.
  destruct n as [|n]; [apply Hk|].
  unfold Re.first_some at 1.
  match goal with |- context [Re.go a s ?k'] =>
    destruct (Re.go a s k') end; [discriminate | apply Hk].
Qed.

Lemma go_class_then (p : N -> bool) (b : Re.re) (s : pystr)
    (k : pystr -> option pystr) :
  Re.go (Re.Seq (Re.Plus (Re.Cls p)) b) s k
  = match s with
    | c :: t =>
      if p c then Re.go (Re.Star (Re.Cls p)) t (fun s' => Re.go b s' k)
      else None
    | [] => None
    end.
Proof. destruct s; reflexivity. Qed.

Lemma match_at_number_digit (c : N) (t : pystr) :
  is_Some (py_decimal c) -> Re.match_at number_re (c :: t) <> None.
Proof.
  intros Hc. unfold Re.match_at.
  destruct (Re.go number_re (c :: t) Some) eqn:Hgo; [discriminate|].
  exfalso. revert Hgo. unfold number_re.
  rewrite go_class_then, (bool_decide_eq_true_2 _ Hc).
  apply (go_star_total _ t). intros x.
  change (Re.go (Re.Opt ?a) x Some)
    with (Re.first_some (Re.go a x Some) (Some x)).
  destruct (Re.go _ x Some); discriminate.
Qed.

Lemma match_at_number_no_digit (s : pystr) :
  match s with c :: _ => py_decimal c = None | [] => True end ->
  Re.match_at number_re s = None.
Proof.
  intros Hs. unfold Re.match_at, number_re. rewrite go_class_then.
  destruct s as [|c t]; [reflexivity|].
  rewrite bool_decide_eq_false_2; [reflexivity|].
  rewrite Hs. intros [x Hx]. discriminate.
Qed.

Lemma search_number_none (s : pystr) :
  Re.search number_re s = None <-> Forall (fun c => py_decimal c = None) s.
Proof.
  induction s as [|c t IH].
  - cbn [Re.search]. rewrite (match_at_number_no_digit [] I).
    split; [constructor | reflexivity].
  - cbn [Re.search].
    destruct (py_decimal c) as [d|] eqn:Hc.
    + pose proof (match_at_number_digit c t) as Hm.
      rewrite Hc in Hm. specialize (Hm (mk_is_Some _ _ eq_refl)).
      destruct (Re.match_at number_re (c :: t)) as [[m rest]|];
        [|contradiction Hm; reflexivity].
      split; [discriminate|].
      intros Hall. apply Forall_cons in Hall as [Hc' _].
      rewrite Hc in Hc'. discriminate.
    + rewrite (match_at_number_no_digit (c :: t) Hc), IH.
      rewrite Forall_cons. rewrite Hc. tauto.
Qed.

(** X18.  [price_bucket] returns nothing exactly when there is no
    price string or the string holds no decimal digit; every other price
    falls in low, medium or high. *)
Theorem price_bucket_none_iff (price_str : option pystr) :
  (price_bucket price_str = None
   <-> forall s, price_str = Some s ->
         Forall (fun c => py_decimal c = None) s)
  /\ forall bucket, price_bucket price_str = Some bucket ->
       bucket = u "low" \/ bucket = u "medium" \/ bucket = u "high".
Proof.
  split.
  - destruct price_str as [[|c t]|]; cbn [price_bucket].
    + split; [intros _ s [= <-]; constructor | reflexivity].
    + destruct (Re.search number_re (c :: t)) as [number|] eqn:Hsearch.
      * split.
        -- destruct (Qlt_le_dec _ _); [discriminate|].
           destruct (Qlt_le_dec _ _); discriminate.
        -- intros Hall. specialize (Hall _ eq_refl).
           apply search_number_none in Hall. rewrite Hall in Hsearch.
           discriminate.
      * split; [|reflexivity]. intros _ s [= <-].
        apply search_number_none, Hsearch.
    + split; [intros _ s; discriminate | reflexivity].
  - intros bucket. destruct price_str as [[|c t]|]; cbn [price_bucket];
      try discriminate.
    destruct (Re.search number_re (c :: t)); [|discriminate].
    destruct (Qlt_le_dec _ _); [intros [= <-]; auto|].
    destruct (Qlt_le_dec _ _); intros [= <-]; auto.
Qed.

End Price.

(** * The listing of menu files *)

Lemma insert_sorted_elem (x y : pystr) (l : list pystr) :
  y ∈ insert_sorted x l <-> y = x \/ y ∈ l.
Proof.
  induction l as [|z l IH]; cbn [insert_sorted].
  - rewrite elem_of_cons. reflexivity.
  - destruct (pystr_ltb x z).
    + rewrite elem_of_cons. reflexivity.
    + rewrite !elem_of_cons, IH. tauto.
Qed.

Lemma sorted_strs_elem (y : pystr) (l : list pystr) :
  y ∈ sorted_strs l <-> y ∈ l.
Proof.
  induction l as [|x l IH]; cbn [sorted_strs fold_right]; [reflexivity|].
  rewrite insert_sorted_elem, elem_of_cons.
  unfold sorted_strs in IH. rewrite IH. reflexivity.
Qed.

Lemma endswith_app (pre s suffix : pystr) :
  endswith s suffix = true -> endswith (pre ++ s) suffix = true.
Proof.
  unfold endswith. rewrite rev_app_distr. apply startswith_app_l.
Qed.

Lemma endswith_self_app (pre suffix : pystr) :
  endswith (pre ++ suffix) suffix = true.
Proof. unfold endswith. rewrite rev_app_distr. apply startswith_app. Qed.

Lemma path_join_suffix (a b : pystr) : exists pre, path_join a b = pre ++ b.
Proof.
  unfold path_join.
  destruct (startswith b [47]); [exists []; reflexivity|].
  destruct (_ || _); [exists a; reflexivity|].
  exists (a ++ [47]). rewrite <- app_assoc. reflexivity.
Qed.

Lemma endswith_json_not_npy (s : pystr) :
  endswith s (u ".json") = true -> endswith s (u ".emb.npy") = false.
Proof.
  unfold endswith.
  change (rev (u ".json")) with [110; 111; 115; 106; 46].
  change (rev (u ".emb.npy")) with [121; 112; 110; 46; 98; 109; 101; 46].
  destruct (rev s) as [|c r]; [discriminate|].
  cbn [startswith].
  destruct (110 =? c) eqn:Hc; [|discriminate].
  apply N.eqb_eq in Hc. subst c. reflexivity.
Qed.

(** X19.  Every path [list_menu_jsons] returns ends in .json and is
    the directory joined with a listed file name; every listed file name
    that ends in .json is returned; and no embedding cache path is ever
    returned. *)
Theorem list_menu_jsons_only_menus {rt : PyRuntime}
    (listing : option (list pystr)) (dir_path : pystr) :
  (forall path, path ∈ list_menu_jsons listing dir_path ->
     endswith path (u ".json") = true
     /\ exists filenames filename,
          listing = Some filenames /\ filename ∈ filenames
          /\ path = path_join dir_path filename)
  /\ (forall filenames filename,
        listing = Some filenames -> filename ∈ filenames ->
        endswith filename (u ".json") = true ->
        path_join dir_path filename ∈ list_menu_jsons listing dir_path)
  /\ forall (menu_json : MenuJSON.t) (base_dir : pystr),
       get_embedding_cache_path menu_json base_dir
       ∉ list_menu_jsons listing dir_path.
Proof.
  assert (Hlisted : forall path, path ∈ list_menu_jsons listing dir_path ->
     endswith path (u ".json") = true
     /\ exists filenames filename,
          listing = Some filenames /\ filename ∈ filenames
          /\ path = path_join dir_path filename).
  { intros path. destruct listing as [filenames|]; cbn [list_menu_jsons];
      [|intros H; inversion H].
    rewrite sorted_strs_elem, list_elem_of_In, in_map_iff.
    intros (filename & <- & Hin).
    apply filter_In in Hin as [Hin Hext].
    apply andb_true_iff in Hext as [Hjson _].
    split.
    - destruct (path_join_suffix dir_path filename) as [pre ->].
      apply endswith_app, Hjson.
    - exists filenames, filename.
      split; [reflexivity | split; [apply list_elem_of_In, Hin | reflexivity]]. }
  split; [exact Hlisted|]. split.
  - intros filenames filename -> Hin Hjson. cbn [list_menu_jsons].
    rewrite sorted_strs_elem, list_elem_of_In, in_map_iff.
    exists filename. split; [reflexivity|].
    apply filter_In. split; [apply list_elem_of_In, Hin|].
    rewrite Hjson, (endswith_json_not_npy _ Hjson). reflexivity.
  - intros menu_json base_dir Hin.
    apply Hlisted in Hin as [Hjson _].
    apply endswith_json_not_npy in Hjson.
    unfold get_embedding_cache_path in Hjson.
    match type of Hjson with
    | endswith (path_join ?a ?b) _ = false =>
      destruct (path_join_suffix a b) as [pre Hpre]; rewrite Hpre in Hjson
    end.
    rewrite !app_assoc, endswith_self_app in Hjson. discriminate.
Qed.

(** * Properties of the file names *)

Lemma sub_with_class (p : N -> bool) (repl : pystr) (n : nat) :
  forall s, (length s <= n)%nat ->
    sub_with_fuel n (Re.Cls p) repl s
    = concat (List.map (fun c => if p c then repl else [c]) s).
Proof.
  induction n as [|n IH]; intros s Hlen.
  - destruct s; [reflexivity | simpl in Hlen; lia].
  - destruct s as [|c t]; [reflexivity|].
    cbn [sub_with_fuel List.map concat].
    simpl in Hlen.
    unfold Re.match_at. cbn [Re.go].
    destruct (p c).
    + replace (length (c :: t) - length t)%nat with 1%nat by (simpl; lia).
      cbn [take]. rewrite IH by lia. reflexivity.
    + rewrite IH by lia. reflexivity.
Qed.

Lemma lstrip_chars_suffix (chars s : pystr) :
  exists pre, s = pre ++ lstrip_chars chars s.
Proof.
  induction s as [|c s [pre IH]]; [exists []; reflexivity|].
  cbn [lstrip_chars]. destruct (bool_decide (c ∈ chars)).
  - exists (c :: pre). cbn [app]. f_equal. exact IH.
  - exists []. reflexivity.
Qed.

Lemma lstrip_chars_head (chars s : pystr) (c : N) :
  head (lstrip_chars chars s) = Some c -> c ∉ chars.
Proof.
  induction s as [|d s IH]; [discriminate|].
  cbn [lstrip_chars]. destruct (bool_decide (d ∈ chars)) eqn:Hd; [exact IH|].
  intros [= <-]. apply bool_decide_eq_false in Hd. exact Hd.
Qed.

Lemma lstrip_chars_length (chars s : pystr) :
  (length (lstrip_chars chars s) <= length s)%nat.
Proof.
  destruct (lstrip_chars_suffix chars s) as [pre Hs].
  rewrite Hs at 2. rewrite length_app. lia.
Qed.

(** The greedy run of underscores. *)
Lemma go_star_underscore (t : pystr) :
  Re.go (Re.Star (Re.Chr 95)) t Some = Some (lstrip_chars [95] t).
Proof.
  cbn [Re.go].
  assert (Hfuel : (length t <= length t)%nat) by lia.
  revert Hfuel. generalize (length t) at 2 3 as n. intros n. revert t.
  induction n as [|n IH]; intros t Hlen.
  - destruct t; [reflexivity | simpl in Hlen; lia].
  - destruct t as [|x t]; [reflexivity|].
    cbn [lstrip_chars]. simpl in Hlen.
    destruct (x =? 95) eqn:Hx.
    + apply N.eqb_eq in Hx. subst x.
      rewrite bool_decide_eq_true_2 by (left).
      replace (Nat.ltb (length t) (length (95 :: t))) with true
        by (symmetry; apply Nat.ltb_lt; simpl; lia).
      rewrite IH by lia. reflexivity.
    + rewrite bool_decide_eq_false_2; [reflexivity|].
      rewrite elem_of_cons, elem_of_nil. intros [->|[]]. discriminate.
Qed.

Lemma match_at_underscores (c : N) (t : pystr) :
  Re.match_at (Re.Plus (Re.Chr 95)) (c :: t)
  = if c =? 95
    then Some (take (length (c :: t) - length (lstrip_chars [95] t)) (c :: t),
               lstrip_chars [95] t)
    else None.
Proof.
  unfold Re.match_at, Re.Plus.
  change (Re.go (Re.Seq (Re.Chr 95) (Re.Star (Re.Chr 95))) (c :: t) Some)
    with (if c =? 95 then Re.go (Re.Star (Re.Chr 95)) t Some else None).
  destruct (c =? 95); [|reflexivity].
  rewrite go_star_underscore. reflexivity.
Qed.

Lemma contains_double_cons (c : N) (s : pystr) :
  contains (c :: s) [95; 95]
  = ((c =? 95) && match s with d :: _ => d =? 95 | [] => false end)
    || contains s [95; 95].
Proof.
  cbn [contains startswith]. f_equal.
  rewrite (N.eqb_sym 95 c). destruct (c =? 95); [|reflexivity]. cbn [andb].
  destruct s as [|d r]; [reflexivity|].
  cbn [startswith]. rewrite startswith_nil, andb_true_r. apply N.eqb_sym.
Qed.

Lemma sub_with_underscores (P : N -> Prop) (n : nat) :
  P 95 ->
  forall s, (length s <= n)%nat -> Forall P s ->
    let r := sub_with_fuel n (Re.Plus (Re.Chr 95)) [95] s in
    Forall P r
    /\ contains r [95; 95] = false
    /\ (head s <> Some 95 -> head r <> Some 95)
    /\ (s <> [] -> r <> []).
Proof.
  intros HP. induction n as [|n IH]; intros s Hlen Hall.
  - destruct s; [|simpl in Hlen; lia]. cbn.
    split; [constructor|]. split; [reflexivity|]. split; [tauto|tauto].
  - destruct s as [|c t].
    { cbn. split; [constructor|]. split; [reflexivity|]. split; tauto. }
    cbn [sub_with_fuel]. rewrite match_at_underscores.
    simpl in Hlen. apply Forall_cons in Hall as [Hc Ht].
    destruct (c =? 95) eqn:Hc95.
    + pose proof (lstrip_chars_length [95] t) as Hshort.
      destruct (take _ (c :: t)) as [|m0 m] eqn:Htake.
      { exfalso. apply (f_equal length) in Htake.
        rewrite length_take in Htake. simpl in Htake. lia. }
      destruct (lstrip_chars_suffix [95] t) as [pre Hpre].
      assert (Hrest : Forall P (lstrip_chars [95] t)).
      { rewrite Hpre in Ht. apply Forall_app in Ht as [_ Ht]. exact Ht. }
      destruct (IH (lstrip_chars [95] t) ltac:(lia) Hrest)
        as (Hall' & Hno & Hhead & _).
      assert (Hh : head (sub_with_fuel n (Re.Plus (Re.Chr 95)) [95]
                           (lstrip_chars [95] t)) <> Some 95).
      { apply Hhead. intros H95. apply lstrip_chars_head in H95.
        apply H95. left. }
      cbn zeta. cbn [app].
      split; [constructor; assumption|].
      split.
      { rewrite contains_double_cons, Hno, orb_false_r.
        destruct (sub_with_fuel _ _ _ _) as [|d r]; [reflexivity|].
        cbn [andb N.eqb]. apply N.eqb_neq. intros ->.
        apply Hh. reflexivity. }
      split; [|discriminate].
      intros Hne. exfalso. apply Hne. apply N.eqb_eq in Hc95. subst c.
      reflexivity.
    + destruct (IH t ltac:(lia) Ht) as (Hall' & Hno & _ & _).
      cbn zeta.
      split; [constructor; assumption|].
      split; [rewrite contains_double_cons, Hc95, Hno; reflexivity|].
      split; [|discriminate].
      intros _ [= ->]. discriminate.
Qed.

Lemma last_rev_head {A} (l : list A) : last (rev l) = head l.
Proof.
  destruct l as [|x l]; [reflexivity|].
  cbn [rev head]. apply last_snoc.
Qed.

Lemma strip_chars_infix (chars s : pystr) :
  exists pre post, s = pre ++ strip_chars chars s ++ post.
Proof.
  unfold strip_chars.
  destruct (lstrip_chars_suffix chars s) as [pre Hpre].
  destruct (lstrip_chars_suffix chars (rev (lstrip_chars chars s)))
    as [post Hpost].
  exists pre, (rev post).
  rewrite <- rev_app_distr, <- Hpost, rev_involutive. exact Hpre.
Qed.

Lemma strip_chars_ends (chars s : pystr) (c : N) :
  c ∈ chars ->
  head (strip_chars chars s) <> Some c
  /\ last (strip_chars chars s) <> Some c.
Proof.
  intros Hc. unfold strip_chars.
  set (x := lstrip_chars chars s).
  set (y := lstrip_chars chars (rev x)).
  split.
  - destruct (lstrip_chars_suffix chars (rev x)) as [post Hpost].
    fold y in Hpost.
    assert (Hx : x = rev y ++ rev post).
    { rewrite <- rev_app_distr, <- Hpost, rev_involutive. reflexivity. }
    intros Hhead.
    assert (Hxh : head x = Some c).
    { rewrite Hx. destruct (rev y); [discriminate | exact Hhead]. }
    apply lstrip_chars_head in Hxh. contradiction.
  - rewrite last_rev_head. intros Hhead.
    apply lstrip_chars_head in Hhead. contradiction.
Qed.

Lemma contains_infix_false (pre s post needle : pystr) :
  contains (pre ++ s ++ post) needle = false -> contains s needle = false.
Proof.
  intros Hno. destruct (contains s needle) eqn:Hs; [|reflexivity].
  rewrite (contains_app pre s post needle Hs) in Hno. discriminate.
Qed.

Lemma is_name_char_clean (c : N) :
  is_name_char c = true -> is_clean_char (ascii_lower_cp c) = true.
Proof.
  unfold is_name_char, is_clean_char, ascii_lower_cp.
  destruct (97 <=? c) eqn:H1, (c <=? 122) eqn:H2, (65 <=? c) eqn:H3,
    (c <=? 90) eqn:H4, (48 <=? c) eqn:H5, (c <=? 57) eqn:H6,
    (c =? 45) eqn:H7, (c =? 95) eqn:H8;
    cbn [andb orb]; try discriminate; intros _;
    rewrite ?N.leb_le, ?N.leb_gt, ?N.eqb_eq, ?N.eqb_neq in *;
    try lia;
    repeat rewrite orb_true_iff; repeat rewrite andb_true_iff;
    rewrite ?N.leb_le, ?N.eqb_eq; lia.
Qed.

Lemma ascii_lower_cp_underscore (c : N) :
  (ascii_lower_cp c =? 95) = (c =? 95).
Proof.
  unfold ascii_lower_cp.
  destruct (65 <=? c) eqn:H1, (c <=? 90) eqn:H2; cbn [andb]; try reflexivity.
  apply N.leb_le in H1, H2.
  transitivity false; [|symmetry]; apply N.eqb_neq; lia.
Qed.

Lemma contains_double_lower (s : pystr) :
  contains (List.map ascii_lower_cp s) [95; 95] = contains s [95; 95].
Proof.
  induction s as [|c s IH]; [reflexivity|].
  cbn [List.map]. rewrite !contains_double_cons, IH, ascii_lower_cp_underscore.
  destruct s as [|d r]; [reflexivity|].
  cbn [List.map]. rewrite ascii_lower_cp_underscore. reflexivity.
Qed.

Section CleanFilenameProperties.
Context {rt : PyRuntime}.
Variable path_stem : pystr -> pystr.

(** X20.  With [str.lower] acting on ASCII text as ASCII lower-casing,
    a cleaned file name is never empty, consists of lower-case letters,
    digits, hyphens and underscores only, neither starts nor ends with an
    underscore and holds no two underscores in a row, whatever the stem of
    the file name is. *)
Theorem clean_filename_is_safe (filename : pystr) :
  (forall s, Forall (fun c => c < 128) s ->
     lower s = List.map ascii_lower_cp s) ->
  let cleaned := clean_filename path_stem filename in
  cleaned <> []
  /\ Forall (fun c => is_clean_char c = true) cleaned
  /\ head cleaned <> Some 95
  /\ last cleaned <> Some 95
  /\ contains cleaned [95; 95] = false.
Proof.
  intros Hlower. unfold clean_filename.
  set (name := path_stem filename).
  set (s1 := sub_with _ [95] name).
  set (s2 := sub_with _ [95] s1).
  set (s3 := strip_chars [95] s2).
  assert (H1 : Forall (fun c => is_name_char c = true) s1).
  { subst s1. unfold sub_with. rewrite sub_with_class by lia.
    induction name as [|c name' IH]; [constructor|].
    cbn [List.map concat].
    destruct (is_name_char c) eqn:Hc; cbn [negb app];
      constructor; try assumption. reflexivity. }
  destruct (sub_with_underscores (fun c => is_name_char c = true) (length s1)
              eq_refl s1 ltac:(lia) H1) as (H2 & Hno2 & _ & _).
  fold (sub_with (Re.Plus (Re.Chr 95)) [95] s1) in H2, Hno2. fold s2 in H2, Hno2.
  destruct (strip_chars_infix [95] s2) as (pre & post & Hinfix). fold s3 in Hinfix.
  assert (H3 : Forall (fun c => is_name_char c = true) s3).
  { rewrite Hinfix in H2. apply Forall_app in H2 as [_ H2].
    apply Forall_app in H2 as [H2 _]. exact H2. }
  assert (Hno3 : contains s3 [95; 95] = false).
  { rewrite Hinfix in Hno2. exact (contains_infix_false _ _ _ _ Hno2). }
  destruct (strip_chars_ends [95] s2 95 ltac:(left)) as [Hhead Hlast].
  fold s3 in Hhead, Hlast.
  destruct s3 as [|c s3'] eqn:Hs3.
  { cbn zeta. split; [vm_compute; discriminate|].
    split; [vm_compute; repeat constructor|].
    split; [vm_compute; discriminate|].
    split; [vm_compute; discriminate | vm_compute; reflexivity]. }
  cbn zeta. rewrite <- Hs3 in *.
  rewrite Hlower.
  2:{ eapply Forall_impl; [exact H3|]. intros d Hd. cbn beta in Hd.
      unfold is_name_char in Hd.
      rewrite !orb_true_iff, !andb_true_iff, !N.leb_le, !N.eqb_eq in Hd. lia. }
  split; [rewrite Hs3; discriminate|].
  split.
  { apply Forall_forall. intros d Hd.
    apply list_elem_of_In, in_map_iff in Hd as (e & <- & He).
    apply is_name_char_clean.
    rewrite Forall_forall in H3. apply H3, list_elem_of_In, He. }
  split.
  { rewrite Hs3. cbn [List.map head]. intros [= Hc].
    apply N.eqb_eq in Hc. rewrite ascii_lower_cp_underscore in Hc.
    apply N.eqb_eq in Hc. subst c. apply Hhead. rewrite Hs3. reflexivity. }
  split; [|rewrite contains_double_lower; exact Hno3].
  intros Hl. apply Hlast.
  clear -Hl. induction s3 as [|d [|e r] IH]; [discriminate| |].
  - cbn in Hl |- *. injection Hl as Hd. f_equal.
    apply N.eqb_eq. rewrite <- ascii_lower_cp_underscore. apply N.eqb_eq, Hd.
  - apply IH, Hl.
Qed.

End CleanFilenameProperties.

Lemma clean_filename_is_safe_witness :
  clean_filename (rt := ascii_runtime) (fun s => s) (u "__Café  Menu (2024)")
  = u "caf_menu_2024"
  /\ clean_filename (rt := ascii_runtime) (fun s => s) (u "???") = u "menu"
  /\ clean_filename (rt := ascii_runtime) (fun s => s) (u "__Café  Menu (2024)")
     <> [].
Proof.
  split; [vm_compute; reflexivity|].
  split; [vm_compute; reflexivity|].
  apply (@clean_filename_is_safe ascii_runtime (fun s => s)
           (u "__Café  Menu (2024)")).
  intros s _. reflexivity.
Defined.

Section RespondFrame.
Context {rt : PyRuntime} (sv : Services) (client : Client).
Context (self : UnifiedWaitressAgent.t).

(** X21.  A turn depends on the last five turns of the history only:
    given at least five recent turns, older turns change nothing of what
    [respond] returns or does. *)
Theorem respond_forgets_old_turns (fs : storage)
    (older recent : list ChatTurn.t) (user_message : pystr) :
  (5 <= length recent)%nat ->
  respond sv client self fs (older ++ recent) user_message
  = respond sv client self fs recent user_message.
Proof.
  intros Hlen. unfold respond, check_food_intent, conversation_context.
  rewrite (last_n_app 3 older recent) by lia.
  rewrite (last_n_app 5 older recent) by lia.
  reflexivity.
Qed.

(** X22.  A turn never changes a file of the cache directory other
    than the embedding cache file of the agent's menu. *)
Theorem respond_writes_one_entry (fs : storage) (history : list ChatTurn.t)
    (user_message path : pystr) :
  path <> get_embedding_cache_path (UnifiedWaitressAgent.menu self)
            default_base_dir ->
  cache (respond sv client self fs history user_message) !! path = fs !! path.
Proof.
  intros Hne. unfold respond.
  destruct (chat_completion client 0 _ _) as [content|]; [|reflexivity].
  destruct (parse_action_from_response (strip content)) as [action_dict reply].
  destruct (any _ _ && _).
  - unfold lookup_candidates.
    pose proof (rank_candidates_frame sv fs (UnifiedWaitressAgent.menu self)
                  (extract_user_keywords client 1 user_message)
                  (Constraints.mk (Some []) (Some []) None) 8 path Hne)
      as Hframe.
    destruct (rank_candidates sv fs _ _ _ 8) as [[found|] fs'];
      cbn [snd] in Hframe.
    + destruct found as [|c found]; [exact Hframe|].
      destruct (chat_completion client 2 _ _) as [content'|]; [|exact Hframe].
      destruct (parse_action_from_response (strip content')).
      exact Hframe.
    + exact Hframe.
  - destruct (eq_str _ (u "FINALIZE")); reflexivity.
Qed.

End RespondFrame.

Lemma respond_forgets_old_turns_witness :
  let recent :=
    [ChatTurn.mk (u "user") (u "hi"); ChatTurn.mk (u "assistant") (u "welcome");
     ChatTurn.mk (u "user") (u "a table for two");
     ChatTurn.mk (u "assistant") (u "of course");
     ChatTurn.mk (u "user") (u "thanks")] in
  respond (rt := ascii_runtime) demo_services
    (constant_client recommend_answer) demo_agent ∅
    ([ChatTurn.mk (u "user") (u "a salad please")] ++ recent) (u "hello")
  = respond (rt := ascii_runtime) demo_services
      (constant_client recommend_answer) demo_agent ∅ recent (u "hello").
Proof.
  intros recent.
  apply (@respond_forgets_old_turns ascii_runtime demo_services
           (constant_client recommend_answer) demo_agent ∅
           [ChatTurn.mk (u "user") (u "a salad please")] recent (u "hello")).
  simpl. lia.
Defined.

Lemma respond_writes_one_entry_witness :
  cache (respond (rt := ascii_runtime) demo_services
           (constant_client recommend_answer) demo_agent
           {[u "opt/menu_content/other.emb.npy" := Unreadable]} []
           (u "please recommend something"))
  !! u "opt/menu_content/other.emb.npy"
  = Some Unreadable.
Proof.
  rewrite (@respond_writes_one_entry ascii_runtime demo_services
             (constant_client recommend_answer) demo_agent
             {[u "opt/menu_content/other.emb.npy" := Unreadable]} []
             (u "please recommend something")
             (u "opt/menu_content/other.emb.npy")).
  - apply lookup_singleton_eq.
  - vm_compute. discriminate.
Defined.

(** Further examples. *)

Lemma parse_action_from_response_is_mapping_witness :
  exists d,
    fst (parse_action_from_response (rt := ascii_runtime)
           (uq "[1, `two`] and nothing else")) = JDict d
    /\ action_of (fst (parse_action_from_response (rt := ascii_runtime)
                         (uq "[1, `two`] and nothing else")))
       = dict_get d (u "action") (JStr (u "ASK")).
Proof.
  exact (@parse_action_from_response_is_mapping ascii_runtime
           (uq "[1, `two`] and nothing else")).
Defined.

Lemma clean_reply_is_trimmed_witness :
  clean_reply (uq "{`action`:`ASK`}
 Welcome! }") = u "Welcome!"
  /\ prefixes_trimmed (clean_reply (uq "{`action`:`ASK`}
 Welcome! }")).
Proof.
  split; [vm_compute; reflexivity|].
  exact (proj1 (proj2 (clean_reply_is_trimmed (uq "{`action`:`ASK`}
 Welcome! }")))).
Defined.

Lemma merge_menu_items_raises_iff_witness :
  merge_menu_items (rt := ascii_runtime)
    [[JDict [(u "name", JStr (u "Soup"))]]; [JStr (u "Salad")]]
  = Raise.
Proof.
  apply (proj2 (@merge_menu_items_raises_iff ascii_runtime
                  [[JDict [(u "name", JStr (u "Soup"))]]; [JStr (u "Salad")]])).
  exists (JStr (u "Salad")). split; [right; left | reflexivity].
Defined.

Lemma price_bucket_none_iff_witness :
  price_bucket (rt := ascii_runtime) (Some (u "ask the waiter")) = None
  /\ price_bucket (rt := ascii_runtime) (Some (u "from 24.50 TL"))
     = Some (u "medium").
Proof.
  split; [|vm_compute; reflexivity].
  apply (proj2 (proj1 (@price_bucket_none_iff ascii_runtime
                         (Some (u "ask the waiter"))))).
  intros s [= <-]. vm_compute. repeat constructor.
Defined.

Lemma list_menu_jsons_only_menus_witness :
  let listing :=
    Some [u "lokanta.json"; u "lokanta_766d0a0d4fe172bd.emb.npy";
          u "notes.txt"; u "bistro.json"] in
  list_menu_jsons listing (u "opt/menu_content")
  = [u "opt/menu_content/bistro.json"; u "opt/menu_content/lokanta.json"]
  /\ get_embedding_cache_path (rt := ascii_runtime) (demo_menu [salad; soup])
       (u "opt/menu_content")
     ∉ list_menu_jsons listing (u "opt/menu_content").
Proof.
  intros listing. split; [vm_compute; reflexivity|].
  exact (proj2 (proj2 (@list_menu_jsons_only_menus ascii_runtime listing
                         (u "opt/menu_content")))
           (demo_menu [salad; soup]) (u "opt/menu_content")).
Defined.
